(** * AI-Powered Second Brain: embedding cache, related-notes search, chat turn

    A shallow embedding of the plugin's [main.ts] (and of the older
    [VectorStore] class that an earlier revision of the same file used).

    - JavaScript numbers are IEEE-754 binary64 values: they are modelled by
      the Standard Library's [spec_float] at precision 53 and maximal
      exponent 1024, with its round-to-nearest-even operations, so that
      [0/0], [NaN] and the infinities behave as they do in the engine.
    - Arrays are lists; [findIndex] and indexed assignment are
      stdpp's [list_find] and [<[i:=x]>], [slice(0, k)] is [take k].
      Values have their declared TypeScript types, but for the one the
      code itself lets through: the [embedding] property of a provider's
      reply, and with it of a cache entry, may be [undefined].
    - [sort] is the stable sort that the language defines where the
      comparisons are consistent; where a [NaN] similarity makes them
      inconsistent the order is the engine's, and the engine is part of
      the environment.
    - Asynchronous methods are written in a state-and-exception monad over
      the plugin and chat-view state; the host application and the HTTP
      providers are an environment of oracles.
    - Callbacks the plugin registers with the host (settings tab, editor
      menu, [modify] event, the buttons and the input of the chat view)
      are functions of what the host passes them; where a callback ends by
      calling the editor or the input element, the value passed is its
      result.
    - Strings are byte strings in UTF-8; [trim] removes the white space
      and line terminators of ECMAScript in that encoding. *)

From Stdlib Require Import ZArith String Ascii Lia.
From Stdlib Require Import Floats.SpecFloat.
From Stdlib Require Import DecimalString.
From stdpp Require Import base tactics option list relations sorting strings.

Local Open Scope string_scope.
Local Open Scope list_scope.

(** ** JavaScript numbers *)

Module Num.

Definition number : Type := spec_float.

Definition prec : Z := 53.
Definition emax : Z := 1024.

Definition add : number -> number -> number := SFadd prec emax.
Definition sub : number -> number -> number := SFsub prec emax.
Definition mul : number -> number -> number := SFmul prec emax.
Definition div : number -> number -> number := SFdiv prec emax.
Definition sqrt : number -> number := SFsqrt prec emax.

Definition NaN : number := S754_nan.
Definition zero : number := S754_zero false.

(** An integer literal. *)
Definition of_Z (z : Z) : number := binary_normalize prec emax z 0 false.


(** [v > 0], [x <= y] and [x == y] on numbers; each is false as soon as
    one side is [NaN]. *)
Definition gt0 (v : number) : bool := SFltb zero v.
Definition leb (x y : number) : bool := SFleb x y.
Definition ltb (x y : number) : bool := SFltb x y.
Definition eqb (x y : number) : bool := SFeqb x y.

Definition is_zero (v : number) : bool :=
  match v with S754_zero _ => true | _ => false end.

Definition is_nan (v : number) : bool :=
  match v with S754_nan => true | _ => false end.

(** Neither [NaN] nor an infinity. *)
Definition is_finite (v : number) : bool :=
  match v with S754_zero _ | S754_finite _ _ _ => true | _ => false end.

(** In the canonical form of binary64 (mantissa of 53 bits, or fewer at
    the least exponent), as every value the engine holds is. *)
Definition is_binary64 (v : number) : bool := valid_binary prec emax v.

End Num.

Import Num.

Declare Scope js_scope.
Delimit Scope js_scope with js.
Infix "+" := add : js_scope.
Infix "-" := sub : js_scope.
Infix "*" := mul : js_scope.
Infix "/" := div : js_scope.

(** ** Array helpers *)

(** [b[i]]: reading past the end yields [undefined], which every
    arithmetic operator turns into [NaN]. *)
Definition index (b : list number) (i : nat) : number := default NaN (b !! i).

(** [arr.reduce((acc, val, i) => f(acc, val, i), init)], the index counted
    from [i]. *)
Fixpoint reduce_from {A B : Type} (f : B -> A -> nat -> B)
    (i : nat) (acc : B) (arr : list A) : B :=
  match arr with
  | [] => acc
  | val :: rest => reduce_from f (S i) (f acc val i) rest
  end.

Definition reduce {A B : Type} (f : B -> A -> nat -> B) (init : B)
    (arr : list A) : B :=
  reduce_from f 0 init arr.

(** The stable sort by [comparefn], built by insertion.  A comparator
    result [v] places its first argument after the second exactly when
    [v > 0]; [NaN] counts as [+0]. *)
Section Sort.
Context {A : Type} (comparefn : A -> A -> number).

Fixpoint insert (x : A) (l : list A) : list A :=
  match l with
  | [] => [x]
  | y :: l' => if gt0 (comparefn x y) then y :: insert x l' else x :: l
  end.

Definition stable_sort (l : list A) : list A := foldr insert [] l.
End Sort.

(** What a function returns or throws; an error is known by its
    message. *)
Inductive Result (A : Type) : Type :=
  | Ok (a : A)
  | Throw (e : string).
Arguments Ok {A} a.
Arguments Throw {A} e.

(** [arr.map(f)] for a callback that may throw: the first exception ends
    the call. *)
Fixpoint Array_map {A B : Type} (f : A -> Result B) (arr : list A)
    : Result (list B) :=
  match arr with
  | [] => Ok []
  | x :: rest =>
      match f x with
      | Throw e => Throw e
      | Ok y =>
          match Array_map f rest with
          | Ok ys => Ok (y :: ys)
          | Throw e => Throw e
          end
      end
  end.

(** The message of the [TypeError] for reading [property] of
    [undefined], in the wording of V8. *)
Definition TypeError (property : string) : string :=
  "Cannot read properties of undefined (reading '" ++ property ++ "')".

(** ** Data model *)

Module NoteEmbedding.
(** [embedding] is declared [number[]] and holds what [getEmbedding]
    returned: [None] is the [undefined] of a reply without the
    property. *)
Record t : Type := mk {
  path : string;
  embedding : option (list number);
  lastModified : number
}.
End NoteEmbedding.

Module Scored.
(** The object literal [{ path, similarity }] built by the searches. *)
Record t : Type := mk {
  path : string;
  similarity : number
}.
End Scored.

(** ** Cosine similarity and the related-notes ranking *)

Definition cosineSimilarity (a b : list number) : number :=
  let dotProduct := reduce (fun sum val i => sum + val * index b i)%js zero a in
  let magnitudeA := sqrt (reduce (fun sum val _ => sum + val * val)%js zero a) in
  let magnitudeB := sqrt (reduce (fun sum val _ => sum + val * val)%js zero b) in
  (dotProduct / (magnitudeA * magnitudeB))%js.

(** [(a, b) => b.similarity - a.similarity] *)
Definition bySimilarityDesc (a b : Scored.t) : number :=
  (Scored.similarity b - Scored.similarity a)%js.

(** [Array.prototype.sort] as the code calls it, with the comparator
    [bySimilarityDesc].  The language requires a stable sort.  Where no
    similarity is [NaN] the comparisons are consistent (the [NaN] of
    [Infinity - Infinity] counts as [+0], a tie) and every stable sort
    returns the same array.  With a [NaN] similarity they are not, and the
    language leaves the order to the engine: an engine is known by the
    arrangement of the elements that its sort leaves then. *)
Record Engine : Type := mkEngine {
  arrange : forall scored : list Scored.t, { r : list Scored.t | r ≡ₚ scored }
}.

Definition comparable (scored : list Scored.t) : bool :=
  forallb (fun s => negb (is_nan (Scored.similarity s))) scored.

Definition sort (engine : Engine) (scored : list Scored.t) : list Scored.t :=
  if comparable scored then stable_sort bySimilarityDesc scored
  else proj1_sig (arrange engine scored).

(** The callback of [map] in [findRelatedNotes].  For an entry without a
    vector, [cosineSimilarity] throws at its first read of a property of
    [b]: [b[0]] in the first step of the dot product or, for an empty
    [a], [b.reduce]. *)
Definition score (query : list number) (e : NoteEmbedding.t) : Result Scored.t :=
  match NoteEmbedding.embedding e with
  | Some b => Ok (Scored.mk (NoteEmbedding.path e) (cosineSimilarity query b))
  | None => Throw (TypeError match query with [] => "reduce" | _ :: _ => "0" end)
  end.

(** The cache entries the active note is compared with. *)
Definition candidates (embeddings : list NoteEmbedding.t) (activePath : string)
    : list NoteEmbedding.t :=
  List.filter (fun e => negb (String.eqb (NoteEmbedding.path e) activePath))
              embeddings.

(** [AIChatView.findRelatedNotes], the [similarities] constant: filter out
    the active note, score, sort, keep the first five. *)
Definition similarities (engine : Engine) (embeddings : list NoteEmbedding.t)
    (activePath : string) (currentEmbedding : list number)
    : Result (list Scored.t) :=
  match Array_map (score currentEmbedding) (candidates embeddings activePath) with
  | Ok scored => Ok (take 5 (sort engine scored))
  | Throw e => Throw e
  end.

(** The in-memory store of the earlier revision.  Its entries carry no
    timestamp, and [search] knows a query vector only, not a note. *)
Module VectorStore.
Record entry : Type := mkEntry {
  path : string;
  embedding : list number
}.

Definition t : Type := list entry.

Definition add (store : t) (p : string) (emb : list number) : t :=
  store ++ [mkEntry p emb].

(** [k] is a count of results; the one call site passes [3]. *)
Definition search (engine : Engine) (store : t) (queryEmbedding : list number)
    (k : nat) : list Scored.t :=
  take k (sort engine
            (map (fun note => Scored.mk (path note)
                                (cosineSimilarity queryEmbedding (embedding note)))
                 store)).

Definition size (store : t) : nat := length store.
End VectorStore.

(** ** Plugin and chat-view state *)

Inductive Role : Type := user | assistant | system.

Definition Role_eqb (a b : Role) : bool :=
  match a, b with
  | user, user | assistant, assistant | system, system => true
  | _, _ => false
  end.

Module ChatMessage.
Record t : Type := mk {
  role : Role;
  content : string
}.
End ChatMessage.

Module TFile.
(** The fields of the host's file handle that the plugin reads:
    [file.path] and [file.stat.mtime]. *)
Record t : Type := mk {
  path : string;
  mtime : number
}.
End TFile.

Module EmbeddingCache.
Record t : Type := mk {
  embeddings : list NoteEmbedding.t;
  version : string
}.
End EmbeddingCache.

Record AIPoweredSecondBrainSettings : Type := mkSettings {
  openaiApiKey : string;
  useOllama : bool;
  ollamaEndpoint : string;
  ollamaModel : string;
  embeddingCache : EmbeddingCache.t;
  (** Declared ["openai" | "ollama"]; the switches keep a default branch
      for whatever string the stored settings hold. *)
  aiProvider : string
}.

Definition DEFAULT_SETTINGS : AIPoweredSecondBrainSettings :=
  {| openaiApiKey := "";
     useOllama := false;
     ollamaEndpoint := "http://localhost:11434";
     ollamaModel := "mistral";
     embeddingCache := EmbeddingCache.mk [] "1.0";
     aiProvider := "openai" |}.

(** Everything the modelled methods read or write: the plugin's settings,
    the chat view's history and rendered bubbles, and what they send to
    the host (notices, console errors, persisted settings, note writes). *)
Record State : Type := mkState {
  settings : AIPoweredSecondBrainSettings;
  chatHistory : list ChatMessage.t;
  chatMessages : list (Role * string);
  notices : list string;
  consoleErrors : list string;
  savedData : option AIPoweredSecondBrainSettings;
  vaultWrites : list (string * string)
}.

Definition set_settings (f : AIPoweredSecondBrainSettings -> AIPoweredSecondBrainSettings)
    (st : State) : State :=
  mkState (f (settings st)) (chatHistory st) (chatMessages st) (notices st)
          (consoleErrors st) (savedData st) (vaultWrites st).

Definition set_chatHistory (f : list ChatMessage.t -> list ChatMessage.t)
    (st : State) : State :=
  mkState (settings st) (f (chatHistory st)) (chatMessages st) (notices st)
          (consoleErrors st) (savedData st) (vaultWrites st).

Definition set_chatMessages (f : list (Role * string) -> list (Role * string))
    (st : State) : State :=
  mkState (settings st) (chatHistory st) (f (chatMessages st)) (notices st)
          (consoleErrors st) (savedData st) (vaultWrites st).

Definition set_notices (f : list string -> list string) (st : State) : State :=
  mkState (settings st) (chatHistory st) (chatMessages st) (f (notices st))
          (consoleErrors st) (savedData st) (vaultWrites st).

Definition set_consoleErrors (f : list string -> list string) (st : State) : State :=
  mkState (settings st) (chatHistory st) (chatMessages st) (notices st)
          (f (consoleErrors st)) (savedData st) (vaultWrites st).

Definition set_savedData (d : option AIPoweredSecondBrainSettings) (st : State) : State :=
  mkState (settings st) (chatHistory st) (chatMessages st) (notices st)
          (consoleErrors st) d (vaultWrites st).

Definition set_vaultWrites (f : list (string * string) -> list (string * string))
    (st : State) : State :=
  mkState (settings st) (chatHistory st) (chatMessages st) (notices st)
          (consoleErrors st) (savedData st) (f (vaultWrites st)).

Definition set_embeddings (embs : list NoteEmbedding.t)
    (s : AIPoweredSecondBrainSettings) : AIPoweredSecondBrainSettings :=
  mkSettings (openaiApiKey s) (useOllama s) (ollamaEndpoint s) (ollamaModel s)
             (EmbeddingCache.mk embs (EmbeddingCache.version (embeddingCache s)))
             (aiProvider s).

(** [this.settings.embeddingCache.embeddings] *)
Definition cache (st : State) : list NoteEmbedding.t :=
  EmbeddingCache.embeddings (embeddingCache (settings st)).

(** The message [onOpen] and [clearHistory] start the history with. *)
Definition systemPrompt : ChatMessage.t :=
  ChatMessage.mk system
    "You are a helpful AI assistant for note-taking and writing. You help users understand and analyze their notes.".

(** Default settings (cloud provider, no key entered) and the history as
    [onOpen] leaves it; nothing sent to the host yet. *)
Definition initialState : State :=
  mkState DEFAULT_SETTINGS [systemPrompt] [] [] [] None [].

(** ** State-and-exception monad *)

Definition M (A : Type) : Type := State -> Result A * State.

Definition ret {A : Type} (a : A) : M A := fun st => (Ok a, st).

Definition throw {A : Type} (e : string) : M A := fun st => (Throw e, st).

Definition bind {A B : Type} (m : M A) (k : A -> M B) : M B :=
  fun st =>
    match m st with
    | (Ok a, st') => k a st'
    | (Throw e, st') => (Throw e, st')
    end.

(** [try { body } catch (error) { handler }] *)
Definition try_catch {A : Type} (body : M A) (handler : string -> M A) : M A :=
  fun st =>
    match body st with
    | (Ok a, st') => (Ok a, st')
    | (Throw e, st') => handler e st'
    end.

(** Awaiting a promise of the host or of a provider: it resolves or
    rejects, and leaves the plugin's own state alone. *)
Definition await {A : Type} (r : Result A) : M A := fun st => (r, st).

Definition get : M State := fun st => (Ok st, st).

Definition modify (f : State -> State) : M unit := fun st => (Ok tt, f st).

Declare Scope monad_scope.
Delimit Scope monad_scope with monad.
Notation "x <- m ;; k" := (bind m (fun x => k))
  (at level 100, m at next level, right associativity) : monad_scope.
Notation "m ;; k" := (bind m (fun _ => k))
  (at level 100, right associativity) : monad_scope.
Local Open Scope monad_scope.

(** The state a computation leaves and the value it returns. *)
Definition exec {A : Type} (m : M A) (st : State) : State := snd (m st).
Definition eval {A : Type} (m : M A) (st : State) : Result A := fst (m st).

(** ** The environment: host application and provider transport *)

Record Env : Type := mkEnv {
  (** The engine the plugin runs on. *)
  engine : Engine;
  (** [app.workspace.getActiveFile()] *)
  getActiveFile : option TFile.t;
  (** [app.vault.getMarkdownFiles()] *)
  getMarkdownFiles : list TFile.t;
  (** [app.vault.read(file)] *)
  vault_read : TFile.t -> Result string;
  (** [app.vault.modify(file, data)] *)
  vault_modify : TFile.t -> string -> Result unit;
  (** [saveData(settings)] *)
  saveData : AIPoweredSecondBrainSettings -> Result unit;
  (** POST /v1/chat/completions with the key, the system prompt and the user
      text, then [data.choices[0].message.content.trim()]; a rejected fetch
      or a body without these fields throws. *)
  openai_chat : string -> string -> string -> Result string;
  (** POST /api/generate at the endpoint with the model and the prompt, the
      [response.ok] test, then [data.response.trim()]. *)
  ollama_generate : string -> string -> string -> Result string;
  (** POST /v1/embeddings with the key and the text, then
      [data.data[0].embedding]: a rejected fetch or a body without
      [data[0]], as an error reply is, throws. *)
  openai_embeddings : string -> string -> Result (option (list number));
  (** POST /api/embeddings at the endpoint with the model and the text,
      then [data.embedding], with no test of [response.ok]: [None] is the
      [undefined] that an error reply, a body [{"error": ...}], gives. *)
  ollama_embeddings : string -> string -> string -> Result (option (list number))
}.

(** ** Methods of the plugin and of the chat view *)

(** The newline of the template strings. *)
Definition nl : string := String (ascii_of_nat 10) EmptyString.

(** The prefix that marks the transient note-content message. *)
Definition noteContentMarker : string := "Current note content:".

(** The callback of the history filter in [handleUserInput]:
    [msg.role !== "system" || !msg.content.startsWith("Current note content:")] *)
Definition keepsMessage (msg : ChatMessage.t) : bool :=
  negb (Role_eqb (ChatMessage.role msg) system)
  || negb (String.prefix noteContentMarker (ChatMessage.content msg)).

(** The synchronous block of [updateNoteEmbedding] between the awaited
    embedding and the awaited save: [findIndex] by path, then overwrite
    that slot or [push]. *)
Definition upsertEmbedding (embeddings : list NoteEmbedding.t)
    (entry : NoteEmbedding.t) : list NoteEmbedding.t :=
  let existingIndex :=
    fst <$> list_find
              (fun e => NoteEmbedding.path e = NoteEmbedding.path entry)
              embeddings in
  match existingIndex with
  | Some i => <[i := entry]> embeddings
  | None => embeddings ++ [entry]
  end.

(** [embeddings.find(e => e.path === p)] *)
Definition findEmbedding (embeddings : list NoteEmbedding.t) (p : string)
    : option NoteEmbedding.t :=
  snd <$> list_find (fun e => NoteEmbedding.path e = p) embeddings.

Section Plugin.
Variable env : Env.

Definition Notice (message : string) : M unit :=
  modify (set_notices (fun l => l ++ [message])).

Definition console_error (message : string) : M unit :=
  modify (set_consoleErrors (fun l => l ++ [message])).

Definition saveSettings : M unit :=
  st <- get ;;
  await (saveData env (settings st)) ;;
  modify (set_savedData (Some (settings st))).

Definition callOpenAI (inputText prompt : string) : M string :=
  st <- get ;;
  let apiKey := openaiApiKey (settings st) in
  if String.eqb apiKey "" then
    Notice "❌ Error: OpenAI API key is missing! Enter it in settings." ;;
    ret "Error: API key not found."
  else
    await (openai_chat env apiKey prompt inputText).

Definition callOllama (inputText prompt : string) : M string :=
  try_catch
    (st <- get ;;
     await (ollama_generate env (ollamaEndpoint (settings st))
              (ollamaModel (settings st))
              (prompt ++ nl ++ nl ++ "Content:" ++ nl ++ inputText)%string))
    (fun error =>
       console_error ("Error calling Ollama: " ++ error)%string ;;
       Notice "❌ Error calling Ollama. Is it running? Check console for details." ;;
       throw error).

Definition callAI (inputText prompt : string) : M string :=
  st <- get ;;
  if String.eqb (aiProvider (settings st)) "ollama" then
    callOllama inputText prompt
  else if String.eqb (aiProvider (settings st)) "openai" then
    callOpenAI inputText prompt
  else throw "Invalid AI provider".

Definition callAIWithHistory (messages : list ChatMessage.t) : M string :=
  st <- get ;;
  let joined := String.concat (nl ++ nl)%string (map ChatMessage.content messages) in
  if String.eqb (aiProvider (settings st)) "ollama" then
    callOllama joined "Continue the conversation naturally."
  else if String.eqb (aiProvider (settings st)) "openai" then
    callOpenAI joined "Continue the conversation naturally."
  else throw "Invalid AI provider".

Definition getOpenAIEmbedding (text : string) : M (option (list number)) :=
  st <- get ;;
  await (openai_embeddings env (openaiApiKey (settings st)) text).

Definition getOllamaEmbedding (text : string) : M (option (list number)) :=
  st <- get ;;
  await (ollama_embeddings env (ollamaEndpoint (settings st))
           (ollamaModel (settings st)) text).

Definition getEmbedding (text : string) : M (option (list number)) :=
  st <- get ;;
  if String.eqb (aiProvider (settings st)) "ollama" then
    getOllamaEmbedding text
  else if String.eqb (aiProvider (settings st)) "openai" then
    getOpenAIEmbedding text
  else throw "Invalid AI provider".

Definition updateNoteEmbedding (file : TFile.t) : M unit :=
  content <- await (vault_read env file) ;;
  embedding <- getEmbedding content ;;
  modify (set_settings (fun s =>
    set_embeddings
      (upsertEmbedding (EmbeddingCache.embeddings (embeddingCache s))
         (NoteEmbedding.mk (TFile.path file) embedding (TFile.mtime file)))
      s)) ;;
  saveSettings.

(** The body of the [for] loop of [updateAllEmbeddings]: the inner
    [try]/[catch] around one note. *)
Definition updateOrLog (file : TFile.t) : M unit :=
  try_catch
    (updateNoteEmbedding file)
    (fun error =>
       console_error ("Error processing " ++ TFile.path file ++ ": " ++ error)%string).

(** The loop itself, over the files still to visit. *)
Fixpoint updateEach (files : list TFile.t) : M unit :=
  match files with
  | [] => ret tt
  | file :: rest => updateOrLog file ;; updateEach rest
  end.

(** [notices] keeps the notice as constructed: [setMessage] and [hide]
    act on the indicator on screen. *)
Definition updateAllEmbeddings : M unit :=
  let files := getMarkdownFiles env in
  Notice "Computing note embeddings..." ;;
  try_catch
    (updateEach files)
    (fun error => console_error ("Error in updateAllEmbeddings: " ++ error)%string).

(** The first statements of the "Rebuild Cache" button:
    [embeddings = []; await saveSettings()]. *)
Definition clearEmbeddings : M unit :=
  modify (set_settings (set_embeddings [])) ;;
  saveSettings.

(** [onClick] of the "Rebuild Cache" button of the settings tab. *)
Definition rebuildCache : M unit :=
  Notice "Starting to rebuild embeddings cache..." ;;
  clearEmbeddings ;;
  updateAllEmbeddings ;;
  Notice "✅ Embeddings cache rebuilt!".

Definition summarizeNote : M unit :=
  match getActiveFile env with
  | None => Notice "❌ No active note found! Please open a note first."
  | Some activeFile =>
      try_catch
        (Notice "🤔 Generating summary..." ;;
         content <- await (vault_read env activeFile) ;;
         summary <- callAI content "Summarize this note in 3 bullet points" ;;
         let updatedContent :=
           (content ++ nl ++ nl ++ "---" ++ nl ++ "**AI Summary:**" ++ nl ++ summary)%string in
         await (vault_modify env activeFile updatedContent) ;;
         modify (set_vaultWrites (fun l => l ++ [(TFile.path activeFile, updatedContent)])) ;;
         Notice "✅ Summary added to the note!")
        (fun error =>
           console_error ("Error summarizing note: " ++ error)%string ;;
           Notice "❌ Error generating summary. Check console for details.")
  end.

(** Chat view. *)

Definition addChatMessage (role : Role) (content : string) : M unit :=
  modify (set_chatMessages (fun l => l ++ [(role, content)])).

Definition pushHistory (msg : ChatMessage.t) : M unit :=
  modify (set_chatHistory (fun l => l ++ [msg])).

Definition handleUserInput (input : string) : M unit :=
  addChatMessage user input ;;
  pushHistory (ChatMessage.mk user input) ;;
  try_catch
    (match getActiveFile env with
     | None => addChatMessage assistant "Please open a note first!"
     | Some activeFile =>
         content <- await (vault_read env activeFile) ;;
         pushHistory (ChatMessage.mk system (noteContentMarker ++ nl ++ content)%string) ;;
         st <- get ;;
         response <- callAIWithHistory (chatHistory st) ;;
         pushHistory (ChatMessage.mk assistant response) ;;
         addChatMessage assistant response ;;
         modify (set_chatHistory (List.filter keepsMessage))
     end)
    (fun error =>
       console_error error ;;
       addChatMessage assistant "Sorry, there was an error processing your request.").

Definition clearHistory : M unit :=
  modify (set_chatHistory (fun _ => [systemPrompt])) ;;
  modify (set_chatMessages (fun _ => [])) ;;
  Notice "Chat history has been cleared".

(** [findRelatedNotes] up to its [similarities] constant; what follows in
    the source only renders that list.  [None] stands for the runs that
    end before the ranking: no active note, or an error caught. *)
Definition findRelatedNotes : M (option (list Scored.t)) :=
  match getActiveFile env with
  | None =>
      addChatMessage assistant "Please open a note first!" ;;
      ret None
  | Some activeFile =>
      addChatMessage user "Finding related notes..." ;;
      try_catch
        (updateNoteEmbedding activeFile ;;
         st <- get ;;
         match findEmbedding (cache st) (TFile.path activeFile)
                 ≫= NoteEmbedding.embedding with
         | None => throw "Failed to generate embedding for current note"
         | Some currentEmbedding =>
             match similarities (engine env) (cache st) (TFile.path activeFile)
                     currentEmbedding with
             | Ok similarities => ret (Some similarities)
             | Throw error => throw error
             end
         end)
        (fun error =>
           console_error ("Error finding related notes: " ++ error)%string ;;
           addChatMessage assistant "Error finding related notes. Check console for details." ;;
           ret None)
  end.
End Plugin.

(** ** Cache operations as the host triggers them *)

Inductive CacheOp : Type :=
  | OpUpdate (file : TFile.t)   (** the [modify] hook: [updateNoteEmbedding] *)
  | OpClear                     (** [embeddings = []] and save *)
  | OpUpdateAll                 (** [updateAllEmbeddings] *)
  | OpRebuild.                  (** the "Rebuild Cache" button *)

Definition run_op (env : Env) (op : CacheOp) : M unit :=
  match op with
  | OpUpdate file => updateNoteEmbedding env file
  | OpClear => clearEmbeddings env
  | OpUpdateAll => updateAllEmbeddings env
  | OpRebuild => rebuildCache env
  end.

(** A run: each operation meets the environment of its own moment; an
    operation that throws leaves the state it reached. *)
Definition run_ops (ops : list (Env * CacheOp)) (st : State) : State :=
  foldl (fun s '(env, op) => exec (run_op env op) s) st ops.

(** An atomic change of the cache array: every write to it in the source
    is one of these two, with no [await] inside. *)
Inductive cache_step : list NoteEmbedding.t -> list NoteEmbedding.t -> Prop :=
  | step_upsert embeddings entry :
      cache_step embeddings (upsertEmbedding embeddings entry)
  | step_clear embeddings :
      cache_step embeddings [].

(** ** Vocabulary of the statements *)

(** [‖v‖] as [cosineSimilarity] computes it. *)
Definition magnitude (v : list number) : number :=
  sqrt (reduce (fun sum val _ => sum + val * val)%js zero v).

Definition dotProduct (a b : list number) : number :=
  reduce (fun sum val i => sum + val * index b i)%js zero a.

(** [x] may stay before [y]: the comparator does not ask for the swap. *)
Definition keepsOrder {A : Type} (comparefn : A -> A -> number) (x y : A) : Prop :=
  gt0 (comparefn x y) = false.

(** A binary64 value other than [NaN]. *)
Definition ordinary (v : number) : bool := is_binary64 v && negb (is_nan v).

(** [x] before [y] in a descending ranking: [y.similarity <= x.similarity]. *)
Definition descending (x y : Scored.t) : Prop :=
  leb (Scored.similarity y) (Scored.similarity x) = true.




Definition allZero (v : list number) : Prop := Forall (fun x => is_zero x = true) v.

Definition zero_or_nan (v : number) : bool := is_zero v || is_nan v.

(** What the two awaits that precede the cache write of
    [updateNoteEmbedding] yield in a state: the note is read and its text
    sent to the configured provider. *)
Definition embedOutcome (env : Env) (st : State) (file : TFile.t)
    : Result (option (list number)) :=
  eval (content <- await (vault_read env file) ;; getEmbedding env content) st.

(** The entry [updateNoteEmbedding] builds for a file and its embedding. *)
Definition entryOf (file : TFile.t) (embedding : option (list number))
    : NoteEmbedding.t :=
  NoteEmbedding.mk (TFile.path file) embedding (TFile.mtime file).

(** One note of an indexing pass, seen from the cache: written when the
    embedding call returned, skipped when the read or the call threw. *)
Definition indexStep (env : Env) (st : State) (embeddings : list NoteEmbedding.t)
    (file : TFile.t) : list NoteEmbedding.t :=
  match embedOutcome env st file with
  | Ok v => upsertEmbedding embeddings (entryOf file v)
  | Throw _ => embeddings
  end.

(** The provider configuration, that is the settings apart from the cache. *)
Definition config (s : AIPoweredSecondBrainSettings)
    : string * bool * string * string * string * string :=
  (openaiApiKey s, useOllama s, ollamaEndpoint s, ollamaModel s,
   EmbeddingCache.version (embeddingCache s), aiProvider s).

(** The paths of a cache, in the order of its entries. *)
Definition paths (embeddings : list NoteEmbedding.t) : list string :=
  map NoteEmbedding.path embeddings.

(** The callback [e => e.path !== p]. *)
Definition otherThan (p : string) (e : NoteEmbedding.t) : bool :=
  negb (String.eqb (NoteEmbedding.path e) p).

(** What the plugin says when the cloud key is missing. *)
Definition missingKeyNotice : string :=
  "❌ Error: OpenAI API key is missing! Enter it in settings.".

Definition missingKeyReply : string := "Error: API key not found.".

(** A system message carrying the note-content marker. *)
Definition carriesNoteContent (msg : ChatMessage.t) : Prop :=
  ChatMessage.role msg = system
  /\ String.prefix noteContentMarker (ChatMessage.content msg) = true.

(** ** Sample caches *)

(** The scenario of the specification (notes A, B, C and the query
    [[1, 0]]), with the querying note Q in the cache as the flow has it
    and C indexed before A. *)
Definition scenarioCache : list NoteEmbedding.t :=
  [ NoteEmbedding.mk "Q.md" (Some [of_Z 1; of_Z 0]) (of_Z 10);
    NoteEmbedding.mk "C.md" (Some [of_Z 1; of_Z 0]) (of_Z 11);
    NoteEmbedding.mk "A.md" (Some [of_Z 1; of_Z 0]) (of_Z 12);
    NoteEmbedding.mk "B.md" (Some [of_Z 0; of_Z 1]) (of_Z 13) ].

(** A cache of seven notes beside the querying note Q. *)
Definition wideCache : list NoteEmbedding.t :=
  [ NoteEmbedding.mk "Q.md" (Some [of_Z 1; of_Z 0]) (of_Z 10);
    NoteEmbedding.mk "A.md" (Some [of_Z 1; of_Z 0]) (of_Z 11);
    NoteEmbedding.mk "B.md" (Some [of_Z 1; of_Z 1]) (of_Z 12);
    NoteEmbedding.mk "C.md" (Some [of_Z 0; of_Z 1]) (of_Z 13);
    NoteEmbedding.mk "D.md" (Some [of_Z 2; of_Z 1]) (of_Z 14);
    NoteEmbedding.mk "E.md" (Some [of_Z 1; of_Z 2]) (of_Z 15);
    NoteEmbedding.mk "F.md" (Some [of_Z 3; of_Z 1]) (of_Z 16);
    NoteEmbedding.mk "G.md" (Some [of_Z 1; of_Z 3]) (of_Z 17) ].

(** A cache with a note whose embedding is the zero vector. *)
Definition zeroVectorCache : list NoteEmbedding.t :=
  [ NoteEmbedding.mk "Q.md" (Some [of_Z 1; of_Z 0]) (of_Z 10);
    NoteEmbedding.mk "Z.md" (Some [of_Z 0; of_Z 0]) (of_Z 11) ].

(** ** Sample environments *)

(** An engine whose sort leaves an array it cannot order as it is. *)
Definition inPlace : Engine :=
  {| arrange := fun scored => scored ↾ Permutation_refl scored |}.

Definition noteA : TFile.t := TFile.mk "A.md" (of_Z 100).
Definition noteB : TFile.t := TFile.mk "B.md" (of_Z 200).
Definition noteC : TFile.t := TFile.mk "C.md" (of_Z 300).

(** A vault of three notes behind a local provider that embeds every text
    it is sent — except that note B cannot be read. *)
Definition vaultEnv : Env :=
  {| engine := inPlace;
     getActiveFile := Some noteA;
     getMarkdownFiles := [noteA; noteB; noteC];
     vault_read := fun file =>
       if String.eqb (TFile.path file) "B.md" then Throw "ENOENT"
       else Ok ("Text of " ++ TFile.path file)%string;
     vault_modify := fun _ _ => Ok tt;
     saveData := fun _ => Ok tt;
     openai_chat := fun _ _ _ => Throw "Failed to fetch";
     ollama_generate := fun _ _ _ => Ok "A reply.";
     openai_embeddings := fun _ _ => Throw "Failed to fetch";
     ollama_embeddings := fun _ _ text =>
       Ok (Some [of_Z (Z.of_nat (String.length text)); of_Z 1]) |}.

(** The same vault, readable throughout, behind a local provider that
    answers the text of note B with an error reply. *)
Definition errorReplyEnv : Env :=
  {| engine := inPlace;
     getActiveFile := Some noteA;
     getMarkdownFiles := [noteA; noteB; noteC];
     vault_read := fun file => Ok ("Text of " ++ TFile.path file)%string;
     vault_modify := fun _ _ => Ok tt;
     saveData := fun _ => Ok tt;
     openai_chat := fun _ _ _ => Throw "Failed to fetch";
     ollama_generate := fun _ _ _ => Ok "A reply.";
     openai_embeddings := fun _ _ => Throw "Failed to fetch";
     ollama_embeddings := fun _ _ text =>
       if String.eqb text "Text of B.md" then Ok None
       else Ok (Some [of_Z (Z.of_nat (String.length text)); of_Z 1]) |}.

(** The same vault, with note A now holding three spaces. *)
Definition blankNoteEnv : Env :=
  {| engine := inPlace;
     getActiveFile := Some noteA;
     getMarkdownFiles := [noteA];
     vault_read := fun _ => Ok "   ";
     vault_modify := fun _ _ => Ok tt;
     saveData := fun _ => Ok tt;
     openai_chat := fun _ _ _ => Throw "Failed to fetch";
     ollama_generate := fun _ _ _ => Ok "A reply.";
     openai_embeddings := fun _ _ => Throw "Failed to fetch";
     ollama_embeddings := fun _ _ text =>
       Ok (Some [of_Z (Z.of_nat (String.length text)); of_Z 1]) |}.

(** A cloud provider that cannot be reached. *)
Definition offlineEnv : Env :=
  {| engine := inPlace;
     getActiveFile := Some noteA;
     getMarkdownFiles := [noteA];
     vault_read := fun _ => Ok "Meeting notes";
     vault_modify := fun _ _ => Ok tt;
     saveData := fun _ => Ok tt;
     openai_chat := fun _ _ _ => Throw "Failed to fetch";
     ollama_generate := fun _ _ _ => Throw "Failed to fetch";
     openai_embeddings := fun _ _ => Throw "Failed to fetch";
     ollama_embeddings := fun _ _ _ => Throw "Failed to fetch" |}.

(** The state after start-up with the local provider selected. *)
Definition ollamaState : State :=
  set_settings (fun s => mkSettings (openaiApiKey s) true (ollamaEndpoint s)
                           (ollamaModel s) (embeddingCache s) "ollama")
               initialState.

(** The state after start-up with a cloud key entered. *)
Definition openaiState : State :=
  set_settings (fun s => mkSettings "sk-test" (useOllama s) (ollamaEndpoint s)
                           (ollamaModel s) (embeddingCache s) (aiProvider s))
               initialState.

(** ** The rest of the plugin: start-up, settings tab, menus, chat actions *)

(** [String.prototype.trim].  Strings are held as UTF-8 bytes; the white
    space and line terminators of the language are U+0009 to U+000D,
    U+0020, U+00A0, U+1680, U+2000 to U+200A, U+2028, U+2029, U+202F,
    U+205F, U+3000 and U+FEFF. *)
Definition whiteSpaceAt (s : string) : nat :=
  match s with
  | String a rest =>
      let a := N_of_ascii a in
      if ((9 <=? a) && (a <=? 13) || (a =? 32))%N then 1
      else
        match rest with
        | String b (String c _) =>
            let b := N_of_ascii b in
            let c := N_of_ascii c in
            if ((a =? 194) && (b =? 160))%N then 2
            else if ((a =? 225) && (b =? 154) && (c =? 128))%N then 3
            else if ((a =? 226) && (b =? 128)
                     && ((128 <=? c) && (c <=? 138) || (c =? 168) || (c =? 169)
                         || (c =? 175)))%N then 3
            else if ((a =? 226) && (b =? 129) && (c =? 159))%N then 3
            else if ((a =? 227) && (b =? 128) && (c =? 128))%N then 3
            else if ((a =? 239) && (b =? 187) && (c =? 191))%N then 3
            else 0
        | String b EmptyString =>
            if ((a =? 194) && (N_of_ascii b =? 160))%N then 2 else 0
        | EmptyString => 0
        end
  | EmptyString => 0
  end.

(** [pending] counts the bytes still to drop of a white space under way. *)
Fixpoint trimStart_from (pending : nat) (s : string) : string :=
  match s with
  | EmptyString => EmptyString
  | String _ rest =>
      match pending with
      | S k => trimStart_from k rest
      | O =>
          match whiteSpaceAt s with
          | O => s
          | S k => trimStart_from k rest
          end
      end
  end.

Definition trimStart (s : string) : string := trimStart_from 0 s.

Fixpoint trimEnd (s : string) : string :=
  match s with
  | EmptyString => EmptyString
  | String a rest =>
      if String.eqb (trimStart s) "" then EmptyString else String a (trimEnd rest)
  end.

Definition trim (s : string) : string := trimEnd (trimStart s).

(** [Math.round]: the nearest integer, a tie going up; [-0] for what
    rounds to zero from below. *)
Definition Math_round (x : number) : number :=
  match x with
  | S754_finite s m e =>
      let q :=
        match e with
        | Z.neg p =>
            let d := Z.pow_pos 2 p in
            ((2 * (if s then Z.neg m else Z.pos m) + d) / (2 * d))%Z
        | _ => ((if s then Z.neg m else Z.pos m) * 2 ^ e)%Z
        end in
      if (q =? 0)%Z then S754_zero s else of_Z q
  | _ => x
  end.

(** What [getAbstractFileByPath] and the [modify] event hand over: a
    [TFile] (with its extension) or a folder. *)
Module TAbstractFile.
Inductive t : Type :=
  | File (file : TFile.t) (extension : string)
  | Folder (path : string).
End TAbstractFile.

(** The object [loadData()] resolves to: any of the settings' keys. *)
Module StoredData.
Record t : Type := mk {
  openaiApiKey : option string;
  useOllama : option bool;
  ollamaEndpoint : option string;
  ollamaModel : option string;
  embeddingCache : option EmbeddingCache.t;
  aiProvider : option string
}.
End StoredData.

(** [Object.assign({}, target, source)] on settings: the keys of the
    source win, [null] is skipped. *)
Definition Object_assign (target : AIPoweredSecondBrainSettings)
    (source : option StoredData.t) : AIPoweredSecondBrainSettings :=
  match source with
  | None => target
  | Some data =>
      {| openaiApiKey := default (openaiApiKey target) (StoredData.openaiApiKey data);
         useOllama := default (useOllama target) (StoredData.useOllama data);
         ollamaEndpoint := default (ollamaEndpoint target) (StoredData.ollamaEndpoint data);
         ollamaModel := default (ollamaModel target) (StoredData.ollamaModel data);
         embeddingCache := default (embeddingCache target) (StoredData.embeddingCache data);
         aiProvider := default (aiProvider target) (StoredData.aiProvider data) |}
  end.

(** The host beyond [Env]: stored data, path lookup, the confirm dialog. *)
Record Host : Type := mkHost {
  host_env :> Env;
  (** [loadData()] *)
  loadData : Result (option StoredData.t);
  (** [app.vault.getAbstractFileByPath(path)] *)
  getAbstractFileByPath : string -> option TAbstractFile.t;
  (** [confirm(message)] *)
  confirm : string -> bool
}.

(** What [onload] hands to the host. *)
Inductive Registration : Type :=
  | SettingTab
  | RibbonIcon (icon title : string)
  | Command (id name : string)
  | View (viewType : string)
  | EditorMenuEvent
  | ModifyEvent.

(** The items of the editor menu. *)
Inductive MenuItem : Type := ReplaceWithSummary | AppendSummary.

Definition set_aiProvider (value : string) (s : AIPoweredSecondBrainSettings)
    : AIPoweredSecondBrainSettings :=
  mkSettings (openaiApiKey s) (useOllama s) (ollamaEndpoint s) (ollamaModel s)
             (embeddingCache s) value.

Definition set_ollamaEndpoint (value : string) (s : AIPoweredSecondBrainSettings)
    : AIPoweredSecondBrainSettings :=
  mkSettings (openaiApiKey s) (useOllama s) value (ollamaModel s)
             (embeddingCache s) (aiProvider s).

Definition set_ollamaModel (value : string) (s : AIPoweredSecondBrainSettings)
    : AIPoweredSecondBrainSettings :=
  mkSettings (openaiApiKey s) (useOllama s) (ollamaEndpoint s) value
             (embeddingCache s) (aiProvider s).

Definition set_openaiApiKey (value : string) (s : AIPoweredSecondBrainSettings)
    : AIPoweredSecondBrainSettings :=
  mkSettings value (useOllama s) (ollamaEndpoint s) (ollamaModel s)
             (embeddingCache s) (aiProvider s).

Definition summaryPrompt : string :=
  "Summarize this text concisely in 1-2 sentences, preserving key information.".

Definition analysisPrompt : string :=
  "Analyze this note and provide insights about:" ++ nl ++
  "1. Main themes and concepts" ++ nl ++
  "2. Key arguments or points" ++ nl ++
  "3. Potential areas for expansion" ++ nl ++
  "4. Questions to consider".

Definition apology : string := "Sorry, there was an error processing your request.".

Section Handlers.
Variable host : Host.

(** The [onChange] callbacks of the settings tab, by the setting they
    belong to. *)
Definition onChange_aiProvider (value : string) : M unit :=
  modify (set_settings (set_aiProvider value)) ;;
  saveSettings host.

Definition onChange_ollamaEndpoint (value : string) : M unit :=
  modify (set_settings (set_ollamaEndpoint value)) ;;
  saveSettings host.

Definition onChange_ollamaModel (value : string) : M unit :=
  modify (set_settings (set_ollamaModel value)) ;;
  saveSettings host.

Definition onChange_openaiApiKey (value : string) : M unit :=
  modify (set_settings (set_openaiApiKey value)) ;;
  saveSettings host.

(** [DEFAULT_SETTINGS] is the constant as the module defines it:
    [loadSettings] is called by [onload] alone, before anything has written
    through the cache object that the defaults share with the settings. *)
Definition loadSettings : M unit :=
  data <- await (loadData host) ;;
  modify (set_settings (fun _ => Object_assign DEFAULT_SETTINGS data)).

(** [onload]; the value is what it has registered with the host, in the
    order of the calls. *)
Definition onload : M (list Registration) :=
  loadSettings ;;
  st <- get ;;
  if negb (useOllama (settings st)) && String.eqb (openaiApiKey (settings st)) "" then
    Notice "⚠️ Please configure AI provider in settings." ;;
    ret [SettingTab]
  else
    updateAllEmbeddings host ;;
    ret [ SettingTab;
          RibbonIcon "message-square" "AI Chat";
          RibbonIcon "brain" "AI Summarize";
          Command "ai-summarize-note" "Summarize Current Note";
          Command "open-ai-chat" "Open AI Chat";
          View "ai-chat-view";
          EditorMenuEvent;
          ModifyEvent ].

(** The [editor-menu] callback: which items it adds for a selection. *)
Definition editorMenu (selection : string) : list MenuItem :=
  if String.eqb selection "" then [] else [ReplaceWithSummary; AppendSummary].

(** [onClick] of "Replace with Summary" and of "Append Summary"; the
    value is the text handed to [editor.replaceSelection], [None] when the
    editor is not called. *)
Definition replaceWithSummary (selection : string) : M (option string) :=
  Notice "🤔 Summarizing..." ;;
  try_catch
    (summary <- callAI host selection summaryPrompt ;;
     Notice "✅ Summary added!" ;;
     ret (Some summary))
    (fun error =>
       Notice "❌ Error generating summary" ;;
       console_error error ;;
       ret None).

Definition appendSummary (selection : string) : M (option string) :=
  Notice "🤔 Summarizing..." ;;
  try_catch
    (summary <- callAI host selection summaryPrompt ;;
     Notice "✅ Summary added!" ;;
     ret (Some (selection ++ nl ++ nl ++ "> [!summary]- AI Summary" ++ nl
                ++ "> " ++ summary ++ nl ++ nl)%string))
    (fun error =>
       Notice "❌ Error generating summary" ;;
       console_error error ;;
       ret None).

Definition onClick (item : MenuItem) (selection : string) : M (option string) :=
  match item with
  | ReplaceWithSummary => replaceWithSummary selection
  | AppendSummary => appendSummary selection
  end.

(** The handler of the vault's [modify] event. *)
Definition onModify (file : TAbstractFile.t) : M unit :=
  match file with
  | TAbstractFile.File file extension =>
      if String.eqb extension "md" then updateNoteEmbedding host file else ret tt
  | TAbstractFile.Folder _ => ret tt
  end.

(** Chat view: the quick actions. *)

Definition summarizeCurrentNote : M unit :=
  match getActiveFile host with
  | None => addChatMessage assistant "Please open a note first!"
  | Some activeFile =>
      addChatMessage user "Summarize this note" ;;
      try_catch
        (content <- await (vault_read host activeFile) ;;
         summary <- callAI host content "Summarize this note in 3-5 bullet points" ;;
         addChatMessage assistant summary)
        (fun error =>
           console_error ("Error: " ++ error)%string ;;
           addChatMessage assistant apology)
  end.

Definition analyzeCurrentNote : M unit :=
  match getActiveFile host with
  | None => addChatMessage assistant "Please open a note first!"
  | Some activeFile =>
      addChatMessage user "Analyze this note" ;;
      try_catch
        (content <- await (vault_read host activeFile) ;;
         analysis <- callAI host content analysisPrompt ;;
         addChatMessage assistant analysis)
        (fun error =>
           console_error ("Error: " ++ error)%string ;;
           addChatMessage assistant apology)
  end.

(** The callback of the "Clear History" button. *)
Definition onClickClearHistory : M unit :=
  if confirm host "Are you sure you want to clear the chat history?" then
    clearHistory ;;
    Notice "Chat history cleared!"
  else ret tt.

(** The [keydown] listener of the chat input; [value] is the content of
    the text area, the result its content as the listener leaves it. *)
Definition onKeydown (key : string) (shiftKey : bool) (value : string) : M string :=
  if String.eqb key "Enter" && negb shiftKey then
    let input := trim value in
    if String.eqb input "" then ret value
    else
      handleUserInput host input ;;
      ret ""
  else ret value.
End Handlers.

(** [AIChatView.findRelatedNotes] in full: the ranking, then one
    explanation per match.  [numberText] is the text a template string
    gives a number. *)
Module AIChatView.
Section Render.
Variable numberText : number -> string.
Variable host : Host.
Variable activeFile : TFile.t.

(** The [for] loop over the matches, [response] being built up. *)
Fixpoint explain (similarities : list Scored.t) (response : string) : M string :=
  match similarities with
  | [] => ret response
  | Scored.mk path similarity :: rest =>
      match getAbstractFileByPath host path with
      | Some (TAbstractFile.File file _) =>
          content <- await (vault_read host file) ;;
          current <- await (vault_read host activeFile) ;;
          explanation <- callAI host
            ("Note 1:" ++ nl ++ current ++ nl ++ nl ++ "Note 2:" ++ nl ++ content)%string
            "Explain in one sentence why these notes are related:" ;;
          let percentage := Math_round (similarity * of_Z 100)%js in
          explain rest
            (response ++ "### [[" ++ path ++ "]] (" ++ numberText percentage
               ++ "% related)" ++ nl ++ "> " ++ explanation ++ nl ++ nl)%string
      | _ => explain rest response
      end
  end.
End Render.

Definition findRelatedNotes (numberText : number -> string) (host : Host) : M unit :=
  match getActiveFile host with
  | None => addChatMessage assistant "Please open a note first!"
  | Some activeFile =>
      addChatMessage user "Finding related notes..." ;;
      try_catch
        (updateNoteEmbedding host activeFile ;;
         st <- get ;;
         match findEmbedding (cache st) (TFile.path activeFile)
                 ≫= NoteEmbedding.embedding with
         | None => throw "Failed to generate embedding for current note"
         | Some currentEmbedding =>
             match similarities (engine host) (cache st) (TFile.path activeFile)
                     currentEmbedding with
             | Throw error => throw error
             | Ok similarities =>
                 if Nat.eqb (length similarities) 0 then
                   addChatMessage assistant
                     "No related notes found. Try updating the embeddings cache in settings."
                 else
                   response <- explain numberText host activeFile similarities
                                 ("**Related Notes Found:**" ++ nl ++ nl)%string ;;
                   addChatMessage assistant response
             end
         end)
        (fun error =>
           console_error ("Error finding related notes: " ++ error)%string ;;
           addChatMessage assistant
             "Error finding related notes. Check console for details.")
  end.
End AIChatView.

(** What a user does in the settings tab. *)
Inductive TabAction : Type :=
  | ChooseProvider (value : string)
  | TypeEndpoint (value : string)
  | TypeModel (value : string)
  | TypeKey (value : string)
  | ClickRebuild.

Definition run_tab (host : Host) (action : TabAction) : M unit :=
  match action with
  | ChooseProvider value => onChange_aiProvider host value
  | TypeEndpoint value => onChange_ollamaEndpoint host value
  | TypeModel value => onChange_ollamaModel host value
  | TypeKey value => onChange_openaiApiKey host value
  | ClickRebuild => rebuildCache host
  end.

Definition run_tabs (actions : list (Host * TabAction)) (st : State) : State :=
  foldl (fun s '(host, action) => exec (run_tab host action) s) st actions.

(** ** The tag suggestions of the revision with cost tracking *)

(** [s.split(sep)] for a separator of one character. *)
Fixpoint String_split (sep : ascii) (s : string) : list string :=
  match s with
  | EmptyString => [EmptyString]
  | String c rest =>
      if Ascii.eqb c sep then EmptyString :: String_split sep rest
      else
        match String_split sep rest with
        | piece :: pieces => String c piece :: pieces
        | [] => [String c EmptyString]
        end
  end.

(** A [Set] of strings: its elements in insertion order. *)
Module StringSet.
Definition t : Type := list string.

Definition has (tag : string) (set : t) : bool := bool_decide (tag ∈ set).

Definition add (tag : string) (set : t) : t :=
  if has tag set then set else set ++ [tag].

Definition delete (tag : string) (set : t) : t :=
  List.filter (fun x => negb (String.eqb x tag)) set.

(** [new Set(iterable)] *)
Definition new (tags : list string) : t := foldl (fun set tag => add tag set) [] tags.
End StringSet.

Module TagSelectionModal.
Record t : Type := mk {
  suggestedTags : list string;
  selectedTags : StringSet.t
}.

(** The constructor. *)
Definition new (suggestedTags : list string) : t :=
  mk suggestedTags (StringSet.new suggestedTags).

(** The click listener of the element of [tag]. *)
Definition click (tag : string) (modal : t) : t :=
  if StringSet.has tag (selectedTags modal) then
    mk (suggestedTags modal) (StringSet.delete tag (selectedTags modal))
  else
    mk (suggestedTags modal) (StringSet.add tag (selectedTags modal)).

(** What the submit button passes to [onSubmit]:
    [Array.from(this.selectedTags)]. *)
Definition submit (modal : t) : list string := selectedTags modal.
End TagSelectionModal.

Definition tagPrompt : string :=
  "Analyze this text and suggest relevant tags. Consider topics, themes, type of content (e.g., task, idea, book summary), and key concepts. Format your response as a comma-separated list of tags without the # symbol. Example: philosophy, task, idea".

Section Tags.
(** The [callAI] of that revision, which also counts tokens and cost. *)
Variable callAI' : string -> string -> M string.

Definition suggestTags (content : string) : M (list string) :=
  response <- callAI' content tagPrompt ;;
  ret (map trim (String_split "," response)).
End Tags.

(** The [onSubmit] callback that [insertTags] gives the dialog for the
    selected [text]; the value is the text handed to
    [editor.replaceSelection], if any. *)
Definition onSubmitTags (text : string) (selectedTags : list string)
    : M (option string) :=
  if Nat.ltb 0 (length selectedTags) then
    let tagString := String.concat " " (map (fun tag => "#" ++ tag)%string selectedTags) in
    Notice "✅ Tags added!" ;;
    ret (Some (text ++ nl ++ nl ++ "Tags: " ++ tagString ++ nl)%string)
  else ret None.

(** ** The earlier revision built on [VectorStore] *)

Module Legacy.

(** What the modelled methods of that revision read or write. *)
Record State : Type := mkState {
  vectorStore : VectorStore.t;
  notices : list string;
  consoleErrors : list string;
  consoleWarnings : list string;
  vaultWrites : list (string * string)
}.

Record Env : Type := mkEnv {
  (** The engine the plugin runs on. *)
  engine : Engine;
  (** [app.workspace.getActiveFile()] *)
  getActiveFile : option TFile.t;
  (** [app.vault.getFiles()] *)
  getFiles : list TFile.t;
  (** [app.vault.read(file)] *)
  vault_read : TFile.t -> Result string;
  (** [app.vault.modify(file, data)] *)
  vault_modify : TFile.t -> string -> Result unit;
  (** [openai.embeddings.create({ model, input })], then
      [response.data[0].embedding] *)
  embeddings_create : string -> Result (list number)
}.

Definition L (A : Type) : Type := State -> Result A * State.

Definition ret {A : Type} (a : A) : L A := fun st => (Ok a, st).

Definition bind {A B : Type} (m : L A) (k : A -> L B) : L B :=
  fun st =>
    match m st with
    | (Ok a, st') => k a st'
    | (Throw e, st') => (Throw e, st')
    end.

Definition try_catch {A : Type} (body : L A) (handler : string -> L A) : L A :=
  fun st =>
    match body st with
    | (Ok a, st') => (Ok a, st')
    | (Throw e, st') => handler e st'
    end.

Definition await {A : Type} (r : Result A) : L A := fun st => (r, st).

Definition get : L State := fun st => (Ok st, st).

Definition modify (f : State -> State) : L unit := fun st => (Ok tt, f st).

Definition exec {A : Type} (m : L A) (st : State) : State := snd (m st).
Definition eval {A : Type} (m : L A) (st : State) : Result A := fst (m st).

Declare Scope legacy_scope.
Delimit Scope legacy_scope with legacy.
Notation "x <- m ;; k" := (bind m (fun x => k))
  (at level 100, m at next level, right associativity) : legacy_scope.
Notation "m ;; k" := (bind m (fun _ => k))
  (at level 100, right associativity) : legacy_scope.
Local Open Scope legacy_scope.

Definition Notice (message : string) : L unit :=
  modify (fun st => mkState (vectorStore st) (notices st ++ [message])
                      (consoleErrors st) (consoleWarnings st) (vaultWrites st)).

Definition console_error (message : string) : L unit :=
  modify (fun st => mkState (vectorStore st) (notices st)
                      (consoleErrors st ++ [message]) (consoleWarnings st)
                      (vaultWrites st)).

Definition console_warn (message : string) : L unit :=
  modify (fun st => mkState (vectorStore st) (notices st) (consoleErrors st)
                      (consoleWarnings st ++ [message]) (vaultWrites st)).

(** [this.vectorStore.add(path, embedding)] *)
Definition vectorStore_add (path : string) (embedding : list number) : L unit :=
  modify (fun st => mkState (VectorStore.add (vectorStore st) path embedding)
                      (notices st) (consoleErrors st) (consoleWarnings st)
                      (vaultWrites st)).

(** A note written by [app.vault.modify]. *)
Definition written (file : TFile.t) (data : string) : L unit :=
  modify (fun st => mkState (vectorStore st) (notices st) (consoleErrors st)
                      (consoleWarnings st)
                      (vaultWrites st ++ [(TFile.path file, data)])).

Section Plugin.
Variable env : Env.

Definition generateEmbedding (text : string) : L (list number) :=
  await (embeddings_create env text).

(** [console.error] is given the file object beside its message in the
    "Skipping" branches; the message alone is kept. *)
Definition indexNote (file : TFile.t) : L unit :=
  if String.eqb (TFile.path file) "" then
    console_error "⚠️ Skipping undefined or invalid file:"
  else
    try_catch
      (content <- await (vault_read env file) ;;
       if String.eqb content "" || String.eqb (trim content) "" then
         console_warn ("⚠️ Skipping empty note: " ++ TFile.path file)%string
       else
         embedding <- generateEmbedding content ;;
         vectorStore_add (TFile.path file) embedding)
      (fun error =>
         console_error
           ("❌ Error processing file: " ++ TFile.path file ++ " " ++ error)%string).

(** The [for] loop of [indexAllNotes]. *)
Fixpoint indexEach (files : list TFile.t) : L unit :=
  match files with
  | [] => ret tt
  | file :: rest =>
      (if String.eqb (TFile.path file) "" then
         console_error "⚠️ Skipping invalid file:"
       else indexNote file) ;;
      indexEach rest
  end.

Definition indexAllNotes : L unit :=
  let files := getFiles env in
  if Nat.eqb (length files) 0 then
    console_error "❌ No files found in vault. Ensure you have notes." ;;
    Notice "❌ No notes found to index."
  else
    indexEach files ;;
    Notice "✅ All notes indexed for AI-powered linking!".

Section Render.
(** The text a template string gives a number. *)
Variable numberText : number -> string.

(** The [forEach] over the search results, appended to [results]. *)
Definition relatedLines (searchResults : list Scored.t) (results : string) : string :=
  foldl (fun results r =>
           let similarityPercent := Math_round (Scored.similarity r * of_Z 100)%js in
           (results ++ "- [[" ++ Scored.path r ++ "]] (" ++ numberText similarityPercent
              ++ "% similar)" ++ nl)%string)
        results searchResults.

Definition findRelatedNotes : L unit :=
  match getActiveFile env with
  | None => Notice "❌ No active note found!"
  | Some activeFile =>
      if String.eqb (TFile.path activeFile) "" then Notice "❌ No active note found!"
      else
        try_catch
          (Notice "🔍 Finding related notes..." ;;
           content <- await (vault_read env activeFile) ;;
           if String.eqb content "" || String.eqb (trim content) "" then
             Notice "⚠️ Cannot find related notes for an empty file."
           else
             queryEmbedding <- generateEmbedding content ;;
             st <- get ;;
             if Nat.eqb (VectorStore.size (vectorStore st)) 0 then
               Notice "⚠️ No indexed notes available for comparison."
             else
               let searchResults :=
                 VectorStore.search (engine env) (vectorStore st) queryEmbedding 3 in
               let results :=
                 relatedLines searchResults
                   (nl ++ nl ++ "---" ++ nl ++ "**Related Notes:**" ++ nl)%string in
               await (vault_modify env activeFile (content ++ results)%string) ;;
               written activeFile (content ++ results)%string ;;
               Notice "✅ Related notes added!")
          (fun error =>
             console_error ("Error finding related notes: " ++ error)%string ;;
             Notice "❌ Error finding related notes. Check console for details.")
  end.
End Render.
End Plugin.
End Legacy.

(** ** Vocabulary of the further statements *)

(** The operations that write entries without emptying the cache. *)
Definition keepsEntries (op : CacheOp) : bool :=
  match op with
  | OpUpdate _ | OpUpdateAll => true
  | OpClear | OpRebuild => false
  end.

(** The entries an indexing pass over [files] produces from nothing: one
    for each file whose read and embedding call return. *)
Definition indexed (env : Env) (st : State) (files : list TFile.t)
    : list NoteEmbedding.t :=
  omap (fun file =>
          match embedOutcome env st file with
          | Ok v => Some (entryOf file v)
          | Throw _ => None
          end) files.

(** [st'] holds the data of [st]: settings, history, persisted settings
    and note writes.  Bubbles, notices and console lines may differ. *)
Definition sameData (st st' : State) : Prop :=
  settings st' = settings st
  /\ chatHistory st' = chatHistory st
  /\ savedData st' = savedData st
  /\ vaultWrites st' = vaultWrites st.

(** The environment with the two cloud endpoints replaced. *)
Definition withCloud (chat : string -> string -> string -> Result string)
    (embeddings : string -> string -> Result (option (list number))) (env : Env)
    : Env :=
  {| engine := engine env;
     getActiveFile := getActiveFile env;
     getMarkdownFiles := getMarkdownFiles env;
     vault_read := vault_read env;
     vault_modify := vault_modify env;
     saveData := saveData env;
     openai_chat := chat;
     ollama_generate := ollama_generate env;
     openai_embeddings := embeddings;
     ollama_embeddings := ollama_embeddings env |}.

(** The text the summary action writes back for a content and a summary. *)
Definition withSummary (content summary : string) : string :=
  (content ++ nl ++ nl ++ "---" ++ nl ++ "**AI Summary:**" ++ nl ++ summary)%string.

(** What "Append Summary" hands to the editor. *)
Definition summaryCallout (selection summary : string) : string :=
  (selection ++ nl ++ nl ++ "> [!summary]- AI Summary" ++ nl
     ++ "> " ++ summary ++ nl ++ nl)%string.

(** The settings as the host stores them when a save succeeds: every key
    present. *)
Definition stored (s : AIPoweredSecondBrainSettings) : StoredData.t :=
  {| StoredData.openaiApiKey := Some (openaiApiKey s);
     StoredData.useOllama := Some (useOllama s);
     StoredData.ollamaEndpoint := Some (ollamaEndpoint s);
     StoredData.ollamaModel := Some (ollamaModel s);
     StoredData.embeddingCache := Some (embeddingCache s);
     StoredData.aiProvider := Some (aiProvider s) |}.

(** A tab action that types a key. *)
Definition typesKey (action : TabAction) : bool :=
  match action with
  | TypeKey value => negb (String.eqb value "")
  | _ => false
  end.

(** One white space or line terminator. *)
Definition isWhiteSpace (w : string) : bool :=
  negb (String.eqb w "") && Nat.eqb (whiteSpaceAt w) (String.length w).

(** A text made of white space only. *)
Inductive blank : string -> Prop :=
  | blank_empty : blank ""
  | blank_more w s : isWhiteSpace w = true -> blank s -> blank (w ++ s)%string.

(** The section of the reply for one match, when its note resolves. *)
Definition relatedSection (numberText : number -> string) (s : Scored.t)
    (explanation : string) : string :=
  ("### [[" ++ Scored.path s ++ "]] ("
     ++ numberText (Math_round (Scored.similarity s * of_Z 100)%js)
     ++ "% related)" ++ nl ++ "> " ++ explanation ++ nl ++ nl)%string.

(** What the loop of [findRelatedNotes] obtains for one match: nothing
    for a path that is no file any more, else the explanation asked of the
    provider, or the error of the first step that fails. *)
Definition explanationOf (host : Host) (activeFile : TFile.t) (st : State)
    (s : Scored.t) : Result (option string) :=
  match getAbstractFileByPath host (Scored.path s) with
  | Some (TAbstractFile.File file _) =>
      match vault_read host file with
      | Throw e => Throw e
      | Ok content =>
          match vault_read host activeFile with
          | Throw e => Throw e
          | Ok current =>
              match eval (callAI host
                            ("Note 1:" ++ nl ++ current ++ nl ++ nl ++ "Note 2:"
                               ++ nl ++ content)%string
                            "Explain in one sentence why these notes are related:") st with
              | Ok explanation => Ok (Some explanation)
              | Throw e => Throw e
              end
          end
      end
  | _ => Ok None
  end.

(** The reply for a list of matches: the sections in order, or the first
    error. *)
Fixpoint replyFor (numberText : number -> string) (host : Host)
    (activeFile : TFile.t) (st : State) (matches : list Scored.t)
    (response : string) : Result string :=
  match matches with
  | [] => Ok response
  | s :: rest =>
      match explanationOf host activeFile st s with
      | Throw e => Throw e
      | Ok None => replyFor numberText host activeFile st rest response
      | Ok (Some explanation) =>
          replyFor numberText host activeFile st rest
            (response ++ relatedSection numberText s explanation)%string
      end
  end.

Definition relatedHeader : string := ("**Related Notes Found:**" ++ nl ++ nl)%string.

(** A markdown file among the events of the vault. *)
Definition markdownPath (file : TAbstractFile.t) : option string :=
  match file with
  | TAbstractFile.File f extension =>
      if String.eqb extension "md" then Some (TFile.path f) else None
  | TAbstractFile.Folder _ => None
  end.

Definition run_modifications (events : list (Host * TAbstractFile.t)) (st : State)
    : State :=
  foldl (fun s '(host, file) => exec (onModify host file) s) st events.

(** A sample of number texts: right for [NaN] and for the integers a
    percentage takes. *)
Definition sampleNumberText (x : number) : string :=
  match x with
  | S754_nan => "NaN"
  | S754_infinity false => "Infinity"
  | S754_infinity true => "-Infinity"
  | S754_zero _ => "0"
  | S754_finite s m e =>
      let digits := NilZero.string_of_uint (N.to_uint (Z.to_N (Z.shiftl (Z.pos m) e))) in
      if s then ("-" ++ digits)%string else digits
  end.

(** The two quick actions of the chat view that ask about the note. *)
Inductive QuickAction : Type := Summarize | Analyze.

Definition quickAction (host : Host) (action : QuickAction) : M unit :=
  match action with
  | Summarize => summarizeCurrentNote host
  | Analyze => analyzeCurrentNote host
  end.

Definition quickLabel (action : QuickAction) : string :=
  match action with
  | Summarize => "Summarize this note"
  | Analyze => "Analyze this note"
  end.

Definition quickPrompt (action : QuickAction) : string :=
  match action with
  | Summarize => "Summarize this note in 3-5 bullet points"
  | Analyze => analysisPrompt
  end.

(** What a completion over the content of a note gives: the note is
    read, then the provider asked. *)
Definition askAbout (env : Env) (file : TFile.t) (prompt : string) (st : State)
    : Result string :=
  match vault_read env file with
  | Ok content => eval (callAI env content prompt) st
  | Throw e => Throw e
  end.

(** The heading the earlier revision puts before its list. *)
Definition legacyHeader : string :=
  (nl ++ nl ++ "---" ++ nl ++ "**Related Notes:**" ++ nl)%string.

(** ** Sample hosts *)

(** The vault of [vaultEnv] seen by path, with nothing stored yet. *)
Definition vaultHost : Host :=
  {| host_env := vaultEnv;
     loadData := Ok None;
     getAbstractFileByPath := fun path =>
       if String.eqb path "A.md" then Some (TAbstractFile.File noteA "md")
       else if String.eqb path "C.md" then Some (TAbstractFile.File noteC "md")
       else None;
     confirm := fun _ => true |}.

(** The host of [errorReplyEnv]. *)
Definition errorReplyHost : Host :=
  {| host_env := errorReplyEnv;
     loadData := Ok None;
     getAbstractFileByPath := getAbstractFileByPath vaultHost;
     confirm := fun _ => true |}.

(** The same host at a later start, with stored data. *)
Definition restartedHost (data : StoredData.t) : Host :=
  {| host_env := vaultEnv;
     loadData := Ok (Some data);
     getAbstractFileByPath := getAbstractFileByPath vaultHost;
     confirm := fun _ => true |}.

(** An environment whose disk is full: every save is rejected. *)
Definition diskFullEnv : Env :=
  {| engine := inPlace;
     getActiveFile := Some noteA;
     getMarkdownFiles := [noteA];
     vault_read := fun _ => Ok "Meeting notes";
     vault_modify := fun _ _ => Throw "ENOSPC";
     saveData := fun _ => Throw "ENOSPC";
     openai_chat := fun _ _ _ => Throw "Failed to fetch";
     ollama_generate := fun _ _ _ => Ok "A reply.";
     openai_embeddings := fun _ _ => Throw "Failed to fetch";
     ollama_embeddings := fun _ _ _ => Ok (Some [of_Z 1; of_Z 0]) |}.

(** The vault of the earlier revision: notes A and C, each embedded as
    the length of its text and 1; A is the active note. *)
Definition legacyVault : Legacy.Env :=
  {| Legacy.engine := inPlace;
     Legacy.getActiveFile := Some noteA;
     Legacy.getFiles := [noteA; noteC];
     Legacy.vault_read := fun file =>
       Ok (if String.eqb (TFile.path file) "A.md" then "Alpha" else "Gamma delta");
     Legacy.vault_modify := fun _ _ => Ok tt;
     Legacy.embeddings_create := fun text =>
       Ok [of_Z (Z.of_nat (String.length text)); of_Z 1] |}.

Definition legacyStart : Legacy.State := Legacy.mkState [] [] [] [] [].

(** A cache that still holds a note deleted since, D, beside note C. *)
Definition staleCache : list NoteEmbedding.t :=
  [ NoteEmbedding.mk "D.md" (Some [of_Z 1; of_Z 0]) (of_Z 50);
    NoteEmbedding.mk "C.md" (Some [of_Z 12; of_Z 1]) (of_Z 300) ].

(** * Properties *)

(** ** Number facts used by the ranking *)

Lemma gt0_binary_round_aux_neg mx ex lx :
  gt0 (binary_round_aux prec emax true mx ex lx) = false.
Proof.
  unfold binary_round_aux.
  destruct (shr_fexp prec emax mx ex lx) as [mrs' e'].
  destruct (shr_fexp prec emax _ e' loc_Exact) as [mrs'' e''].
  destruct (shr_m mrs''); [reflexivity | | reflexivity].
  destruct (Z.leb e'' _); reflexivity.
Qed.

Lemma gt0_binary_normalize m e szero :
  gt0 (binary_normalize prec emax m e szero) = true -> (0 < m)%Z.
Proof.
  destruct m as [|p|p]; simpl.
  - destruct szero; discriminate.
  - lia.
  - unfold binary_round.
    destruct (shl_align p e _) as [mz ez].
    rewrite gt0_binary_round_aux_neg. discriminate.
Qed.

(** The comparator never orders two numbers both ways. *)
Lemma gt0_sub_antisym (x y : number) :
  gt0 (y - x)%js = true -> gt0 (x - y)%js = false.
Proof.
  destruct x as [sx|sx| |sx mx ex], y as [sy|sy| |sy my ey];
    try (destruct sx; try destruct sy; cbn; congruence);
    try (destruct sy; cbn; congruence);
    try (cbn; congruence).
  unfold sub, SFsub. rewrite (Z.min_comm ey ex).
  set (ez := Z.min ex ey).
  set (cx := cond_Zopp sx _). set (cy := cond_Zopp sy _).
  intros H%gt0_binary_normalize.
  destruct (gt0 (binary_normalize prec emax (cx - cy) ez false)) eqn:E;
    [| reflexivity].
  apply gt0_binary_normalize in E. lia.
Qed.



(** ** The comparator and the order of binary64 values *)

Section Binary64Order.
Local Open Scope Z_scope.

Lemma digits2_pos_bounds (m : positive) :
  2 ^ (Zpos (digits2_pos m) - 1) <= Zpos m < 2 ^ Zpos (digits2_pos m).
Proof.
  induction m as [m IH|m IH|]; cbn [digits2_pos].
  - rewrite Pos2Z.inj_succ, Z.pow_succ_r by lia.
    replace (Z.succ (Zpos (digits2_pos m)) - 1) with (Z.succ (Zpos (digits2_pos m) - 1)) by lia.
    rewrite Z.pow_succ_r by lia. lia.
  - rewrite Pos2Z.inj_succ, Z.pow_succ_r by lia.
    replace (Z.succ (Zpos (digits2_pos m)) - 1) with (Z.succ (Zpos (digits2_pos m) - 1)) by lia.
    rewrite Z.pow_succ_r by lia. lia.
  - cbn. lia.
Qed.

Lemma Pos_iter_xO (m d : positive) :
  Zpos (Pos.iter xO m d) = Zpos m * 2 ^ Zpos d.
Proof.
  induction d as [|d IH] using Pos.peano_ind.
  - cbn. lia.
  - rewrite Pos.iter_succ, Pos2Z.inj_succ, Z.pow_succ_r by lia.
    rewrite Pos2Z.inj_xO, IH. lia.
Qed.

Lemma shl_align_fst (m : positive) (e ez : Z) :
  ez <= e -> Zpos (fst (shl_align m e ez)) = Zpos m * 2 ^ (e - ez).
Proof.
  intros Hle. unfold shl_align.
  destruct (ez - e) as [|d|d] eqn:E; cbn [fst]; try lia.
  - replace (e - ez) with 0 by lia. lia.
  - rewrite Pos_iter_xO. f_equal. f_equal. lia.
Qed.

Lemma canonical_inv (m : positive) (e : Z) :
  canonical_mantissa prec emax m e = true ->
  -1074 <= e /\ Zpos (digits2_pos m) <= 53
  /\ (-1074 < e -> Zpos (digits2_pos m) = 53).
Proof.
  unfold canonical_mantissa, fexp, emin, prec, emax.
  intros H%Z.eqb_eq. lia.
Qed.

Lemma bounded_inv (m : positive) (e : Z) :
  SpecFloat.bounded prec emax m e = true ->
  -1074 <= e /\ Zpos (digits2_pos m) <= 53
  /\ (-1074 < e -> Zpos (digits2_pos m) = 53).
Proof.
  unfold SpecFloat.bounded. intros [H _]%andb_true_iff. by apply canonical_inv.
Qed.

(** Magnitudes of two canonical finite values compare as their
    (exponent, mantissa) pairs do. *)
Lemma canonical_lt (mx my : positive) (ex ey : Z) :
  SpecFloat.bounded prec emax mx ex = true ->
  SpecFloat.bounded prec emax my ey = true ->
  let ez := Z.min ex ey in
  (ex < ey \/ (ex = ey /\ (mx < my)%positive)) ->
  Zpos mx * 2 ^ (ex - ez) < Zpos my * 2 ^ (ey - ez).
Proof.
  intros (Hex & Hdx & _)%bounded_inv (Hey & _ & Hdy)%bounded_inv ez [Hlt | [-> Hlt]].
  - subst ez. rewrite Z.min_l by lia. rewrite Z.sub_diag, Z.pow_0_r.
    specialize (Hdy ltac:(lia)).
    pose proof (digits2_pos_bounds mx) as [_ Hx].
    pose proof (digits2_pos_bounds my) as [Hy _].
    rewrite Hdy in Hy.
    assert (2 ^ Zpos (digits2_pos mx) <= 2 ^ 53) by (apply Z.pow_le_mono_r; lia).
    assert (2 ^ 1 <= 2 ^ (ey - ex)) by (apply Z.pow_le_mono_r; lia).
    change (2 ^ 53) with (2 * 2 ^ (53 - 1)) in *. change (2 ^ 1) with 2 in *.
    nia.
  - subst ez. rewrite Z.min_id, Z.sub_diag, Z.pow_0_r. lia.
Qed.

Lemma shr_1_m (mrs : shr_record) :
  0 <= shr_m mrs -> shr_m (shr_1 mrs) = shr_m mrs / 2.
Proof.
  destruct mrs as [[|[p|p|]|p] r s]; cbn [shr_m shr_1]; intros H; try lia.
  - reflexivity.
  - rewrite Pos2Z.inj_xI. apply Z.div_unique with 1; lia.
  - rewrite Pos2Z.inj_xO. apply Z.div_unique with 0; lia.
  - reflexivity.
Qed.

Lemma pow2_xO (n : positive) : 2 ^ Zpos n~0 = 2 ^ Zpos n * 2 ^ Zpos n.
Proof. rewrite <- Z.pow_add_r by lia. f_equal. lia. Qed.

Lemma pow2_xI (n : positive) : 2 ^ Zpos n~1 = 2 * (2 ^ Zpos n * 2 ^ Zpos n).
Proof.
  rewrite <- Z.pow_add_r, <- Z.pow_succ_r by lia. f_equal. lia.
Qed.

Lemma iter_shr_1_m (n : positive) (mrs : shr_record) :
  0 <= shr_m mrs ->
  shr_m (SpecFloat.iter_pos shr_1 n mrs) = shr_m mrs / 2 ^ Zpos n.
Proof.
  revert mrs. induction n as [n IH|n IH|]; intros mrs Hm; cbn [SpecFloat.iter_pos].
  - assert (0 <= shr_m (shr_1 mrs)) by (rewrite shr_1_m by done; apply Z.div_pos; lia).
    assert (0 <= shr_m (SpecFloat.iter_pos shr_1 n (shr_1 mrs)))
      by (rewrite IH by done; apply Z.div_pos; lia).
    rewrite IH, IH, shr_1_m by done.
    rewrite !Z.div_div by lia. by rewrite pow2_xI.
  - assert (0 <= shr_m (SpecFloat.iter_pos shr_1 n mrs))
      by (rewrite IH by done; apply Z.div_pos; lia).
    rewrite IH, IH by done.
    rewrite Z.div_div by lia. by rewrite pow2_xO.
  - by apply shr_1_m.
Qed.

Lemma shr_m_of_loc (m : Z) (l : location) : shr_m (shr_record_of_loc m l) = m.
Proof. by destruct l as [|[]]. Qed.

(** Rounding a positive mantissa at an exponent not below the least one
    never reaches zero. *)
Lemma shr_fexp_pos (m e : Z) (l : location) :
  0 < m -> -1074 <= e ->
  0 < shr_m (fst (shr_fexp prec emax m e l))
  /\ -1074 <= snd (shr_fexp prec emax m e l).
Proof.
  intros Hm He. unfold shr_fexp, shr.
  destruct m as [|p|p]; try lia. cbn [Zdigits2].
  pose proof (digits2_pos_bounds p) as [Hlo _].
  destruct (fexp prec emax (Zpos (digits2_pos p) + e) - e) as [|n|n] eqn:E;
    cbn [fst snd]; rewrite ?shr_m_of_loc; try lia.
  unfold fexp, emin, prec, emax in E.
  split; [| lia].
  rewrite iter_shr_1_m by (rewrite shr_m_of_loc; lia).
  rewrite shr_m_of_loc.
  apply Z.div_str_pos. split; [lia |].
  etrans; [| exact Hlo]. apply Z.pow_le_mono_r; lia.
Qed.

Lemma round_nearest_even_pos (m : Z) (l : location) :
  0 < m -> 0 < round_nearest_even m l.
Proof.
  intros Hm. destruct l as [|[]]; cbn; try lia.
  destruct (Z.even m); lia.
Qed.

Lemma gt0_binary_round_aux_pos (m e : Z) (l : location) :
  0 < m -> -1074 <= e ->
  gt0 (binary_round_aux prec emax false m e l) = true.
Proof.
  intros Hm He. unfold binary_round_aux.
  destruct (shr_fexp_pos m e l Hm He) as [Hm1 He1].
  destruct (shr_fexp prec emax m e l) as [mrs' e']. cbn [fst snd] in *.
  pose proof (round_nearest_even_pos (shr_m mrs') (loc_of_shr_record mrs') Hm1) as Hr.
  destruct (shr_fexp_pos _ e' loc_Exact Hr He1) as [Hm2 _].
  destruct (shr_fexp prec emax _ e' loc_Exact) as [mrs'' e'']. cbn [fst snd] in *.
  destruct (shr_m mrs''); try lia.
  by destruct (Z.leb e'' _).
Qed.

Lemma gt0_binary_normalize_pos (m e : Z) (szero : bool) :
  0 < m -> -1074 <= e ->
  gt0 (binary_normalize prec emax m e szero) = true.
Proof.
  intros Hm He. destruct m as [|p|p]; try lia.
  cbn [binary_normalize]. unfold binary_round.
  destruct (shl_align p e (fexp prec emax (Zpos (digits2_pos p) + e)))
    as [mz ez] eqn:E.
  apply gt0_binary_round_aux_pos; [lia |].
  unfold shl_align in E.
  destruct (fexp prec emax (Zpos (digits2_pos p) + e) - e) eqn:E'; simplify_eq; try lia.
  unfold fexp, emin, prec, emax. lia.
Qed.
(** At an exponent a binary64 value can have, a normalised integer is
    positive exactly when the integer is. *)
Lemma gt0_binary_normalize_ltb (m e : Z) (szero : bool) :
  -1074 <= e -> gt0 (binary_normalize prec emax m e szero) = (0 <? m).
Proof.
  intros He. destruct (Z.ltb_spec 0 m) as [Hm | Hm].
  - by apply gt0_binary_normalize_pos.
  - destruct (gt0 (binary_normalize prec emax m e szero)) eqn:E; [| done].
    apply gt0_binary_normalize in E. lia.
Qed.

Lemma canonical_compare (mx my : positive) (ex ey : Z) :
  SpecFloat.bounded prec emax mx ex = true ->
  SpecFloat.bounded prec emax my ey = true ->
  (Zpos mx * 2 ^ (ex - Z.min ex ey) ?= Zpos my * 2 ^ (ey - Z.min ex ey))
  = match ex ?= ey with
    | Lt => Lt
    | Gt => Gt
    | Eq => (mx ?= my)%positive
    end.
Proof.
  intros Hx Hy.
  destruct (Z.compare_spec ex ey) as [-> | Hlt | Hgt].
  - rewrite Z.min_id, Z.sub_diag, Z.pow_0_r, !Z.mul_1_r. reflexivity.
  - apply Z.compare_lt_iff. apply (canonical_lt mx my ex ey Hx Hy). lia.
  - apply Z.compare_gt_iff. rewrite Z.min_comm.
    apply (canonical_lt my mx ey ex Hy Hx). lia.
Qed.

(** On binary64 values other than [NaN], the comparator's test
    [y - x > 0] is the comparison [x < y]. *)
Lemma gt0_sub_ltb (x y : number) :
  is_binary64 x = true -> is_binary64 y = true ->
  is_nan x = false -> is_nan y = false ->
  gt0 (sub y x) = ltb x y.
Proof.
  destruct x as [sx|sx| |sx mx ex], y as [sy|sy| |sy my ey];
    try (intros _ _; discriminate);
    try (destruct sx; try destruct sy; reflexivity);
    try (destruct sy; reflexivity).
  cbn [is_binary64 valid_binary]. unfold is_binary64. cbn [valid_binary].
  intros Hx Hy _ _.
  pose proof (bounded_inv _ _ Hx) as (Hex & _).
  pose proof (bounded_inv _ _ Hy) as (Hey & _).
  unfold sub, SFsub.
  rewrite gt0_binary_normalize_ltb by lia.
  rewrite !shl_align_fst by lia.
  pose proof (canonical_compare mx my ex ey Hx Hy) as Hcmp.
  rewrite (Z.min_comm ey ex).
  set (X := Zpos mx * 2 ^ (ex - Z.min ex ey)) in *.
  set (Y := Zpos my * 2 ^ (ey - Z.min ex ey)) in *.
  assert (0 < X) by (subst X; apply Z.mul_pos_pos; [lia | apply Z.pow_pos_nonneg; lia]).
  assert (0 < Y) by (subst Y; apply Z.mul_pos_pos; [lia | apply Z.pow_pos_nonneg; lia]).
  unfold ltb, SFltb, SFcompare.
  change (Pos.compare_cont Eq mx my) with (mx ?= my)%positive.
  destruct sx, sy; cbn [cond_Zopp].
  - (* both negative *)
    destruct (Z.compare_spec X Y) as [HXY | HXY | HXY];
      destruct (ex ?= ey); try rewrite <- Hcmp; cbn;
      try discriminate; apply Z.ltb_ge || apply Z.ltb_lt; lia.
  - apply Z.ltb_lt. lia.
  - apply Z.ltb_ge. lia.
  - destruct (Z.compare_spec X Y) as [HXY | HXY | HXY];
      destruct (ex ?= ey); try rewrite <- Hcmp; cbn;
      try discriminate; apply Z.ltb_ge || apply Z.ltb_lt; lia.
Qed.

Ltac compare_cases :=
  repeat match goal with
    | |- context [Pos.compare_cont Eq ?a ?b] =>
        change (Pos.compare_cont Eq a b) with (Pos.compare a b)
    end;
  repeat match goal with
    | |- context [Z.compare ?a ?b] => destruct (Z.compare_spec a b); subst
    end;
  repeat match goal with
    | |- context [Pos.compare ?a ?b] => destruct (Pos.compare_spec a b); subst
    end;
  cbn; intros; try reflexivity; try discriminate; try lia.

(** [<=] on numbers is transitive. *)
Lemma leb_trans (a b c : number) :
  leb a b = true -> leb b c = true -> leb a c = true.
Proof.
  unfold leb, SFleb, SFcompare.
  destruct a as [sa|sa| |sa ma ea], b as [sb|sb| |sb mb eb],
           c as [sc|sc| |sc mc ec];
    try destruct sa; try destruct sb; try destruct sc;
    try (intros; reflexivity || discriminate);
    compare_cases.
Qed.

(** Among numbers other than [NaN], what is not below is at or above. *)
Lemma ltb_false_leb (x y : number) :
  is_nan x = false -> is_nan y = false -> ltb x y = false -> leb y x = true.
Proof.
  unfold ltb, leb, SFltb, SFleb, SFcompare.
  destruct x as [sx|sx| |sx mx ex], y as [sy|sy| |sy my ey];
    try destruct sx; try destruct sy;
    try (intros; reflexivity || discriminate);
    compare_cases.
Qed.

(** *** Every quotient is a binary64 value *)

(** The number of binary digits of a non-negative integer, by its bounds. *)
Lemma Zdigits2_bounds (m : Z) :
  0 < m -> 2 ^ (Zdigits2 m - 1) <= m < 2 ^ Zdigits2 m.
Proof. destruct m as [|p|p]; try lia. intros _. apply digits2_pos_bounds. Qed.

Lemma Zdigits2_nonneg (m : Z) : 0 <= Zdigits2 m.
Proof. destruct m; cbn; lia. Qed.

Lemma Zdigits2_pos (m : Z) : 0 < m -> 0 < Zdigits2 m.
Proof. destruct m; cbn; lia. Qed.

Lemma Zdigits2_unique (m k : Z) :
  0 < m -> 2 ^ (k - 1) <= m < 2 ^ k -> Zdigits2 m = k.
Proof.
  intros Hm [Hlo Hhi].
  pose proof (Zdigits2_bounds m Hm) as [Hlo' Hhi'].
  pose proof (Zdigits2_pos m Hm) as Hd.
  assert (0 < k).
  { destruct (Z.lt_trichotomy k 0) as [Hk | [-> | Hk]]; [| cbn in Hhi; lia | done].
    rewrite Z.pow_neg_r in Hhi by lia. lia. }
  assert (Zdigits2 m - 1 < k) by (apply (Z.pow_lt_mono_r_iff 2); lia).
  assert (k - 1 < Zdigits2 m) by (apply (Z.pow_lt_mono_r_iff 2); lia).
  lia.
Qed.

Lemma Zdigits2_div_pow2 (m n : Z) :
  0 < m -> 0 <= n < Zdigits2 m -> Zdigits2 (m / 2 ^ n) = Zdigits2 m - n.
Proof.
  intros Hm Hn.
  pose proof (Zdigits2_bounds m Hm) as [Hlo Hhi].
  assert (Hp : 0 < 2 ^ n) by (apply Z.pow_pos_nonneg; lia).
  assert (Hlo2 : 2 ^ (Zdigits2 m - n - 1) <= m / 2 ^ n).
  { apply Z.div_le_lower_bound; [done |].
    rewrite <- Z.pow_add_r by lia.
    replace (n + (Zdigits2 m - n - 1)) with (Zdigits2 m - 1) by lia. done. }
  assert (Hhi2 : m / 2 ^ n < 2 ^ (Zdigits2 m - n)).
  { apply Z.div_lt_upper_bound; [done |].
    rewrite <- Z.pow_add_r by lia.
    replace (n + (Zdigits2 m - n)) with (Zdigits2 m) by lia. done. }
  apply Zdigits2_unique; [| done].
  eapply Z.lt_le_trans; [| exact Hlo2]. apply Z.pow_pos_nonneg; lia.
Qed.

Lemma div_pow2_small (m n : Z) :
  0 <= m -> Zdigits2 m <= n -> m / 2 ^ n = 0.
Proof.
  intros Hm Hn. apply Z.div_small. split; [done |].
  destruct (Z.eq_dec m 0) as [-> | Hne].
  - apply Z.pow_pos_nonneg; [lia |]. cbn in Hn. done.
  - pose proof (Zdigits2_bounds m ltac:(lia)) as [_ Hhi].
    eapply Z.lt_le_trans; [exact Hhi |].
    apply Z.pow_le_mono_r; lia.
Qed.

(** One more than an integer of [d] digits has [d] digits, or is [2 ^ d]. *)
Lemma Zdigits2_succ (m : Z) :
  0 <= m ->
  Zdigits2 (m + 1) = Zdigits2 m
  \/ (m + 1 = 2 ^ Zdigits2 m /\ Zdigits2 (m + 1) = Zdigits2 m + 1).
Proof.
  intros Hm. destruct (Z.eq_dec m 0) as [-> | Hne]; [right; by cbn |].
  pose proof (Zdigits2_bounds m ltac:(lia)) as [Hlo Hhi].
  pose proof (Zdigits2_pos m ltac:(lia)) as Hd.
  destruct (Z.eq_dec (m + 1) (2 ^ Zdigits2 m)) as [Heq | Hneq].
  - right. split; [done |]. apply Zdigits2_unique; [lia |].
    replace (Zdigits2 m + 1 - 1) with (Zdigits2 m) by lia.
    rewrite Z.pow_add_r by lia. cbn. lia.
  - left. apply Zdigits2_unique; lia.
Qed.

Lemma shr_fexp_spec (m e : Z) (l : location) :
  0 <= m ->
  let n := fexp prec emax (Zdigits2 m + e) - e in
  shr_m (fst (shr_fexp prec emax m e l)) = (if 0 <? n then m / 2 ^ n else m)
  /\ snd (shr_fexp prec emax m e l) = (if 0 <? n then e + n else e).
Proof.
  intros Hm n. unfold shr_fexp, shr. fold n.
  destruct n as [|p|p]; cbn [fst snd Z.ltb Z.compare]; rewrite ?shr_m_of_loc; try done.
  rewrite iter_shr_1_m by (by rewrite shr_m_of_loc).
  by rewrite shr_m_of_loc.
Qed.

(** After the first shift the mantissa fits the format. *)
Lemma shr_fexp_fits (m e : Z) (l : location) :
  0 <= m -> e <= fexp prec emax (Zdigits2 m + e) ->
  let m' := shr_m (fst (shr_fexp prec emax m e l)) in
  let e' := snd (shr_fexp prec emax m e l) in
  0 <= m' /\ -1074 <= e' /\ Zdigits2 m' <= 53 /\ (-1074 < e' -> Zdigits2 m' = 53).
Proof.
  intros Hm He. cbn zeta.
  destruct (shr_fexp_spec m e l Hm) as [-> ->].
  unfold fexp, emin, prec, emax in *.
  pose proof (Zdigits2_nonneg m) as Hd.
  destruct (Z.ltb_spec 0 (Z.max (Zdigits2 m + e - 53) (3 - 1024 - 53) - e)) as [Hn | Hn].
  - set (n := Z.max (Zdigits2 m + e - 53) (3 - 1024 - 53) - e) in *.
    assert (0 <= m / 2 ^ n) by (apply Z.div_pos; [done | apply Z.pow_pos_nonneg; lia]).
    split; [done |]. split; [lia |].
    destruct (Z.eq_dec m 0) as [-> | Hne].
    + rewrite Z.div_0_l by (apply Z.pow_nonzero; lia). cbn in *. lia.
    + destruct (Z.lt_ge_cases n (Zdigits2 m)) as [Hlt | Hge].
      * rewrite Zdigits2_div_pow2 by lia. lia.
      * rewrite div_pow2_small by lia. cbn. lia.
  - lia.
Qed.

Lemma round_nearest_even_cases (m : Z) (l : location) :
  round_nearest_even m l = m \/ round_nearest_even m l = m + 1.
Proof. destruct l as [|[]]; cbn; try tauto. destruct (Z.even m); tauto. Qed.

(** The second shift absorbs the carry of the rounding and leaves a
    canonical mantissa. *)
Lemma shr_fexp_canonical (m e : Z) :
  0 <= m -> -1074 <= e ->
  (Zdigits2 m <= 53 /\ (-1074 < e -> Zdigits2 m = 53)) \/ m = 2 ^ 53 ->
  let m' := shr_m (fst (shr_fexp prec emax m e loc_Exact)) in
  let e' := snd (shr_fexp prec emax m e loc_Exact) in
  0 <= m' /\ (0 < m' -> fexp prec emax (Zdigits2 m' + e') = e').
Proof.
  intros Hm He Hcases. cbn zeta.
  destruct (shr_fexp_spec m e loc_Exact Hm) as [-> ->].
  unfold fexp, emin, prec, emax in *.
  destruct Hcases as [[Hd Hnormal] | ->].
  - destruct (Z.ltb_spec 0 (Z.max (Zdigits2 m + e - 53) (3 - 1024 - 53) - e)); lia.
  - change (Zdigits2 (2 ^ 53)) with 54.
    replace (Z.max (54 + e - 53) (3 - 1024 - 53) - e) with 1 by lia.
    cbn [Z.ltb Z.compare].
    change (2 ^ 53 / 2 ^ 1) with (2 ^ 52). change (Zdigits2 (2 ^ 52)) with 53. lia.
Qed.

(** Rounding yields a binary64 value, provided the mantissa it starts from
    has enough digits for its exponent. *)
Lemma is_binary64_round_aux (s : bool) (m e : Z) (l : location) :
  0 <= m -> e <= fexp prec emax (Zdigits2 m + e) ->
  is_binary64 (binary_round_aux prec emax s m e l) = true.
Proof.
  intros Hm He. unfold binary_round_aux.
  pose proof (shr_fexp_fits m e l Hm He) as (Hm1 & He1 & Hd1 & Hn1).
  destruct (shr_fexp prec emax m e l) as [mrs' e']. cbn [fst snd] in *.
  set (m1 := round_nearest_even (shr_m mrs') (loc_of_shr_record mrs')).
  assert (Hm1' : 0 <= m1).
  { subst m1. destruct (round_nearest_even_cases (shr_m mrs') (loc_of_shr_record mrs'))
      as [-> | ->]; lia. }
  assert (Hcases : (Zdigits2 m1 <= 53 /\ (-1074 < e' -> Zdigits2 m1 = 53)) \/ m1 = 2 ^ 53).
  { subst m1. destruct (round_nearest_even_cases (shr_m mrs') (loc_of_shr_record mrs'))
      as [-> | ->]; [by left |].
    destruct (Zdigits2_succ (shr_m mrs') Hm1) as [-> | [Hpow Hsucc]]; [by left |].
    destruct (Z.eq_dec (Zdigits2 (shr_m mrs')) 53) as [E | E].
    - right. by rewrite Hpow, E.
    - left. rewrite Hsucc. lia. }
  pose proof (shr_fexp_canonical m1 e' Hm1' He1 Hcases) as [Hm2 Hcanon].
  destruct (shr_fexp prec emax m1 e' loc_Exact) as [mrs'' e'']. cbn [fst snd] in *.
  destruct (shr_m mrs'') as [|p|p] eqn:E; [done | | done].
  destruct (Z.leb e'' (emax - prec)) eqn:Hle; [| done].
  unfold is_binary64. cbn [valid_binary]. unfold SpecFloat.bounded, canonical_mantissa.
  rewrite Hle, andb_true_r. apply Z.eqb_eq. apply Hcanon. lia.
Qed.

Lemma Zdigits2_lower (m k : Z) : 0 <= k -> 2 ^ k <= m -> k < Zdigits2 m.
Proof.
  intros Hk Hm.
  assert (0 < m) by (pose proof (Z.pow_pos_nonneg 2 k); lia).
  pose proof (Zdigits2_bounds m ltac:(done)) as [_ Hhi].
  pose proof (Zdigits2_pos m ltac:(done)).
  apply (Z.pow_lt_mono_r_iff 2); lia.
Qed.

(** The quotient that [/] rounds has enough digits: every quotient is a
    binary64 value. *)
Lemma is_binary64_div (x y : number) : is_binary64 (div x y) = true.
Proof.
  destruct x as [sx|sx| |sx mx ex], y as [sy|sy| |sy my ey]; try reflexivity.
  unfold div, SFdiv, SFdiv_core_binary.
  set (d1 := Zdigits2 (Zpos mx)). set (d2 := Zdigits2 (Zpos my)).
  set (e' := Z.min (fexp prec emax (d1 + ex - (d2 + ey))) (ex - ey)).
  set (s := ex - ey - e').
  set (m' := match s with Zpos _ => Z.shiftl (Zpos mx) s | Z0 => Zpos mx | Zneg _ => 0 end).
  assert (Hs : 0 <= s) by (subst s e'; lia).
  assert (Hm' : m' = Zpos mx * 2 ^ s).
  { subst m'. destruct s as [|p|p] eqn:E; try lia.
    by rewrite Z.shiftl_mul_pow2 by lia. }
  pose proof (Z_div_mod m' (Zpos my) ltac:(lia)) as Hdiv.
  destruct (Z.div_eucl m' (Zpos my)) as [q r]. destruct Hdiv as [Hq Hr].
  assert (Hq0 : 0 <= q).
  { assert (0 <= m') by (rewrite Hm'; apply Z.mul_nonneg_nonneg;
      [lia | apply Z.pow_nonneg; lia]). nia. }
  apply is_binary64_round_aux; [done |].
  unfold fexp, emin, prec, emax in *.
  destruct (Z.le_gt_cases e' (-1074)) as [Hle | Hgt]; [lia |].
  assert (Hs' : 53 + d2 - d1 <= s) by (subst s e'; lia).
  pose proof (Zdigits2_bounds (Zpos mx) ltac:(lia)) as [Hlo1 _].
  pose proof (Zdigits2_bounds (Zpos my) ltac:(lia)) as [_ Hhi2].
  pose proof (Zdigits2_pos (Zpos mx) ltac:(lia)) as Hd1.
  pose proof (Zdigits2_pos (Zpos my) ltac:(lia)) as Hd2.
  fold d1 in Hlo1, Hd1. fold d2 in Hhi2, Hd2.
  assert (Hbig : 2 ^ (52 + d2) <= m').
  { rewrite Hm'. etrans; [| apply Z.mul_le_mono_nonneg_r; [apply Z.pow_nonneg; lia | exact Hlo1]].
    rewrite <- Z.pow_add_r by lia. apply Z.pow_le_mono_r; lia. }
  assert (Hq52 : 2 ^ 52 <= q).
  { rewrite Z.pow_add_r in Hbig by lia.
    assert (2 ^ 52 * Zpos my < 2 ^ 52 * 2 ^ d2) by (apply Z.mul_lt_mono_pos_l; lia).
    nia. }
  pose proof (Zdigits2_lower q 52 ltac:(lia) Hq52). lia.
Qed.

End Binary64Order.

(** ** The sort *)

Section SortFacts.
Context {A : Type} (comparefn : A -> A -> number).

Lemma insert_Permutation (x : A) (l : list A) :
  insert comparefn x l ≡ₚ x :: l.
Proof.
  induction l as [|y l IH]; simpl; [done |].
  destruct (gt0 (comparefn x y)); [| done].
  rewrite IH. apply Permutation_swap.
Qed.

Lemma stable_sort_Permutation (l : list A) : stable_sort comparefn l ≡ₚ l.
Proof.
  induction l as [|x l IH]; simpl; [done |].
  by rewrite insert_Permutation, IH.
Qed.

(** Local order needs only that the comparator never asks for both
    swaps. *)
Section Sorted.
Hypothesis antisym : forall x y,
  gt0 (comparefn x y) = true -> gt0 (comparefn y x) = false.

Lemma HdRel_insert (a x : A) (l : list A) :
  keepsOrder comparefn a x -> HdRel (keepsOrder comparefn) a l ->
  HdRel (keepsOrder comparefn) a (insert comparefn x l).
Proof.
  intros Hax Hal. destruct l as [|y l]; simpl.
  - by constructor.
  - destruct (gt0 (comparefn x y)); constructor; [| done].
    by inversion Hal.
Qed.

Lemma Sorted_insert (x : A) (l : list A) :
  Sorted (keepsOrder comparefn) l ->
  Sorted (keepsOrder comparefn) (insert comparefn x l).
Proof.
  induction 1 as [|y l Hl IH Hhd]; simpl.
  - by repeat constructor.
  - destruct (gt0 (comparefn x y)) eqn:E.
    + constructor; [done |].
      apply HdRel_insert; [| done]. by apply antisym.
    + by repeat constructor.
Qed.

Lemma Sorted_stable_sort (l : list A) : Sorted (keepsOrder comparefn) (stable_sort comparefn l).
Proof.
  induction l as [|x l IH]; simpl; [constructor |].
  by apply Sorted_insert.
Qed.

End Sorted.

(** Stability: a class of entries that the comparator never orders
    strictly keeps its original sequence. *)
Section Stable.
Variable P : A -> bool.
Hypothesis tie : forall x y, P x = true -> P y = true -> gt0 (comparefn x y) = false.


End Stable.
End SortFacts.


Lemma keepsOrder_descending (x y : Scored.t) :
  ordinary (Scored.similarity x) = true ->
  ordinary (Scored.similarity y) = true ->
  keepsOrder bySimilarityDesc x y -> descending x y.
Proof.
  unfold ordinary, keepsOrder, bySimilarityDesc, descending.
  intros [Hvx Hnx%negb_true_iff]%andb_true_iff [Hvy Hny%negb_true_iff]%andb_true_iff H.
  rewrite gt0_sub_ltb in H by done. by apply ltb_false_leb.
Qed.

Lemma descending_trans : Transitive descending.
Proof. intros x y z Hxy Hyz. unfold descending in *. by eapply leb_trans. Qed.

(** On ordinary similarities the local order of the comparator is the
    descending order of the values, between any two positions. *)
Lemma Sorted_descending (r : list Scored.t) :
  Forall (fun e => ordinary (Scored.similarity e) = true) r ->
  Sorted (keepsOrder bySimilarityDesc) r ->
  StronglySorted descending r.
Proof.
  intros Hord Hsorted. apply Sorted_StronglySorted; [apply descending_trans |].
  induction Hsorted as [|x l Hl IH Hhd]; [constructor |].
  apply Forall_cons in Hord as [Hx Hord].
  constructor; [by apply IH |].
  destruct Hhd as [|y l' Hxy]; constructor.
  apply Forall_cons in Hord as [Hy _]. by apply keepsOrder_descending.
Qed.

Lemma sort_Permutation (engine : Engine) (scored : list Scored.t) :
  sort engine scored ≡ₚ scored.
Proof.
  unfold sort. destruct (comparable scored).
  - apply stable_sort_Permutation.
  - apply (proj2_sig (arrange engine scored)).
Qed.

Lemma sort_length (engine : Engine) (scored : list Scored.t) :
  length (sort engine scored) = length scored.
Proof. by rewrite sort_Permutation. Qed.

Lemma comparable_spec (scored : list Scored.t) :
  comparable scored = true
  <-> Forall (fun e => is_nan (Scored.similarity e) = false) scored.
Proof.
  unfold comparable. rewrite forallb_forall, Forall_forall.
  split; intros H e He.
  - apply negb_true_iff, H. by apply list_elem_of_In.
  - apply negb_true_iff, H. by apply list_elem_of_In.
Qed.

(** Where no similarity is [NaN] the engine has no say. *)
Lemma sort_comparable (engine : Engine) (scored : list Scored.t) :
  Forall (fun e => is_nan (Scored.similarity e) = false) scored ->
  sort engine scored = stable_sort bySimilarityDesc scored.
Proof. intros H%comparable_spec. unfold sort. by rewrite H. Qed.


(** ** Ranking of related notes *)

(** A similarity is the result of a division, hence a binary64 value. *)
Lemma cosineSimilarity_binary64 (a b : list number) :
  is_binary64 (cosineSimilarity a b) = true.
Proof. apply is_binary64_div. Qed.

Lemma ranked_ordinary (scored r : list Scored.t) :
  Forall (fun e => is_binary64 (Scored.similarity e) = true) scored ->
  r ⊆+ scored ->
  Forall (fun e => is_nan (Scored.similarity e) = false) r ->
  Forall (fun e => ordinary (Scored.similarity e) = true) r.
Proof.
  rewrite !Forall_forall. intros Hvalid Hsub Hnan e He.
  unfold ordinary. rewrite (Hnan e He), andb_true_r.
  apply Hvalid. by eapply elem_of_submseteq.
Qed.

Lemma Array_map_Ok {A B : Type} (f : A -> Result B) (arr : list A) (ys : list B) :
  Array_map f arr = Ok ys <-> Forall2 (fun x y => f x = Ok y) arr ys.
Proof.
  revert ys. induction arr as [|x rest IH]; intros ys; cbn [Array_map].
  - split; [by intros [= <-]; constructor | by intros ->%Forall2_nil_inv_l].
  - split.
    + destruct (f x) as [y|e] eqn:Hx; [| done].
      destruct (Array_map f rest) as [ys'|e]; [| done].
      intros [= <-]. constructor; [done | by apply IH].
    + intros (y & ys' & Hx & Hrest & ->)%Forall2_cons_inv_l.
      rewrite Hx. apply IH in Hrest. by rewrite Hrest.
Qed.

Lemma score_Ok (q : list number) (e : NoteEmbedding.t) (x : Scored.t) :
  score q e = Ok x
  <-> exists b, NoteEmbedding.embedding e = Some b
                /\ x = Scored.mk (NoteEmbedding.path e) (cosineSimilarity q b).
Proof.
  unfold score. destruct (NoteEmbedding.embedding e) as [b|].
  - split; [intros [= <-]; by exists b | by intros (b' & [= <-] & ->)].
  - split; [done | by intros (b' & [=] & _)].
Qed.

(** The candidates are scored when each of them holds a vector, and then
    only. *)
Lemma scored_iff_vectors (q : list number) (entries : list NoteEmbedding.t) :
  (exists scored, Array_map (score q) entries = Ok scored)
  <-> Forall (fun e => is_Some (NoteEmbedding.embedding e)) entries.
Proof.
  split.
  - intros [scored H%Array_map_Ok]. induction H as [|e x l l' Hx _ IH]; [done |].
    constructor; [| done]. apply score_Ok in Hx as (b & Hb & _). by exists b.
  - induction 1 as [|e l [b Hb] _ [scored IH]]; [by exists [] |].
    exists (Scored.mk (NoteEmbedding.path e) (cosineSimilarity q b) :: scored).
    cbn [Array_map]. unfold score at 1. by rewrite Hb, IH.
Qed.

Lemma scored_binary64 (q : list number) (entries : list NoteEmbedding.t)
    (scored : list Scored.t) :
  Array_map (score q) entries = Ok scored ->
  Forall (fun e => is_binary64 (Scored.similarity e) = true) scored.
Proof.
  intros H%Array_map_Ok. induction H as [|e x l l' Hx _ IH]; [done |].
  constructor; [| done]. apply score_Ok in Hx as (b & _ & ->).
  apply cosineSimilarity_binary64.
Qed.

Lemma similarities_Ok engine embeddings activePath q scored :
  Array_map (score q) (candidates embeddings activePath) = Ok scored ->
  similarities engine embeddings activePath q = Ok (take 5 (sort engine scored)).
Proof. intros H. unfold similarities. by rewrite H. Qed.

Lemma similarities_Ok_inv engine embeddings activePath q r :
  similarities engine embeddings activePath q = Ok r ->
  exists scored,
    Array_map (score q) (candidates embeddings activePath) = Ok scored
    /\ r = take 5 (sort engine scored).
Proof.
  unfold similarities.
  destruct (Array_map (score q) (candidates embeddings activePath)) as [scored|e];
    [| done].
  intros [= <-]. by exists scored.
Qed.




Lemma elem_of_candidates (embeddings : list NoteEmbedding.t) activePath e :
  e ∈ candidates embeddings activePath <->
  e ∈ embeddings /\ NoteEmbedding.path e <> activePath.
Proof.
  unfold candidates. rewrite !list_elem_of_In, List.filter_In.
  rewrite negb_true_iff, String.eqb_neq. tauto.
Qed.

Lemma elem_of_scored (q : list number) (entries : list NoteEmbedding.t)
    (scored : list Scored.t) (x : Scored.t) :
  Array_map (score q) entries = Ok scored ->
  x ∈ scored <-> exists e, e ∈ entries /\ score q e = Ok x.
Proof.
  intros H%Array_map_Ok. induction H as [|e y l l' Hy _ IH].
  - split; [by intros ?%elem_of_nil | by intros (e & ?%elem_of_nil & _)].
  - rewrite elem_of_cons, IH. split.
    + intros [-> | (e' & He' & Hx)].
      * exists e. split; [apply list_elem_of_here | done].
      * exists e'. split; [by apply list_elem_of_further | done].
    + intros (e' & [-> | He']%elem_of_cons & Hx).
      * left. congruence.
      * right. by exists e'.
Qed.

Lemma elem_of_similarities engine embeddings activePath q r (x : Scored.t) :
  similarities engine embeddings activePath q = Ok r ->
  x ∈ r ->
  exists e, e ∈ embeddings /\ NoteEmbedding.path e <> activePath
            /\ score q e = Ok x.
Proof.
  intros (scored & Hscored & ->)%similarities_Ok_inv Hx.
  apply (subseteq_take 5) in Hx.
  rewrite sort_Permutation in Hx.
  apply (elem_of_scored _ _ _ _ Hscored) in Hx as (e & He & Hx).
  apply elem_of_candidates in He as [He Hne]. eauto.
Qed.

(** ** Zero vectors *)

Lemma zero_or_nan_add (x y : number) :
  zero_or_nan x = true -> zero_or_nan y = true -> zero_or_nan (x + y)%js = true.
Proof.
  destruct x as [[]|[]| |[] ? ?], y as [[]|[]| |[] ? ?]; cbn; congruence.
Qed.

Lemma zero_or_nan_mul_r (x y : number) :
  zero_or_nan y = true -> zero_or_nan (x * y)%js = true.
Proof.
  destruct x as [[]|[]| |[] ? ?], y as [[]|[]| |[] ? ?]; cbn; congruence.
Qed.

Lemma zero_or_nan_mul_l (x y : number) :
  zero_or_nan x = true -> zero_or_nan (x * y)%js = true.
Proof.
  destruct x as [[]|[]| |[] ? ?], y as [[]|[]| |[] ? ?]; cbn; congruence.
Qed.

Lemma is_zero_square_add (acc x : number) :
  is_zero acc = true -> is_zero x = true -> is_zero (acc + x * x)%js = true.
Proof.
  destruct acc as [[]|[]| |[] ? ?], x as [[]|[]| |[] ? ?]; cbn; congruence.
Qed.

Lemma is_zero_sqrt (x : number) : is_zero x = true -> is_zero (sqrt x) = true.
Proof. destruct x as [[]|[]| |[] ? ?]; cbn; congruence. Qed.

(** Dividing by a zero (or [NaN]) magnitude product never gives a finite
    number. *)
Lemma div_by_zero_or_nan (d m : number) :
  zero_or_nan m = true -> is_finite (d / m)%js = false.
Proof.
  destruct d as [[]|[]| |[] ? ?], m as [[]|[]| |[] ? ?]; cbn; congruence.
Qed.

Lemma div_zero_or_nan (d m : number) :
  zero_or_nan d = true -> zero_or_nan m = true -> (d / m)%js = NaN.
Proof.
  destruct d as [[]|[]| |[] ? ?], m as [[]|[]| |[] ? ?]; cbn;
    intros; first [reflexivity | discriminate].
Qed.

Lemma is_zero_zero_or_nan (x : number) : is_zero x = true -> zero_or_nan x = true.
Proof. unfold zero_or_nan. by intros ->. Qed.

Lemma cosineSimilarity_unfold (a b : list number) :
  cosineSimilarity a b = (dotProduct a b / (magnitude a * magnitude b))%js.
Proof. reflexivity. Qed.

Lemma magnitude_allZero (v : list number) :
  allZero v -> is_zero (magnitude v) = true.
Proof.
  unfold magnitude, reduce. intros Hv. apply is_zero_sqrt.
  generalize 0. assert (Hacc : is_zero zero = true) by reflexivity.
  revert Hacc. generalize zero.
  induction Hv as [|x v Hx Hv IH]; intros acc Hacc i; simpl; [done |].
  apply IH. by apply is_zero_square_add.
Qed.

Lemma index_allZero (b : list number) (i : nat) :
  allZero b -> zero_or_nan (index b i) = true.
Proof.
  unfold index. intros Hb. destruct (b !! i) as [x|] eqn:E; simpl; [| done].
  apply is_zero_zero_or_nan.
  unfold allZero in Hb. rewrite Forall_lookup in Hb. by apply (Hb i).
Qed.

Lemma dotProduct_zero_or_nan (a b : list number) :
  allZero a \/ allZero b -> zero_or_nan (dotProduct a b) = true.
Proof.
  unfold dotProduct, reduce. intros H.
  generalize 0. assert (Hacc : zero_or_nan zero = true) by reflexivity.
  revert Hacc. generalize zero.
  destruct H as [Ha | Hb].
  - induction Ha as [|x a Hx Ha IH]; intros acc Hacc i; simpl; [done |].
    apply IH, zero_or_nan_add; [done |].
    by apply zero_or_nan_mul_l, is_zero_zero_or_nan.
  - induction a as [|x a IH]; intros acc Hacc i; simpl; [done |].
    apply IH, zero_or_nan_add; [done |].
    by apply zero_or_nan_mul_r, index_allZero.
Qed.

(** A computed norm of zero, on either side, makes the similarity [NaN] or
    an infinity. *)
Lemma cosineSimilarity_zero_norm (a b : list number) :
  is_zero (magnitude a) = true \/ is_zero (magnitude b) = true ->
  is_finite (cosineSimilarity a b) = false.
Proof.
  intros H. rewrite cosineSimilarity_unfold. apply div_by_zero_or_nan.
  destruct H as [H | H].
  - by apply zero_or_nan_mul_l, is_zero_zero_or_nan.
  - by apply zero_or_nan_mul_r, is_zero_zero_or_nan.
Qed.

(** With the zero vector on either side it is [NaN]. *)
Lemma cosineSimilarity_allZero (a b : list number) :
  allZero a \/ allZero b -> cosineSimilarity a b = NaN.
Proof.
  intros H. rewrite cosineSimilarity_unfold. apply div_zero_or_nan.
  - by apply dotProduct_zero_or_nan.
  - destruct H as [H | H].
    + by apply zero_or_nan_mul_l, is_zero_zero_or_nan, magnitude_allZero.
    + by apply zero_or_nan_mul_r, is_zero_zero_or_nan, magnitude_allZero.
Qed.

(** With at most five candidates the ranking drops none of them. *)
Lemma similarities_keep_all engine embeddings activePath q e b r :
  e ∈ embeddings -> NoteEmbedding.path e <> activePath ->
  NoteEmbedding.embedding e = Some b ->
  length (candidates embeddings activePath) <= 5 ->
  similarities engine embeddings activePath q = Ok r ->
  Scored.mk (NoteEmbedding.path e) (cosineSimilarity q b) ∈ r.
Proof.
  intros He Hne Hb Hlen (scored & Hscored & ->)%similarities_Ok_inv.
  assert (Hlen' : length scored = length (candidates embeddings activePath)).
  { apply Array_map_Ok, Forall2_length in Hscored. done. }
  rewrite take_ge by (rewrite sort_length; lia).
  rewrite sort_Permutation. apply (elem_of_scored _ _ _ _ Hscored).
  exists e. split; [by apply elem_of_candidates |].
  apply score_Ok. by exists b.
Qed.

(** C3 (amended). Nothing tests a norm for zero.  When the zero vector is
    the candidate's embedding or the query, [cosineSimilarity] returns
    [NaN]; more generally a computed norm of zero on either side gives
    [NaN] or an infinity, never a finite value.  The candidate is ranked
    with that value like any other: among at most five candidates it is
    part of the result. *)
Theorem zero_vector_is_ranked_with_NaN engine embeddings activePath
    currentEmbedding e v :
  e ∈ embeddings ->
  NoteEmbedding.path e <> activePath ->
  NoteEmbedding.embedding e = Some v ->
  is_zero (magnitude v) = true \/ is_zero (magnitude currentEmbedding) = true ->
  is_finite (cosineSimilarity currentEmbedding v) = false
  /\ (allZero v \/ allZero currentEmbedding ->
      cosineSimilarity currentEmbedding v = NaN)
  /\ (length (candidates embeddings activePath) <= 5 ->
      (Forall (fun e => is_Some (NoteEmbedding.embedding e))
              (candidates embeddings activePath) ->
       exists r, similarities engine embeddings activePath currentEmbedding = Ok r)
      /\ forall r,
           similarities engine embeddings activePath currentEmbedding = Ok r ->
           Scored.mk (NoteEmbedding.path e) (cosineSimilarity currentEmbedding v) ∈ r).
Proof.
  intros He Hne Hv Hnorm. repeat split.
  - apply cosineSimilarity_zero_norm. tauto.
  - intros H. apply cosineSimilarity_allZero. tauto.
  - intros [scored Hscored]%(scored_iff_vectors currentEmbedding).
    eexists. by apply similarities_Ok.
  - intros r Hr. by eapply similarities_keep_all.
Qed.

Lemma zero_vector_is_ranked_with_NaN_witness :
  similarities inPlace zeroVectorCache "Q.md" [of_Z 1; of_Z 0]
    = Ok [Scored.mk "Z.md" NaN]
  /\ exists r,
       similarities inPlace zeroVectorCache "Q.md" [of_Z 1; of_Z 0] = Ok r
       /\ Scored.mk "Z.md" NaN ∈ r.
Proof.
  split; [vm_compute; reflexivity |].
  pose proof (zero_vector_is_ranked_with_NaN inPlace zeroVectorCache "Q.md"
                [of_Z 1; of_Z 0]
                (NoteEmbedding.mk "Z.md" (Some [of_Z 0; of_Z 0]) (of_Z 11))
                [of_Z 0; of_Z 0]) as H.
  destruct H as (_ & HNaN & Hin).
  - unfold zeroVectorCache. apply list_elem_of_further, list_elem_of_here.
  - simpl. discriminate.
  - reflexivity.
  - left. vm_compute. reflexivity.
  - simpl in HNaN, Hin. rewrite HNaN in Hin by (left; repeat constructor).
    destruct Hin as [Hex Hin]; [vm_compute; lia |].
    destruct Hex as [r Hr].
    { apply (bool_decide_eq_true_1 _). vm_compute. reflexivity. }
    exists r. split; [exact Hr | by apply Hin].
Defined.

(** C3 as worded fails: the zero-vector note Z is returned, and its
    similarity is [NaN]; the same happens to every candidate when the
    querying note holds the zero vector. *)
Lemma zero_vector_counterexample :
  similarities inPlace zeroVectorCache "Q.md" [of_Z 1; of_Z 0]
    = Ok [Scored.mk "Z.md" NaN]
  /\ similarities inPlace zeroVectorCache "Z.md" [of_Z 0; of_Z 0]
     = Ok [Scored.mk "Q.md" NaN].
Proof. split; vm_compute; reflexivity. Qed.

(** ** The cache array *)

Lemma upsertEmbedding_found embeddings entry i x :
  list_find (fun e => NoteEmbedding.path e = NoteEmbedding.path entry) embeddings
    = Some (i, x) ->
  upsertEmbedding embeddings entry = <[i := entry]> embeddings
  /\ embeddings !! i = Some x
  /\ NoteEmbedding.path x = NoteEmbedding.path entry.
Proof.
  intros E. unfold upsertEmbedding. rewrite E. simpl.
  apply list_find_Some in E as (Hi & Hp & _). done.
Qed.

Lemma upsertEmbedding_fresh embeddings entry :
  list_find (fun e => NoteEmbedding.path e = NoteEmbedding.path entry) embeddings
    = None ->
  upsertEmbedding embeddings entry = embeddings ++ [entry]
  /\ NoteEmbedding.path entry ∉ paths embeddings.
Proof.
  intros E. unfold upsertEmbedding. rewrite E. simpl. split; [done |].
  apply list_find_None in E. unfold paths.
  intros (e & Hp & He)%list_elem_of_fmap.
  rewrite Forall_forall in E. by apply (E e).
Qed.

(** Writing an entry changes the list of paths only by appending a path
    that was absent. *)
Lemma paths_upsertEmbedding embeddings entry :
  paths (upsertEmbedding embeddings entry) = paths embeddings
  \/ (paths (upsertEmbedding embeddings entry)
        = paths embeddings ++ [NoteEmbedding.path entry]
      /\ NoteEmbedding.path entry ∉ paths embeddings).
Proof.
  destruct (list_find (fun e => NoteEmbedding.path e = NoteEmbedding.path entry)
              embeddings) as [[i x]|] eqn:E.
  - left. apply upsertEmbedding_found in E as (-> & Hi & Hp).
    unfold paths. rewrite (list_fmap_insert NoteEmbedding.path).
    apply list_insert_id. by rewrite list_lookup_fmap, Hi, <- Hp.
  - right. apply upsertEmbedding_fresh in E as [-> Hnin].
    split; [| done]. unfold paths. by rewrite map_app.
Qed.

Lemma NoDup_paths_upsertEmbedding embeddings entry :
  NoDup (paths embeddings) -> NoDup (paths (upsertEmbedding embeddings entry)).
Proof.
  intros Hnd. destruct (paths_upsertEmbedding embeddings entry) as [-> | [-> Hnin]];
    [done |].
  apply NoDup_app. repeat split; [done | | apply NoDup_singleton].
  intros p Hp ->%list_elem_of_singleton. done.
Qed.

Lemma cache_step_NoDup embeddings embeddings' :
  cache_step embeddings embeddings' ->
  NoDup (paths embeddings) -> NoDup (paths embeddings').
Proof.
  destruct 1; intros Hnd.
  - by apply NoDup_paths_upsertEmbedding.
  - constructor.
Qed.

Lemma cache_steps_NoDup embeddings embeddings' :
  rtc cache_step embeddings embeddings' ->
  NoDup (paths embeddings) -> NoDup (paths embeddings').
Proof. induction 1; eauto using cache_step_NoDup. Qed.

(** Reading back what was just written. *)
Lemma findEmbedding_upsertEmbedding embeddings entry :
  findEmbedding (upsertEmbedding embeddings entry) (NoteEmbedding.path entry)
    = Some entry.
Proof.
  unfold findEmbedding.
  destruct (list_find (fun e => NoteEmbedding.path e = NoteEmbedding.path entry)
              embeddings) as [[i x]|] eqn:E.
  - pose proof E as (-> & Hi & Hp)%upsertEmbedding_found.
    apply list_find_Some in E as (_ & _ & Hbefore).
    assert (list_find (fun e => NoteEmbedding.path e = NoteEmbedding.path entry)
              (<[i := entry]> embeddings) = Some (i, entry)) as ->; [| done].
    apply list_find_Some. repeat split.
    + apply list_lookup_insert_eq. by eapply lookup_lt_Some.
    + intros j y Hj Hlt. rewrite list_lookup_insert_ne in Hj by lia. eauto.
  - pose proof E as [-> _]%upsertEmbedding_fresh.
    rewrite list_find_app_r by done. simpl.
    by rewrite decide_True.
Qed.

Lemma list_find_insert_irrelevant {A : Type} (P : A -> Prop)
    `{!forall x, Decision (P x)} (l : list A) (i : nat) (y : A) :
  ~ P y -> (forall x, l !! i = Some x -> ~ P x) ->
  list_find P (<[i := y]> l) = list_find P l.
Proof.
  intros Hy. revert i. induction l as [|a l IH]; intros [|i] Hx; simpl; try done.
  - rewrite !decide_False; [done | | done]. by apply Hx.
  - destruct (decide (P a)); [done |]. by rewrite IH.
Qed.

Lemma findEmbedding_upsertEmbedding_ne embeddings entry p :
  p <> NoteEmbedding.path entry ->
  findEmbedding (upsertEmbedding embeddings entry) p = findEmbedding embeddings p.
Proof.
  intros Hne. unfold findEmbedding.
  destruct (list_find (fun e => NoteEmbedding.path e = NoteEmbedding.path entry)
              embeddings) as [[i x]|] eqn:E.
  - apply upsertEmbedding_found in E as (-> & Hi & Hp).
    rewrite list_find_insert_irrelevant; [done | congruence |].
    intros x' Hx'. congruence.
  - apply upsertEmbedding_fresh in E as [-> _].
    destruct (list_find (fun e => NoteEmbedding.path e = p) embeddings)
      as [[j z]|] eqn:F.
    + by rewrite (list_find_app_l _ _ _ _ _ F).
    + rewrite list_find_app_r by done. simpl.
      rewrite decide_False by congruence. done.
Qed.

(** Writing twice to one path leaves what the second write alone leaves. *)
Lemma upsertEmbedding_twice embeddings first second :
  NoteEmbedding.path first = NoteEmbedding.path second ->
  upsertEmbedding (upsertEmbedding embeddings first) second
    = upsertEmbedding embeddings second.
Proof.
  intros Hp.
  pose proof (findEmbedding_upsertEmbedding embeddings first) as Hfind.
  unfold findEmbedding in Hfind. rewrite Hp in Hfind.
  destruct (list_find (fun e => NoteEmbedding.path e = NoteEmbedding.path second)
              (upsertEmbedding embeddings first)) as [[j z]|] eqn:F; [| done].
  simpl in Hfind. injection Hfind as ->.
  unfold upsertEmbedding at 1. rewrite F. simpl.
  destruct (list_find (fun e => NoteEmbedding.path e = NoteEmbedding.path first)
              embeddings) as [[i x]|] eqn:E.
  - pose proof E as (Hup & Hi & _)%upsertEmbedding_found. rewrite Hup in *.
    assert (j = i) as ->.
    { apply list_find_Some in E as (_ & _ & Hbefore).
      apply list_find_Some in F as (Hj & _ & Hbefore').
      destruct (Nat.lt_trichotomy j i) as [Hlt | [-> | Hgt]]; [| done |].
      - rewrite list_lookup_insert_ne in Hj by lia.
        exfalso. by apply (Hbefore j first).
      - exfalso. apply (Hbefore' i first); [| done | done].
        apply list_lookup_insert_eq. by eapply lookup_lt_Some. }
    rewrite list_insert_insert_eq.
    unfold upsertEmbedding. rewrite <- Hp, E. done.
  - pose proof E as [Hup Hnin]%upsertEmbedding_fresh. rewrite Hup in *.
    assert (j = length embeddings) as ->.
    { rewrite list_find_app_r in F.
      - simpl in F. rewrite decide_True in F by done. simpl in F.
        injection F as <-. lia.
      - rewrite <- Hp. done. }
    rewrite insert_app_r_alt by lia. rewrite Nat.sub_diag. simpl.
    unfold upsertEmbedding. rewrite <- Hp, E. done.
Qed.

Lemma filter_insert_irrelevant {A : Type} (f : A -> bool) (l : list A) i y :
  f y = false -> (forall x, l !! i = Some x -> f x = false) ->
  List.filter f (<[i := y]> l) = List.filter f l.
Proof.
  intros Hy. revert i. induction l as [|a l IH]; intros [|i] Hx; simpl; try done.
  - by rewrite Hy, (Hx a).
  - by rewrite IH.
Qed.

Lemma otherThan_false p e : otherThan p e = false <-> NoteEmbedding.path e = p.
Proof. unfold otherThan. by rewrite negb_false_iff, String.eqb_eq. Qed.

(** The frame of a write: entries under other paths, and their order. *)
Lemma upsertEmbedding_frame embeddings entry :
  List.filter (otherThan (NoteEmbedding.path entry)) (upsertEmbedding embeddings entry)
    = List.filter (otherThan (NoteEmbedding.path entry)) embeddings
  /\ (forall i e, embeddings !! i = Some e ->
        NoteEmbedding.path e <> NoteEmbedding.path entry ->
        upsertEmbedding embeddings entry !! i = Some e).
Proof.
  destruct (list_find (fun e => NoteEmbedding.path e = NoteEmbedding.path entry)
              embeddings) as [[i x]|] eqn:E.
  - apply upsertEmbedding_found in E as (-> & Hi & Hp). split.
    + apply filter_insert_irrelevant; [by apply otherThan_false |].
      intros x' Hx'. apply otherThan_false. congruence.
    + intros j e Hj Hne. rewrite list_lookup_insert_ne; [done |].
      intros ->. congruence.
  - apply upsertEmbedding_fresh in E as [-> _]. split.
    + rewrite List.filter_app. simpl.
      rewrite (proj2 (otherThan_false _ entry)) by done. by rewrite app_nil_r.
    + intros j e Hj _. by apply lookup_app_l_Some.
Qed.

(** ** The methods, seen from the cache *)

Ltac run_monad_core :=
  cbv [bind ret throw await get modify try_catch exec eval
       Notice console_error saveSettings] in *;
  cbn [fst snd] in *.

Ltac run_monad :=
  cbv [getEmbedding getOpenAIEmbedding getOllamaEmbedding] in *;
  run_monad_core.

Lemma getEmbedding_exec env text st : exec (getEmbedding env text) st = st.
Proof.
  run_monad.
  destruct (String.eqb (aiProvider (settings st)) "ollama").
  - by destruct (ollama_embeddings env _ _ text).
  - destruct (String.eqb (aiProvider (settings st)) "openai"); [| done].
    by destruct (openai_embeddings env _ text).
Qed.

Lemma getEmbedding_config env text st st' :
  config (settings st) = config (settings st') ->
  eval (getEmbedding env text) st = eval (getEmbedding env text) st'.
Proof.
  unfold config. intros [= H1 H2 H3 H4 H5 H6].
  run_monad. rewrite H6.
  destruct (String.eqb (aiProvider (settings st')) "ollama").
  - cbn. by rewrite H3, H4.
  - destruct (String.eqb (aiProvider (settings st')) "openai"); [| done].
    cbn. by rewrite H1.
Qed.

Lemma embedOutcome_config env file st st' :
  config (settings st) = config (settings st') ->
  embedOutcome env st file = embedOutcome env st' file.
Proof.
  intros Hc. unfold embedOutcome, eval, bind, await.
  destruct (vault_read env file) as [content|e]; [| done].
  apply (getEmbedding_config env content) in Hc. unfold eval in Hc.
  destruct (getEmbedding env content st), (getEmbedding env content st').
  simpl in *. by subst.
Qed.

(** [updateNoteEmbedding] writes the cache exactly when the read and the
    embedding call returned, by one [upsertEmbedding]; otherwise it throws
    with the state untouched. *)
Lemma updateNoteEmbedding_outcome env file st :
  let st' := exec (updateNoteEmbedding env file) st in
  config (settings st') = config (settings st)
  /\ chatHistory st' = chatHistory st
  /\ match embedOutcome env st file with
     | Ok v => cache st' = upsertEmbedding (cache st) (entryOf file v)
     | Throw e => st' = st /\ eval (updateNoteEmbedding env file) st = Throw e
     end.
Proof.
  cbn zeta. unfold embedOutcome, updateNoteEmbedding.
  pose proof (getEmbedding_exec env) as Hexec.
  run_monad_core.
  destruct (vault_read env file) as [content|e]; [| done].
  specialize (Hexec content st).
  destruct (getEmbedding env content st) as [[v|e] st1]; simpl in Hexec; subst st1;
    [| done].
  cbn. by destruct (saveData env _).
Qed.

Lemma updateOrLog_outcome env file st :
  let st' := exec (updateOrLog env file) st in
  eval (updateOrLog env file) st = Ok tt
  /\ config (settings st') = config (settings st)
  /\ chatHistory st' = chatHistory st
  /\ cache st' = indexStep env st (cache st) file.
Proof.
  cbn zeta. unfold indexStep.
  destruct (updateNoteEmbedding_outcome env file st) as (Hc & Hh & Hcache).
  unfold updateOrLog. run_monad_core.
  destruct (updateNoteEmbedding env file st) as [[[]|e] st1]; cbn in *.
  - repeat split; try done.
    destruct (embedOutcome env st file); [done |]. by destruct Hcache.
  - repeat split; try done.
    destruct (embedOutcome env st file); [done |]. destruct Hcache as [-> _]. done.
Qed.

Lemma updateEach_outcome env files st0 st :
  config (settings st) = config (settings st0) ->
  let st' := exec (updateEach env files) st in
  eval (updateEach env files) st = Ok tt
  /\ config (settings st') = config (settings st0)
  /\ chatHistory st' = chatHistory st
  /\ cache st' = foldl (indexStep env st0) (cache st) files.
Proof.
  cbn zeta. revert st. induction files as [|file rest IH]; intros st Hc; [done |].
  destruct (updateOrLog_outcome env file st) as (Hev & Hc1 & Hh1 & Hcache1).
  cbn [updateEach foldl]. unfold exec, eval in *. unfold bind.
  destruct (updateOrLog env file st) as [[[]|e] st1]; cbn in *; [| done].
  destruct (IH st1) as (Hev2 & Hc2 & Hh2 & Hcache2); [congruence |].
  repeat split; try done; try congruence.
  rewrite Hcache2, Hcache1. unfold indexStep.
  by rewrite (embedOutcome_config env file st st0).
Qed.

Lemma bind_unfold {A B : Type} (m : M A) (k : A -> M B) (st : State) :
  bind m k st
  = match m st with
    | (Ok a, st') => k a st'
    | (Throw e, st') => (Throw e, st')
    end.
Proof. reflexivity. Qed.

Lemma Notice_unfold message st :
  Notice message st = (Ok tt, set_notices (fun l => l ++ [message]) st).
Proof. reflexivity. Qed.

Lemma updateAllEmbeddings_outcome env st :
  let st' := exec (updateAllEmbeddings env) st in
  eval (updateAllEmbeddings env) st = Ok tt
  /\ config (settings st') = config (settings st)
  /\ chatHistory st' = chatHistory st
  /\ cache st' = foldl (indexStep env st) (cache st) (getMarkdownFiles env).
Proof.
  cbn zeta.
  destruct (updateEach_outcome env (getMarkdownFiles env) st
              (set_notices (fun l => l ++ ["Computing note embeddings..."]) st)
              eq_refl)
    as (Hev & Hrest).
  unfold updateAllEmbeddings, try_catch, exec, eval in *.
  rewrite bind_unfold, Notice_unfold.
  destruct (updateEach env (getMarkdownFiles env) _) as [[[]|e] st1];
    cbn in *; [done | discriminate].
Qed.

Lemma clearEmbeddings_outcome env st :
  let st' := exec (clearEmbeddings env) st in
  config (settings st') = config (settings st)
  /\ chatHistory st' = chatHistory st
  /\ cache st' = [].
Proof.
  cbn zeta. unfold clearEmbeddings. run_monad_core. cbn.
  by destruct (saveData env _).
Qed.

Lemma foldl_indexStep_config env st st' embeddings files :
  config (settings st) = config (settings st') ->
  foldl (indexStep env st) embeddings files
    = foldl (indexStep env st') embeddings files.
Proof.
  intros Hc. revert embeddings.
  induction files as [|file rest IH]; intros embeddings; [done |].
  cbn [foldl]. rewrite IH. unfold indexStep.
  by rewrite (embedOutcome_config env file st st').
Qed.

Lemma rebuildCache_outcome env st :
  let st' := exec (rebuildCache env) st in
  config (settings st') = config (settings st)
  /\ chatHistory st' = chatHistory st
  /\ (cache st' = []
      \/ cache st' = foldl (indexStep env st) [] (getMarkdownFiles env)).
Proof.
  cbn zeta. unfold rebuildCache, exec.
  rewrite bind_unfold, Notice_unfold.
  remember (set_notices _ st) as st1 eqn:Hst1.
  assert (Hc1 : config (settings st1) = config (settings st)) by by subst.
  assert (Hh1 : chatHistory st1 = chatHistory st) by by subst.
  clear Hst1.
  destruct (clearEmbeddings_outcome env st1) as (Hc2 & Hh2 & Hcache2).
  unfold exec in *. rewrite bind_unfold.
  destruct (clearEmbeddings env st1) as [[[]|e] st2]; cbn [snd] in *.
  2: { repeat split; try congruence. by left. }
  destruct (updateAllEmbeddings_outcome env st2) as (Hev & Hc3 & Hh3 & Hcache3).
  unfold exec, eval in *. rewrite bind_unfold.
  destruct (updateAllEmbeddings env st2) as [[[]|e] st3]; cbn [fst snd] in *;
    [| done].
  rewrite Notice_unfold. cbn [snd].
  change (cache (set_notices _ st3)) with (cache st3).
  change (settings (set_notices _ st3)) with (settings st3).
  change (chatHistory (set_notices _ st3)) with (chatHistory st3).
  repeat split; try congruence.
  right. rewrite Hcache3, Hcache2.
  apply foldl_indexStep_config. congruence.
Qed.

(** ** The cache invariant *)

Lemma indexStep_steps env st embeddings file :
  rtc cache_step embeddings (indexStep env st embeddings file).
Proof.
  unfold indexStep. destruct (embedOutcome env st file); [| done].
  apply rtc_once. constructor.
Qed.

Lemma foldl_indexStep_steps env st embeddings files :
  rtc cache_step embeddings (foldl (indexStep env st) embeddings files).
Proof.
  revert embeddings. induction files as [|file rest IH]; intros embeddings; [done |].
  cbn [foldl]. etrans; [apply indexStep_steps | apply IH].
Qed.

(** Each operation changes the cache by a sequence of atomic writes. *)
Lemma run_op_steps env op st :
  rtc cache_step (cache st) (cache (exec (run_op env op) st)).
Proof.
  destruct op as [file| | |]; cbn [run_op].
  - destruct (updateNoteEmbedding_outcome env file st) as (_ & _ & H).
    destruct (embedOutcome env st file).
    + rewrite H. apply rtc_once. constructor.
    + by destruct H as [-> _].
  - destruct (clearEmbeddings_outcome env st) as (_ & _ & ->).
    apply rtc_once. constructor.
  - destruct (updateAllEmbeddings_outcome env st) as (_ & _ & _ & ->).
    apply foldl_indexStep_steps.
  - destruct (rebuildCache_outcome env st) as (_ & _ & [-> | ->]).
    + apply rtc_once. constructor.
    + etrans; [apply rtc_once, step_clear | apply foldl_indexStep_steps].
Qed.

Lemma run_ops_steps ops st :
  rtc cache_step (cache st) (cache (run_ops ops st)).
Proof.
  unfold run_ops. revert st.
  induction ops as [|[env op] ops IH]; intros st; [done |].
  cbn [foldl]. etrans; [apply run_op_steps | apply IH].
Qed.

(** C4. Whatever operations run from a cache with one entry per path —
    updates of single notes, clearing, indexing passes, rebuilds, each in
    the environment of its moment, throwing or not — the cache they leave
    has one entry per path, and so has every cache that further atomic
    writes (an operation under way, interleaved updates) lead to. *)
Theorem cache_one_entry_per_path ops st :
  NoDup (paths (cache st)) ->
  NoDup (paths (cache (run_ops ops st)))
  /\ (forall embeddings,
        rtc cache_step (cache (run_ops ops st)) embeddings ->
        NoDup (paths embeddings)).
Proof.
  intros Hnd.
  assert (NoDup (paths (cache (run_ops ops st)))) as Hnd'.
  { eapply cache_steps_NoDup; [apply run_ops_steps | done]. }
  split; [done |]. intros embeddings Hsteps.
  by eapply cache_steps_NoDup.
Qed.

Lemma cache_one_entry_per_path_witness :
  NoDup (paths (cache ollamaState))
  /\ NoDup (paths (cache (run_ops
       [(vaultEnv, OpUpdateAll); (blankNoteEnv, OpUpdate noteA);
        (vaultEnv, OpRebuild); (vaultEnv, OpUpdate noteC)] ollamaState))).
Proof.
  assert (H : NoDup (paths (cache ollamaState))) by (vm_compute; constructor).
  split; [exact H |].
  exact (proj1 (cache_one_entry_per_path
    [(vaultEnv, OpUpdateAll); (blankNoteEnv, OpUpdate noteA);
     (vaultEnv, OpRebuild); (vaultEnv, OpUpdate noteC)] ollamaState H)).
Defined.

(** ** Round trip and replacement *)

(** C5. When a note has been read and its embedding has come back, the
    cache entry found under its path right after [updateNoteEmbedding] is
    exactly the new path, embedding and modification time; and a second
    update of that path
    leaves the cache that this second update alone would have left: nothing
    of the first entry remains. *)
Theorem upsert_get_roundtrip env st file v :
  embedOutcome env st file = Ok v ->
  let st' := exec (updateNoteEmbedding env file) st in
  findEmbedding (cache st') (TFile.path file) = Some (entryOf file v)
  /\ (forall env2 file2 v2,
        TFile.path file2 = TFile.path file ->
        embedOutcome env2 st' file2 = Ok v2 ->
        let st'' := exec (updateNoteEmbedding env2 file2) st' in
        cache st'' = upsertEmbedding (cache st) (entryOf file2 v2)
        /\ findEmbedding (cache st'') (TFile.path file) = Some (entryOf file2 v2)).
Proof.
  intros Hv. cbn zeta.
  destruct (updateNoteEmbedding_outcome env file st) as (_ & _ & H).
  rewrite Hv in H. rewrite H. split.
  - apply (findEmbedding_upsertEmbedding (cache st) (entryOf file v)).
  - intros env2 file2 v2 Hp Hv2.
    destruct (updateNoteEmbedding_outcome env2 file2
                (exec (updateNoteEmbedding env file) st)) as (_ & _ & H2).
    rewrite Hv2, H in H2. rewrite H2.
    rewrite upsertEmbedding_twice by (simpl; congruence).
    split; [done |]. rewrite <- Hp.
    apply (findEmbedding_upsertEmbedding (cache st) (entryOf file2 v2)).
Qed.

Lemma upsert_get_roundtrip_witness :
  findEmbedding (cache (exec (updateNoteEmbedding vaultEnv noteA) ollamaState)) "A.md"
  = Some (NoteEmbedding.mk "A.md" (Some [of_Z 12; of_Z 1]) (of_Z 100)).
Proof.
  refine (proj1 (upsert_get_roundtrip vaultEnv ollamaState noteA
                   (Some [of_Z 12; of_Z 1]) _)).
  vm_compute. reflexivity.
Defined.

(** ** Frame of an update *)

(** C10. [updateNoteEmbedding] on a note of path [p] — and so every
    successful one — leaves each cache entry of another path where it was,
    unchanged, and the sequence of those entries as it was. *)
Theorem updateNoteEmbedding_frame env st file :
  let st' := exec (updateNoteEmbedding env file) st in
  List.filter (otherThan (TFile.path file)) (cache st')
    = List.filter (otherThan (TFile.path file)) (cache st)
  /\ (forall i e, cache st !! i = Some e ->
        NoteEmbedding.path e <> TFile.path file ->
        cache st' !! i = Some e).
Proof.
  cbn zeta.
  destruct (updateNoteEmbedding_outcome env file st) as (_ & _ & H).
  destruct (embedOutcome env st file) as [v|e].
  - rewrite H. apply (upsertEmbedding_frame (cache st) (entryOf file v)).
  - by destruct H as [-> _].
Qed.

(** ** The related-notes flow *)

(** When [findRelatedNotes] reaches its ranking, the active note has just
    been read, embedded and written to the cache, and the ranking is
    [similarities] over that cache with the vector just written as the
    query. *)
Lemma findRelatedNotes_ranking env st r :
  eval (findRelatedNotes env) st = Ok (Some r) ->
  exists activeFile v,
    getActiveFile env = Some activeFile
    /\ embedOutcome env st activeFile = Ok (Some v)
    /\ similarities (engine env)
         (upsertEmbedding (cache st) (entryOf activeFile (Some v)))
         (TFile.path activeFile) v = Ok r.
Proof.
  unfold findRelatedNotes.
  destruct (getActiveFile env) as [activeFile|]; [| by run_monad_core].
  intros H. exists activeFile.
  set (st0 := set_chatMessages (fun l => l ++ [(user, "Finding related notes...")]) st).
  destruct (updateNoteEmbedding_outcome env activeFile st0) as (_ & _ & Hcache).
  rewrite (embedOutcome_config env activeFile st0 st eq_refl) in Hcache.
  change (cache st0) with (cache st) in Hcache.
  unfold addChatMessage in H. run_monad_core. fold st0 in H.
  destruct (updateNoteEmbedding env activeFile st0) as [[[]|e] st1];
    cbn [fst snd] in *; [| discriminate].
  destruct (embedOutcome env st activeFile) as [v|e]; [| by destruct Hcache].
  rewrite Hcache in H.
  change (TFile.path activeFile)
    with (NoteEmbedding.path (entryOf activeFile v)) in H at 1.
  rewrite findEmbedding_upsertEmbedding in H.
  cbn [mbind option_bind entryOf NoteEmbedding.embedding NoteEmbedding.path] in H.
  destruct v as [v|]; [| discriminate].
  exists v. split; [done |]. split; [done |].
  destruct (similarities _ _ _ _) as [r'|e]; cbn in H; [| discriminate].
  congruence.
Qed.

(** The store of the earlier revision filters nothing: asked for at least
    as many results as it holds entries, [search] returns a score for each
    of them, the note the query came from included if it is indexed. *)
Lemma VectorStore_search_keeps_all engine store queryEmbedding k note :
  note ∈ store -> VectorStore.size store <= k ->
  Scored.mk (VectorStore.path note)
    (cosineSimilarity queryEmbedding (VectorStore.embedding note))
    ∈ VectorStore.search engine store queryEmbedding k.
Proof.
  intros Hin Hk. unfold VectorStore.search, VectorStore.size in *.
  rewrite take_ge by (by rewrite sort_length, length_map).
  rewrite sort_Permutation.
  by apply (list_elem_of_fmap_2 (fun note => Scored.mk (VectorStore.path note)
              (cosineSimilarity queryEmbedding (VectorStore.embedding note)))).
Qed.

(** C2 (amended). The ranking built by [findRelatedNotes] never names the
    active note itself: whatever the cache, the active path and the query
    vector, no entry of [similarities] carries the active path; and so
    whenever the flow, started in any state and environment, reaches its
    ranking, the path of the active file is not among the paths ranked.
    [VectorStore.search] knows a query vector only and excludes nothing:
    every entry of the store is scored, and a store of at most [k] entries
    is returned whole, the entry of the note the query was made from
    included. *)
Theorem similarities_exclude_active :
  (forall engine embeddings activePath currentEmbedding r,
     similarities engine embeddings activePath currentEmbedding = Ok r ->
     activePath ∉ map Scored.path r)
  /\ (forall env st activeFile r,
        getActiveFile env = Some activeFile ->
        eval (findRelatedNotes env) st = Ok (Some r) ->
        TFile.path activeFile ∉ map Scored.path r)
  /\ (forall engine store queryEmbedding k note,
        note ∈ store -> VectorStore.size store <= k ->
        VectorStore.path note
          ∈ map Scored.path (VectorStore.search engine store queryEmbedding k)).
Proof.
  assert (H : forall engine embeddings activePath currentEmbedding r,
             similarities engine embeddings activePath currentEmbedding = Ok r ->
             activePath ∉ map Scored.path r).
  { intros engine embeddings activePath q r Hr Hin.
    apply list_elem_of_fmap in Hin as (x & Hpath & Hx).
    apply (elem_of_similarities _ _ _ _ _ _ Hr) in Hx as (e & _ & Hne & Hx).
    apply score_Ok in Hx as (b & _ & ->).
    simpl in Hpath. congruence. }
  split; [exact H |]. split.
  - intros env st activeFile r Hactive Hrun.
    apply findRelatedNotes_ranking in Hrun as (file & v & Hactive' & _ & Hr).
    rewrite Hactive in Hactive'. injection Hactive' as <-. by eapply H.
  - intros engine store q k note Hin Hk.
    apply list_elem_of_fmap.
    exists (Scored.mk (VectorStore.path note)
              (cosineSimilarity q (VectorStore.embedding note))).
    split; [done | by apply VectorStore_search_keeps_all].
Qed.

Lemma similarities_exclude_active_witness :
  eval (findRelatedNotes vaultEnv) (exec (updateAllEmbeddings vaultEnv) ollamaState)
  = Ok (Some [Scored.mk "C.md" (of_Z 1)])
  /\ "A.md" ∉ map Scored.path [Scored.mk "C.md" (of_Z 1)].
Proof.
  assert (E : eval (findRelatedNotes vaultEnv)
                (exec (updateAllEmbeddings vaultEnv) ollamaState)
              = Ok (Some [Scored.mk "C.md" (of_Z 1)])) by (vm_compute; reflexivity).
  split; [exact E |].
  exact (proj1 (proj2 similarities_exclude_active) vaultEnv
           (exec (updateAllEmbeddings vaultEnv) ollamaState) noteA
           [Scored.mk "C.md" (of_Z 1)] eq_refl E).
Defined.

(** C2 as worded fails in the earlier revision: after [indexAllNotes] the
    store holds the active note A, the search made from A's own text
    ranks A first, and "Find Related Notes" writes A into A's own list. *)
Lemma similarities_exclude_active_counterexample :
  let st := Legacy.exec (Legacy.indexAllNotes legacyVault) legacyStart in
  Legacy.getActiveFile legacyVault = Some noteA
  /\ map Scored.path
       (VectorStore.search inPlace (Legacy.vectorStore st) [of_Z 5; of_Z 1] 3)
     = ["A.md"; "C.md"]
  /\ Legacy.vaultWrites
       (Legacy.exec (Legacy.findRelatedNotes legacyVault sampleNumberText) st)
     = [("A.md",
         "Alpha" ++ nl ++ nl ++ "---" ++ nl ++ "**Related Notes:**" ++ nl
           ++ "- [[A.md]] (100% similar)" ++ nl
           ++ "- [[C.md]] (99% similar)" ++ nl)%string].
Proof. cbn zeta. repeat split; vm_compute; reflexivity. Qed.

(** ** Indexing pass *)

Lemma findEmbedding_foldl_indexStep_other env st embeddings files p :
  p ∉ map TFile.path files ->
  findEmbedding (foldl (indexStep env st) embeddings files) p
    = findEmbedding embeddings p.
Proof.
  revert embeddings. induction files as [|file rest IH]; intros embeddings Hp;
    [done |].
  rewrite map_cons in Hp. apply not_elem_of_cons in Hp as [Hne Hp].
  cbn [foldl]. rewrite IH by done.
  unfold indexStep. destruct (embedOutcome env st file) as [v|e]; [| done].
  by apply findEmbedding_upsertEmbedding_ne.
Qed.

Lemma findEmbedding_foldl_indexStep env st embeddings files file v :
  NoDup (map TFile.path files) ->
  file ∈ files ->
  embedOutcome env st file = Ok v ->
  findEmbedding (foldl (indexStep env st) embeddings files) (TFile.path file)
    = Some (entryOf file v).
Proof.
  revert embeddings. induction files as [|f rest IH]; intros embeddings Hnd Hin Hv.
  - by apply elem_of_nil in Hin.
  - rewrite map_cons in Hnd. apply NoDup_cons in Hnd as [Hf Hnd].
    cbn [foldl]. apply elem_of_cons in Hin as [<- | Hin].
    + rewrite findEmbedding_foldl_indexStep_other by done.
      unfold indexStep. rewrite Hv.
      apply (findEmbedding_upsertEmbedding embeddings (entryOf file v)).
    + by apply IH.
Qed.

Lemma consoleErrors_updateNoteEmbedding env file st :
  consoleErrors (exec (updateNoteEmbedding env file) st) = consoleErrors st.
Proof.
  unfold updateNoteEmbedding.
  pose proof (getEmbedding_exec env) as Hexec.
  run_monad_core.
  destruct (vault_read env file) as [content|e]; [| done].
  specialize (Hexec content st).
  destruct (getEmbedding env content st) as [[v|e] st1]; simpl in Hexec; subst st1;
    [| done].
  cbn. by destruct (saveData env _).
Qed.

(** The message the loop logs for a note. *)
Lemma updateOrLog_logs env file st :
  let st' := exec (updateOrLog env file) st in
  consoleErrors st `prefix_of` consoleErrors st'
  /\ forall e, embedOutcome env st file = Throw e ->
       ("Error processing " ++ TFile.path file ++ ": " ++ e)%string
         ∈ consoleErrors st'.
Proof.
  cbn zeta.
  pose proof (consoleErrors_updateNoteEmbedding env file st) as Hlog.
  destruct (updateNoteEmbedding_outcome env file st) as (_ & _ & H).
  unfold updateOrLog. run_monad_core.
  destruct (updateNoteEmbedding env file st) as [[[]|e'] st1]; cbn in *.
  - rewrite Hlog. split; [done |]. intros e He. rewrite He in H.
    by destruct H.
  - rewrite Hlog. split; [by apply prefix_app_r |].
    intros e He. rewrite He in H. destruct H as [_ [= ->]].
    apply elem_of_app. right. apply list_elem_of_here.
Qed.

Lemma updateEach_logs env files st0 st file e :
  config (settings st) = config (settings st0) ->
  file ∈ files ->
  embedOutcome env st0 file = Throw e ->
  ("Error processing " ++ TFile.path file ++ ": " ++ e)%string
    ∈ consoleErrors (exec (updateEach env files) st)
  /\ consoleErrors st `prefix_of` consoleErrors (exec (updateEach env files) st).
Proof.
  intros Hc Hin He.
  assert (Hmono : forall fs s, consoleErrors s
            `prefix_of` consoleErrors (exec (updateEach env fs) s)).
  { clear. induction fs as [|f fs IH]; intros s; [done |].
    destruct (updateOrLog_logs env f s) as [Hpre _].
    destruct (updateOrLog_outcome env f s) as (Hev & _).
    cbn [updateEach]. unfold exec, eval in *. rewrite bind_unfold.
    destruct (updateOrLog env f s) as [[[]|e'] s1]; cbn in *; [| done].
    etrans; [exact Hpre | apply IH]. }
  split; [| apply Hmono].
  revert st Hc. induction files as [|f rest IH]; intros st Hc.
  - by apply elem_of_nil in Hin.
  - destruct (updateOrLog_logs env f st) as [Hpre Hlog].
    destruct (updateOrLog_outcome env f st) as (Hev & Hc1 & _).
    specialize (Hmono rest).
    cbn [updateEach]. unfold exec, eval in *. rewrite bind_unfold.
    destruct (updateOrLog env f st) as [[[]|e'] st1]; cbn in *; [| done].
    apply elem_of_cons in Hin as [<- | Hin].
    + eapply elem_of_prefix; [| apply Hmono].
      apply Hlog. by rewrite (embedOutcome_config env file st st0).
    + apply IH; [done | congruence].
Qed.

(** X26. An indexing pass never throws, whatever throws inside it.  From
    the cache's side it is the passage, in order, over the notes whose
    read and embedding call returned, the others being skipped: so each
    such note of the vault is found in the cache afterwards with what the
    call returned and its time, and for each note whose read or call
    threw, the error is on the console. *)
Theorem updateAllEmbeddings_isolates_failures env st :
  NoDup (map TFile.path (getMarkdownFiles env)) ->
  let st' := exec (updateAllEmbeddings env) st in
  eval (updateAllEmbeddings env) st = Ok tt
  /\ cache st' = foldl (indexStep env st) (cache st) (getMarkdownFiles env)
  /\ (forall file v,
        file ∈ getMarkdownFiles env ->
        embedOutcome env st file = Ok v ->
        findEmbedding (cache st') (TFile.path file) = Some (entryOf file v))
  /\ (forall file e,
        file ∈ getMarkdownFiles env ->
        embedOutcome env st file = Throw e ->
        ("Error processing " ++ TFile.path file ++ ": " ++ e)%string
          ∈ consoleErrors st').
Proof.
  intros Hnd. cbn zeta.
  destruct (updateAllEmbeddings_outcome env st) as (Hev & _ & _ & Hcache).
  repeat split; [done | done | |].
  - intros file v Hin Hv. rewrite Hcache.
    by apply findEmbedding_foldl_indexStep.
  - intros file e Hin He.
    set (st1 := set_notices (fun l => l ++ ["Computing note embeddings..."]) st).
    destruct (updateEach_logs env (getMarkdownFiles env) st st1 file e eq_refl Hin He)
      as [Hlog _].
    destruct (updateEach_outcome env (getMarkdownFiles env) st st1 eq_refl)
      as (Hev' & _).
    unfold updateAllEmbeddings, try_catch, exec, eval in *.
    rewrite bind_unfold, Notice_unfold. fold st1.
    destruct (updateEach env (getMarkdownFiles env) st1) as [[[]|e'] st2];
      cbn in *; [done | discriminate].
Qed.

Lemma updateAllEmbeddings_isolates_failures_witness :
  embedOutcome vaultEnv ollamaState noteB = Throw "ENOENT"
  /\ paths (cache (exec (updateAllEmbeddings vaultEnv) ollamaState)) = ["A.md"; "C.md"]
  /\ findEmbedding (cache (exec (updateAllEmbeddings vaultEnv) ollamaState)) "C.md"
     = Some (NoteEmbedding.mk "C.md" (Some [of_Z 12; of_Z 1]) (of_Z 300))
  /\ "Error processing B.md: ENOENT"
       ∈ consoleErrors (exec (updateAllEmbeddings vaultEnv) ollamaState).
Proof.
  assert (Hnd : NoDup (map TFile.path (getMarkdownFiles vaultEnv))).
  { apply (bool_decide_eq_true_1 _). vm_compute. reflexivity. }
  destruct (updateAllEmbeddings_isolates_failures vaultEnv ollamaState Hnd)
    as (_ & _ & Hok & Hlog).
  split; [vm_compute; reflexivity |].
  split; [vm_compute; reflexivity |].
  split.
  - apply (Hok noteC (Some [of_Z 12; of_Z 1])).
    + unfold vaultEnv. cbn [getMarkdownFiles].
      apply list_elem_of_further, list_elem_of_further, list_elem_of_here.
    + vm_compute. reflexivity.
  - apply (Hlog noteB "ENOENT").
    + unfold vaultEnv. cbn [getMarkdownFiles].
      apply list_elem_of_further, list_elem_of_here.
    + vm_compute. reflexivity.
Defined.

(** C9, the failing run.  The local provider answers the text of note B
    with an error reply.  [getOllamaEmbedding] does not test
    [response.ok], as [callOllama] does, and returns the [undefined] of
    the missing property: nothing is thrown, so the loop has nothing to
    log or to skip, and B is cached without a vector.  A search made from
    note A afterwards throws on that entry and ends with the error line,
    although A and C were indexed. *)
Theorem updateAllEmbeddings_caches_error_reply :
  let st' := exec (updateAllEmbeddings errorReplyEnv) ollamaState in
  embedOutcome errorReplyEnv ollamaState noteB = Ok None
  /\ eval (updateAllEmbeddings errorReplyEnv) ollamaState = Ok tt
  /\ cache st'
     = [ NoteEmbedding.mk "A.md" (Some [of_Z 12; of_Z 1]) (of_Z 100);
         NoteEmbedding.mk "B.md" None (of_Z 200);
         NoteEmbedding.mk "C.md" (Some [of_Z 12; of_Z 1]) (of_Z 300) ]
  /\ consoleErrors st' = []
  /\ eval (findRelatedNotes errorReplyEnv) st' = Ok None
  /\ consoleErrors (exec (findRelatedNotes errorReplyEnv) st')
     = [("Error finding related notes: " ++ TypeError "0")%string].
Proof. cbn zeta. repeat split; vm_compute; reflexivity. Qed.

(** ** A cache entry without a vector *)

Lemma candidates_upsertEmbedding embeddings entry :
  candidates (upsertEmbedding embeddings entry) (NoteEmbedding.path entry)
  = candidates embeddings (NoteEmbedding.path entry).
Proof. apply (proj1 (upsertEmbedding_frame embeddings entry)). Qed.

(** [findRelatedNotes] catches what its steps throw. *)
Lemma findRelatedNotes_returns env st :
  exists ranking, eval (findRelatedNotes env) st = Ok ranking.
Proof.
  unfold findRelatedNotes.
  destruct (getActiveFile env) as [activeFile|]; [| by eexists].
  unfold addChatMessage. run_monad_core.
  match goal with
  | |- context [updateNoteEmbedding env activeFile ?s] =>
      destruct (updateNoteEmbedding env activeFile s) as [[[]|e] st1]
  end; cbn [fst snd]; [| by eexists].
  destruct (findEmbedding (cache st1) (TFile.path activeFile)
              ≫= NoteEmbedding.embedding) as [currentEmbedding|]; [| by eexists].
  destruct (similarities _ _ _ _); by eexists.
Qed.

(** X27. The related-notes search needs a vector in every other entry of
    the cache: it reaches a ranking only when each candidate holds one.
    One entry cached without a vector, of whatever note, makes the search
    from every other note end in its error branch, until that entry is
    overwritten or the cache rebuilt. *)
Theorem findRelatedNotes_needs_every_vector env st activeFile :
  getActiveFile env = Some activeFile ->
  (forall r, eval (findRelatedNotes env) st = Ok (Some r) ->
     Forall (fun e => is_Some (NoteEmbedding.embedding e))
            (candidates (cache st) (TFile.path activeFile)))
  /\ (forall e, e ∈ cache st ->
        NoteEmbedding.path e <> TFile.path activeFile ->
        NoteEmbedding.embedding e = None ->
        eval (findRelatedNotes env) st = Ok None).
Proof.
  intros Hactive.
  assert (Hranked : forall r, eval (findRelatedNotes env) st = Ok (Some r) ->
            Forall (fun e => is_Some (NoteEmbedding.embedding e))
                   (candidates (cache st) (TFile.path activeFile))).
  { intros r Hr. apply findRelatedNotes_ranking in Hr as (file & v & Hfile & _ & Hr).
    rewrite Hactive in Hfile. injection Hfile as <-.
    apply similarities_Ok_inv in Hr as (scored & Hscored & _).
    change (TFile.path activeFile)
      with (NoteEmbedding.path (entryOf activeFile (Some v))) in Hscored.
    rewrite candidates_upsertEmbedding in Hscored.
    apply (scored_iff_vectors v). by exists scored. }
  split; [exact Hranked |].
  intros e He Hne Hnone.
  destruct (eval (findRelatedNotes env) st) as [[r|]|error] eqn:Hev; [| done |].
  - specialize (Hranked r eq_refl). rewrite Forall_forall in Hranked.
    destruct (Hranked e) as [b Hb]; [by apply elem_of_candidates | congruence].
  - destruct (findRelatedNotes_returns env st) as [ranking Hranking]. congruence.
Qed.

Lemma findRelatedNotes_needs_every_vector_witness :
  eval (findRelatedNotes errorReplyEnv)
       (exec (updateAllEmbeddings errorReplyEnv) ollamaState) = Ok None.
Proof.
  apply (proj2 (findRelatedNotes_needs_every_vector errorReplyEnv
                  (exec (updateAllEmbeddings errorReplyEnv) ollamaState) noteA
                  eq_refl)
           (NoteEmbedding.mk "B.md" None (of_Z 200))).
  - assert (E : cache (exec (updateAllEmbeddings errorReplyEnv) ollamaState)
                = [ NoteEmbedding.mk "A.md" (Some [of_Z 12; of_Z 1]) (of_Z 100);
                    NoteEmbedding.mk "B.md" None (of_Z 200);
                    NoteEmbedding.mk "C.md" (Some [of_Z 12; of_Z 1]) (of_Z 300) ])
      by (vm_compute; reflexivity).
    rewrite E. apply list_elem_of_further, list_elem_of_here.
  - cbn. discriminate.
  - reflexivity.
Defined.

(** ** Embedding a text *)

(** C6 (amended). [getEmbedding] looks at no character of its text: for
    every text, blank or not, it returns what the endpoint of the selected
    provider returns for it, and throws only when that call throws or the
    provider name is unknown.  [updateNoteEmbedding] on a note holding that
    text then writes the cache with what came back, and leaves the whole
    state as it was when the call threw. *)
Theorem getEmbedding_forwards_any_text env st text :
  getEmbedding env text st
    = (if String.eqb (aiProvider (settings st)) "ollama" then
         ollama_embeddings env (ollamaEndpoint (settings st))
           (ollamaModel (settings st)) text
       else if String.eqb (aiProvider (settings st)) "openai" then
         openai_embeddings env (openaiApiKey (settings st)) text
       else Throw "Invalid AI provider",
       st)
  /\ (forall file,
        vault_read env file = Ok text ->
        match eval (getEmbedding env text) st with
        | Ok v =>
            cache (exec (updateNoteEmbedding env file) st)
              = upsertEmbedding (cache st) (entryOf file v)
        | Throw e =>
            exec (updateNoteEmbedding env file) st = st
            /\ eval (updateNoteEmbedding env file) st = Throw e
        end).
Proof.
  split.
  - run_monad.
    destruct (String.eqb (aiProvider (settings st)) "ollama"); [done |].
    by destruct (String.eqb (aiProvider (settings st)) "openai").
  - intros file Hread.
    destruct (updateNoteEmbedding_outcome env file st) as (_ & _ & H).
    unfold embedOutcome in H. unfold eval in *. rewrite bind_unfold in H.
    unfold await in H. rewrite Hread in H. exact H.
Qed.

Lemma getEmbedding_forwards_any_text_witness :
  eval (getEmbedding blankNoteEnv "   ") ollamaState = Ok (Some [of_Z 3; of_Z 1])
  /\ cache (exec (updateNoteEmbedding blankNoteEnv noteA) ollamaState)
     = [NoteEmbedding.mk "A.md" (Some [of_Z 3; of_Z 1]) (of_Z 100)].
Proof.
  split; [vm_compute; reflexivity |].
  pose proof (proj2 (getEmbedding_forwards_any_text blankNoteEnv ollamaState "   ")
                noteA eq_refl) as H.
  vm_compute in H. vm_compute. exact H.
Defined.

(** C6 as worded fails: for a note of three spaces the embedding call
    succeeds with the provider's vector, and the cache gains an entry. *)
Lemma blank_text_counterexample :
  eval (getEmbedding blankNoteEnv "   ") ollamaState = Ok (Some [of_Z 3; of_Z 1])
  /\ eval (updateNoteEmbedding blankNoteEnv noteA) ollamaState = Ok tt
  /\ cache ollamaState = []
  /\ cache (exec (updateNoteEmbedding blankNoteEnv noteA) ollamaState)
     = [NoteEmbedding.mk "A.md" (Some [of_Z 3; of_Z 1]) (of_Z 100)].
Proof. repeat split; vm_compute; reflexivity. Qed.

(** ** Completion without a credential *)

(** C8 (amended). With the cloud provider selected and no key entered, a
    completion request shows the notice about the missing key, sends
    nothing, and returns the text "Error: API key not found." to its caller
    as the completion: nothing is thrown, and the caller goes on with that
    text. *)
Theorem callAI_missing_key env st inputText prompt :
  aiProvider (settings st) = "openai" ->
  openaiApiKey (settings st) = "" ->
  callAI env inputText prompt st
    = (Ok missingKeyReply, set_notices (fun l => l ++ [missingKeyNotice]) st)
  /\ forall messages,
       callAIWithHistory env messages st
         = (Ok missingKeyReply, set_notices (fun l => l ++ [missingKeyNotice]) st).
Proof.
  intros Hprov Hkey.
  unfold callAI, callAIWithHistory. run_monad_core.
  rewrite Hprov. cbn.
  unfold callOpenAI. run_monad_core. rewrite Hkey. cbn. done.
Qed.

Lemma callAI_missing_key_witness :
  callAI offlineEnv "Meeting notes" "Summarize this note in 3 bullet points"
    initialState
  = (Ok missingKeyReply,
     set_notices (fun l => l ++ [missingKeyNotice]) initialState).
Proof.
  exact (proj1 (callAI_missing_key offlineEnv initialState "Meeting notes"
                  "Summarize this note in 3 bullet points" eq_refl eq_refl)).
Defined.

(** C8 as worded fails: with the key field empty (as by default, or after
    the user clears it in the settings tab) [callAI] returns normally, and
    [summarizeNote] appends the returned text to the note as its summary
    and announces success. *)
Lemma missing_key_counterexample :
  openaiApiKey (settings initialState) = ""
  /\ eval (callAI offlineEnv "Meeting notes" "Summarize this note in 3 bullet points")
       initialState = Ok "Error: API key not found."
  /\ eval (summarizeNote offlineEnv) initialState = Ok tt
  /\ vaultWrites (exec (summarizeNote offlineEnv) initialState)
     = [("A.md",
         ("Meeting notes" ++ nl ++ nl ++ "---" ++ nl ++ "**AI Summary:**" ++ nl
            ++ "Error: API key not found.")%string)]
  /\ "✅ Summary added to the note!"
       ∈ notices (exec (summarizeNote offlineEnv) initialState).
Proof.
  repeat split; try (vm_compute; reflexivity).
  apply (bool_decide_eq_true_1 _). vm_compute. reflexivity.
Qed.

(** ** The chat turn *)

Lemma keepsMessage_spec msg : keepsMessage msg = true <-> ~ carriesNoteContent msg.
Proof.
  unfold keepsMessage, carriesNoteContent.
  destruct msg as [[] content]; cbn [ChatMessage.role ChatMessage.content];
    destruct (String.prefix noteContentMarker content); cbn;
    intuition congruence.
Qed.

Ltac run_calls :=
  cbv [callAIWithHistory callAI callOllama callOpenAI] in *; run_monad_core.

(** Case analysis along a completion request: provider, key, answer. *)
Ltac split_call env s :=
  destruct (String.eqb (aiProvider s) "ollama"); cbn;
  [ try (destruct (ollama_generate env _ _ _); cbn)
  | destruct (String.eqb (aiProvider s) "openai"); cbn;
    [ destruct (String.eqb (openaiApiKey s) ""); cbn;
      [ | try (destruct (openai_chat env _ _ _); cbn) ]
    | ] ].

(** A completion request leaves the history alone, and its result depends
    on the settings only. *)
Lemma callAIWithHistory_chatHistory env messages st :
  chatHistory (exec (callAIWithHistory env messages) st) = chatHistory st.
Proof.
  run_calls. split_call env (settings st); done.
Qed.

Lemma callAIWithHistory_settings env messages st st' :
  settings st = settings st' ->
  eval (callAIWithHistory env messages) st = eval (callAIWithHistory env messages) st'.
Proof.
  destruct st, st'. cbn [settings]. intros <-.
  run_calls. cbn [settings]. split_call env settings0; done.
Qed.

(** The history a turn leaves, by the way the turn goes. *)
Lemma handleUserInput_chatHistory env st input :
  chatHistory (exec (handleUserInput env input) st)
  = let asked := chatHistory st ++ [ChatMessage.mk user input] in
    match getActiveFile env with
    | None => asked
    | Some activeFile =>
        match vault_read env activeFile with
        | Throw _ => asked
        | Ok content =>
            let composed :=
              asked ++ [ChatMessage.mk system
                          (noteContentMarker ++ nl ++ content)%string] in
            match eval (callAIWithHistory env composed) st with
            | Ok response =>
                List.filter keepsMessage
                  (composed ++ [ChatMessage.mk assistant response])
            | Throw _ => composed
            end
        end
    end.
Proof.
  cbn zeta. unfold handleUserInput, addChatMessage, pushHistory.
  destruct (getActiveFile env) as [activeFile|]; [| done].
  run_monad_core.
  destruct (vault_read env activeFile) as [content|e]; [| done].
  cbn [chatHistory set_chatHistory set_chatMessages].
  match goal with
  | |- context [callAIWithHistory env ?msgs ?st2] =>
      pose proof (callAIWithHistory_chatHistory env msgs st2) as Hh;
      pose proof (callAIWithHistory_settings env msgs st2 st eq_refl) as He;
      unfold exec, eval in Hh, He;
      destruct (callAIWithHistory env msgs st2) as [[response|e] st3]
  end; cbn in *; rewrite <- He; cbn; by rewrite Hh.
Qed.

(** When the note is read and the completion returns, the turn ends with
    the marker messages filtered out. *)
Lemma handleUserInput_success env st input activeFile content response :
  getActiveFile env = Some activeFile ->
  vault_read env activeFile = Ok content ->
  eval (callAIWithHistory env
          (chatHistory st
             ++ [ChatMessage.mk user input]
             ++ [ChatMessage.mk system (noteContentMarker ++ nl ++ content)%string]))
       st = Ok response ->
  Forall (fun msg => ~ carriesNoteContent msg)
         (chatHistory (exec (handleUserInput env input) st)).
Proof.
  intros Hactive Hread Hcall.
  rewrite handleUserInput_chatHistory, Hactive, Hread. cbn zeta.
  rewrite <- app_assoc, Hcall.
  apply Forall_forall. intros msg Hin.
  apply list_elem_of_In, List.filter_In in Hin as [_ Hkeep].
  by apply keepsMessage_spec.
Qed.

Lemma prefix_append (s t : string) : String.prefix s (s ++ t)%string = true.
Proof.
  induction s as [|a s IH].
  - by destruct t.
  - change (String a s ++ t)%string with (String a (s ++ t)%string).
    cbn [String.prefix]. destruct (Ascii.ascii_dec a a); [exact IH | done].
Qed.

(** When the completion throws, the note's text stays in the history. *)
Lemma handleUserInput_failure env st input activeFile content e :
  getActiveFile env = Some activeFile ->
  vault_read env activeFile = Ok content ->
  eval (callAIWithHistory env
          (chatHistory st
             ++ [ChatMessage.mk user input]
             ++ [ChatMessage.mk system (noteContentMarker ++ nl ++ content)%string]))
       st = Throw e ->
  Exists carriesNoteContent (chatHistory (exec (handleUserInput env input) st)).
Proof.
  intros Hactive Hread Hcall.
  rewrite handleUserInput_chatHistory, Hactive, Hread. cbn zeta.
  rewrite <- app_assoc, Hcall.
  apply Exists_app. right. apply Exists_cons_tl, Exists_cons_hd.
  split; [done |]. apply prefix_append.
Qed.

(** C7, the failing run. The note is read, the cloud call fails: the turn
    ends in the [catch] branch, past the filter, and the history keeps the
    system message with the note's text. *)
Theorem handleUserInput_failure_keeps_note_content :
  chatHistory (exec (handleUserInput offlineEnv "hello") openaiState)
  = [ systemPrompt;
      ChatMessage.mk user "hello";
      ChatMessage.mk system (noteContentMarker ++ nl ++ "Meeting notes")%string ]
  /\ Exists carriesNoteContent
       (chatHistory (exec (handleUserInput offlineEnv "hello") openaiState)).
Proof.
  assert (E : chatHistory (exec (handleUserInput offlineEnv "hello") openaiState)
    = [ systemPrompt;
        ChatMessage.mk user "hello";
        ChatMessage.mk system (noteContentMarker ++ nl ++ "Meeting notes")%string ])
    by (vm_compute; reflexivity).
  split; [exact E |]. rewrite E.
  apply Exists_cons_tl, Exists_cons_tl, Exists_cons_hd.
  split; vm_compute; reflexivity.
Qed.

(** ** Further properties *)

Lemma mul_comm (x y : number) : (x * y)%js = (y * x)%js.
Proof.
  destruct x as [sx|sx| |sx mx ex], y as [sy|sy| |sy my ey]; cbn;
    rewrite ?(xorb_comm sx sy); try reflexivity.
  by rewrite (Pos.mul_comm mx my), (Z.add_comm ex ey).
Qed.

Lemma index_app_length (pre b : list number) (y : number) :
  index (pre ++ y :: b) (length pre) = y.
Proof. unfold index. by rewrite list_lookup_middle. Qed.

Lemma dotProduct_comm_from (a b pa pb : list number) (acc : number) :
  length a = length b -> length pa = length pb ->
  reduce_from (fun sum val i => sum + val * index (pb ++ b) i)%js
    (length pb) acc a
  = reduce_from (fun sum val i => sum + val * index (pa ++ a) i)%js
      (length pb) acc b.
Proof.
  revert b pa pb acc.
  induction a as [|x a IH]; intros [|y b] pa pb acc Hlen Hpre; try done.
  cbn [reduce_from].
  rewrite index_app_length. rewrite <- Hpre at 3. rewrite index_app_length.
  rewrite (mul_comm y x).
  replace (S (length pb)) with (length (pb ++ [y])) by (rewrite length_app; cbn; lia).
  rewrite (cons_middle y pb b), (cons_middle x pa a), !app_assoc.
  apply IH.
  - cbn in Hlen. lia.
  - rewrite !length_app. cbn. lia.
Qed.

(** X2. For vectors of one length the similarity does not depend on the
    order of its arguments. *)
Theorem cosineSimilarity_comm (a b : list number) :
  length a = length b -> cosineSimilarity a b = cosineSimilarity b a.
Proof.
  intros Hlen. rewrite !cosineSimilarity_unfold.
  rewrite (mul_comm (magnitude a) (magnitude b)). f_equal.
  unfold dotProduct, reduce.
  apply (dotProduct_comm_from a b [] [] zero Hlen eq_refl).
Qed.

Lemma cosineSimilarity_comm_witness :
  cosineSimilarity [of_Z 3; of_Z 4] [of_Z 1; of_Z 0]
  = cosineSimilarity [of_Z 1; of_Z 0] [of_Z 3; of_Z 4].
Proof. exact (cosineSimilarity_comm [of_Z 3; of_Z 4] [of_Z 1; of_Z 0] eq_refl). Defined.

(** X3. When the note is read and the completion returns, the turn ends
    with no system message carrying the note-content marker in the
    history. *)
Theorem handleUserInput_strips_on_success env st input activeFile content response :
  getActiveFile env = Some activeFile ->
  vault_read env activeFile = Ok content ->
  eval (callAIWithHistory env
          (chatHistory st
             ++ [ChatMessage.mk user input]
             ++ [ChatMessage.mk system (noteContentMarker ++ nl ++ content)%string]))
       st = Ok response ->
  chatHistory (exec (handleUserInput env input) st)
  = List.filter keepsMessage
      (chatHistory st
         ++ [ ChatMessage.mk user input;
              ChatMessage.mk system (noteContentMarker ++ nl ++ content)%string;
              ChatMessage.mk assistant response ])
  /\ Forall (fun msg => ~ carriesNoteContent msg)
            (chatHistory (exec (handleUserInput env input) st)).
Proof.
  intros Hactive Hread Hcall. split.
  - rewrite handleUserInput_chatHistory, Hactive, Hread. cbn zeta.
    rewrite <- app_assoc, Hcall. by rewrite <- !app_assoc.
  - by eapply handleUserInput_success.
Qed.

Lemma handleUserInput_strips_on_success_witness :
  chatHistory (exec (handleUserInput vaultEnv "hello") ollamaState)
  = [ systemPrompt; ChatMessage.mk user "hello"; ChatMessage.mk assistant "A reply." ].
Proof.
  pose proof (proj1 (handleUserInput_strips_on_success vaultEnv ollamaState "hello"
                       noteA "Text of A.md" "A reply." eq_refl eq_refl eq_refl)) as H.
  vm_compute in H. vm_compute. exact H.
Defined.

(** X4. On similarities that are not [NaN], the comparator of the ranking
    is positive exactly when its first argument has the smaller
    similarity. *)
Theorem bySimilarityDesc_positive (a b : Scored.t) :
  ordinary (Scored.similarity a) = true ->
  ordinary (Scored.similarity b) = true ->
  gt0 (bySimilarityDesc a b) = ltb (Scored.similarity a) (Scored.similarity b).
Proof.
  unfold ordinary, bySimilarityDesc.
  intros [Hva Hna%negb_true_iff]%andb_true_iff [Hvb Hnb%negb_true_iff]%andb_true_iff.
  by apply gt0_sub_ltb.
Qed.

Lemma bySimilarityDesc_positive_witness :
  gt0 (bySimilarityDesc (Scored.mk "B.md" zero) (Scored.mk "A.md" (of_Z 1))) = true.
Proof.
  rewrite (bySimilarityDesc_positive (Scored.mk "B.md" zero) (Scored.mk "A.md" (of_Z 1)));
    vm_compute; reflexivity.
Defined.

(** ** Clearing the history *)

Lemma keepsMessage_marker (content : string) :
  keepsMessage (ChatMessage.mk system (noteContentMarker ++ nl ++ content)%string) = false.
Proof.
  unfold keepsMessage. cbn [ChatMessage.role ChatMessage.content Role_eqb negb orb].
  by rewrite prefix_append.
Qed.

(** X1. "Clear History" does nothing when the dialog is declined.  When it
    is accepted, the history is the one system prompt of the start, the
    bubbles are gone, settings and cache are untouched: also a message with
    note content, left by a turn that failed, is gone.  A turn that then
    succeeds leaves exactly the prompt, the question and the answer. *)
Theorem clearHistory_restores_start (host : Host) (st : State) :
  (confirm host "Are you sure you want to clear the chat history?" = false ->
   onClickClearHistory host st = (Ok tt, st))
  /\ (confirm host "Are you sure you want to clear the chat history?" = true ->
      let st' := exec (onClickClearHistory host) st in
      eval (onClickClearHistory host) st = Ok tt
      /\ chatHistory st' = [systemPrompt]
      /\ chatMessages st' = []
      /\ settings st' = settings st
      /\ notices st'
         = notices st ++ ["Chat history has been cleared"; "Chat history cleared!"]
      /\ forall input activeFile content response,
           getActiveFile host = Some activeFile ->
           vault_read host activeFile = Ok content ->
           eval (callAIWithHistory host
                   [ systemPrompt; ChatMessage.mk user input;
                     ChatMessage.mk system (noteContentMarker ++ nl ++ content)%string ])
                st = Ok response ->
           chatHistory (exec (handleUserInput host input) st')
           = [ systemPrompt; ChatMessage.mk user input;
               ChatMessage.mk assistant response ]).
Proof.
  unfold onClickClearHistory. split; intros Hconfirm; rewrite Hconfirm; [done |].
  cbn zeta.
  set (st' := exec (clearHistory;; Notice "Chat history cleared!") st).
  assert (Hh : chatHistory st' = [systemPrompt]) by reflexivity.
  assert (Hs : settings st' = settings st) by reflexivity.
  split; [reflexivity |]. split; [exact Hh |]. split; [reflexivity |].
  split; [exact Hs |]. split.
  { subst st'. unfold clearHistory. run_monad_core. cbn. by rewrite <- app_assoc. }
  intros input activeFile content response Hactive Hread Hcall.
  rewrite handleUserInput_chatHistory, Hactive, Hread. cbn zeta.
  rewrite Hh. cbn [app].
  rewrite (callAIWithHistory_settings host _ st' st Hs), Hcall.
  cbn [List.filter app]. rewrite keepsMessage_marker.
  reflexivity.
Qed.

Lemma clearHistory_restores_start_witness :
  chatHistory (exec (onClickClearHistory vaultHost)
                 (exec (handleUserInput offlineEnv "hello") openaiState))
  = [systemPrompt].
Proof.
  exact (proj1 (proj2 (proj2 (clearHistory_restores_start vaultHost
           (exec (handleUserInput offlineEnv "hello") openaiState)) eq_refl))).
Defined.

(** * Further properties of the code *)

(** ** Vectors of different lengths *)

Lemma add_NaN_l (x : number) : (NaN + x)%js = NaN.
Proof. reflexivity. Qed.

Lemma add_NaN_r (x : number) : (x + NaN)%js = NaN.
Proof. by destruct x as [| [] | |]. Qed.

Lemma mul_NaN_r (x : number) : (x * NaN)%js = NaN.
Proof. by destruct x as [| [] | |]. Qed.

Lemma div_NaN_l (x : number) : (NaN / x)%js = NaN.
Proof. reflexivity. Qed.

Lemma reduce_from_NaN (b : list number) (arr : list number) (i : nat) :
  reduce_from (fun sum val i => sum + val * index b i)%js i NaN arr = NaN.
Proof.
  revert i. induction arr as [|val rest IH]; intros i; [done |].
  cbn [reduce_from]. rewrite add_NaN_l. apply IH.
Qed.

Lemma reduce_from_past_end (b : list number) (arr : list number) (i : nat)
    (acc : number) :
  i <= length b -> length b < i + length arr ->
  reduce_from (fun sum val i => sum + val * index b i)%js i acc arr = NaN.
Proof.
  revert i acc. induction arr as [|val rest IH]; intros i acc Hi Hlen.
  - simpl in Hlen. lia.
  - cbn [reduce_from]. destruct (decide (length b <= i)) as [Hge | Hlt].
    + unfold index at 2. rewrite (lookup_ge_None_2 b i) by done. cbn [default].
      rewrite mul_NaN_r, add_NaN_r. apply reduce_from_NaN.
    + apply IH; simpl in Hlen; lia.
Qed.

(** X5. When the candidate vector is shorter than the query vector (a
    cache entry made by a provider of another dimension), the similarity
    is [NaN]: reading past the end of [b] gives [undefined]. *)
Theorem cosineSimilarity_shorter_candidate (a b : list number) :
  length b < length a -> cosineSimilarity a b = NaN.
Proof.
  intros Hlen. unfold cosineSimilarity, reduce.
  rewrite reduce_from_past_end by (simpl; lia). apply div_NaN_l.
Qed.

Lemma cosineSimilarity_shorter_candidate_witness :
  cosineSimilarity [of_Z 1; of_Z 2; of_Z 3] [of_Z 1; of_Z 2] = NaN.
Proof.
  apply (cosineSimilarity_shorter_candidate [of_Z 1; of_Z 2; of_Z 3]
           [of_Z 1; of_Z 2]).
  simpl. lia.
Defined.

(** ** The five returned are the five best *)

(** X6. When every candidate holds a vector and none scores [NaN], the
    ranking is a choice of the best: the candidates split into the ranking
    and a rest, and no entry of the rest has a similarity above that of an
    entry returned. *)
Theorem similarities_are_the_best engine embeddings activePath currentEmbedding
    scored :
  Array_map (score currentEmbedding) (candidates embeddings activePath) = Ok scored ->
  Forall (fun e => is_nan (Scored.similarity e) = false) scored ->
  exists r rest,
    similarities engine embeddings activePath currentEmbedding = Ok r
    /\ r ++ rest ≡ₚ scored
    /\ forall x y,
         x ∈ r -> y ∈ rest ->
         leb (Scored.similarity y) (Scored.similarity x) = true.
Proof.
  intros Hscored Hnan.
  exists (take 5 (sort engine scored)), (drop 5 (sort engine scored)).
  split; [by apply similarities_Ok |].
  rewrite take_drop. split; [apply sort_Permutation |].
  rewrite (sort_comparable engine scored Hnan).
  assert (Hstrong : StronglySorted descending (stable_sort bySimilarityDesc scored)).
  { apply Sorted_descending.
    - apply (ranked_ordinary scored).
      + by eapply scored_binary64.
      + by rewrite stable_sort_Permutation.
      + by rewrite stable_sort_Permutation.
    - apply Sorted_stable_sort. intros x y. apply gt0_sub_antisym. }
  rewrite <- (take_drop 5 (stable_sort bySimilarityDesc scored)) in Hstrong.
  intros x y Hx Hy.
  exact (StronglySorted_app_1_elem_of descending _ _ x y Hstrong Hx Hy).
Qed.

Lemma similarities_are_the_best_witness :
  exists r rest,
    similarities inPlace wideCache "Q.md" [of_Z 1; of_Z 0] = Ok r
    /\ map Scored.path r = ["A.md"; "F.md"; "D.md"; "B.md"; "E.md"]
    /\ length rest = 2
    /\ forall x y,
         x ∈ r -> y ∈ rest ->
         leb (Scored.similarity y) (Scored.similarity x) = true.
Proof.
  destruct (similarities_are_the_best inPlace wideCache "Q.md" [of_Z 1; of_Z 0]
              (map (fun e => Scored.mk (NoteEmbedding.path e)
                      (cosineSimilarity [of_Z 1; of_Z 0]
                         (default [] (NoteEmbedding.embedding e))))
                   (candidates wideCache "Q.md")))
    as (r & rest & Hr & Hperm & Hbest).
  - vm_compute. reflexivity.
  - apply (bool_decide_eq_true_1 _). vm_compute. reflexivity.
  - exists r, rest. split; [exact Hr |].
    apply Permutation_length in Hperm. rewrite length_app in Hperm.
    vm_compute in Hr. injection Hr as <-.
    split; [reflexivity |]. split; [| exact Hbest].
    cbn in Hperm. lia.
Defined.

(** ** What updates never remove *)

Lemma paths_upsertEmbedding_prefix embeddings entry :
  paths embeddings `prefix_of` paths (upsertEmbedding embeddings entry).
Proof.
  destruct (paths_upsertEmbedding embeddings entry) as [-> | [-> _]].
  - done.
  - by apply prefix_app_r.
Qed.

Lemma paths_indexStep_prefix env st embeddings file :
  paths embeddings `prefix_of` paths (indexStep env st embeddings file).
Proof.
  unfold indexStep. destruct (embedOutcome env st file); [| done].
  apply paths_upsertEmbedding_prefix.
Qed.

Lemma paths_foldl_indexStep_prefix env st embeddings files :
  paths embeddings `prefix_of` paths (foldl (indexStep env st) embeddings files).
Proof.
  revert embeddings. induction files as [|file rest IH]; intros embeddings; [done |].
  cbn [foldl]. etrans; [apply paths_indexStep_prefix | apply IH].
Qed.

(** X7. Single updates and indexing passes never remove an entry nor move
    one: whatever sequence of them runs, the paths of the cache before are
    the first paths of the cache after.  The entry of a note that was
    deleted or renamed stays until the cache is rebuilt. *)
Theorem cache_paths_only_grow (ops : list (Env * CacheOp)) (st : State) :
  Forall (fun eo => keepsEntries eo.2 = true) ops ->
  paths (cache st) `prefix_of` paths (cache (run_ops ops st)).
Proof.
  unfold run_ops. revert st.
  induction ops as [|[env op] ops IH]; intros st Hops; [done |].
  apply Forall_cons in Hops as [Hop Hops]. cbn [foldl].
  etrans; [| by apply IH].
  destruct op as [file| | |]; try discriminate; cbn [run_op].
  - destruct (updateNoteEmbedding_outcome env file st) as (_ & _ & H).
    destruct (embedOutcome env st file).
    + rewrite H. apply paths_upsertEmbedding_prefix.
    + by destruct H as [-> _].
  - destruct (updateAllEmbeddings_outcome env st) as (_ & _ & _ & ->).
    apply paths_foldl_indexStep_prefix.
Qed.

Lemma cache_paths_only_grow_witness :
  paths (cache (run_ops [(vaultEnv, OpUpdate noteC); (vaultEnv, OpUpdateAll)]
                  (set_settings (set_embeddings staleCache) ollamaState)))
  = ["D.md"; "C.md"; "A.md"]
  /\ ["D.md"; "C.md"]
       `prefix_of` paths (cache (run_ops [(vaultEnv, OpUpdate noteC);
                                          (vaultEnv, OpUpdateAll)]
                                   (set_settings (set_embeddings staleCache)
                                      ollamaState))).
Proof.
  split; [vm_compute; reflexivity |].
  apply (cache_paths_only_grow [(vaultEnv, OpUpdate noteC); (vaultEnv, OpUpdateAll)]
           (set_settings (set_embeddings staleCache) ollamaState)).
  repeat constructor.
Defined.

(** ** Rebuilding *)

Lemma paths_upsertEmbedding_fresh embeddings entry :
  NoteEmbedding.path entry ∉ paths embeddings ->
  upsertEmbedding embeddings entry = embeddings ++ [entry].
Proof.
  intros Hnin.
  destruct (list_find (fun e => NoteEmbedding.path e = NoteEmbedding.path entry)
              embeddings) as [[i x]|] eqn:E.
  - exfalso. apply Hnin. apply list_find_Some in E as (Hi & Hp & _).
    unfold paths. apply list_elem_of_fmap. exists x. split; [done |].
    by eapply list_elem_of_lookup_2.
  - by apply upsertEmbedding_fresh in E as [-> _].
Qed.

Lemma indexed_cons env st file rest :
  indexed env st (file :: rest)
  = match embedOutcome env st file with
    | Ok v => entryOf file v :: indexed env st rest
    | Throw _ => indexed env st rest
    end.
Proof.
  unfold indexed. cbn [omap list_omap]. by destruct (embedOutcome env st file).
Qed.

Lemma foldl_indexStep_indexed env st embeddings files :
  NoDup (paths embeddings ++ map TFile.path files) ->
  foldl (indexStep env st) embeddings files = embeddings ++ indexed env st files.
Proof.
  revert embeddings. induction files as [|file rest IH]; intros embeddings Hnd.
  - by rewrite app_nil_r.
  - cbn [foldl]. rewrite indexed_cons.
    rewrite map_cons in Hnd.
    apply NoDup_app in Hnd as (Hnd1 & Hdisj & [Hfile Hnd2]%NoDup_cons).
    unfold indexStep. destruct (embedOutcome env st file) as [v|e]; cbn.
    + rewrite paths_upsertEmbedding_fresh.
      2: { intros Hin. apply (Hdisj _ Hin). apply list_elem_of_here. }
      rewrite IH; [by rewrite <- app_assoc |].
      unfold paths. rewrite map_app. cbn. rewrite <- app_assoc. cbn.
      apply NoDup_app. repeat split; [done | | by apply NoDup_cons].
      intros p Hp. apply (Hdisj p Hp).
    + apply IH. apply NoDup_app. repeat split; [done | | done].
      intros p Hp Hin. apply (Hdisj p Hp). by apply list_elem_of_further.
Qed.

(** X8. "Rebuild Cache" leaves no stale entry: every path in the cache
    afterwards is the path of a note of the vault whose read and embedding
    call both returned.  When the vault's paths are distinct and the save
    that follows the emptying succeeds, the rebuilt cache is exactly one
    entry for each such note, in the order of the vault, holding what the
    call returned: a vector, or nothing after an error reply of the local
    provider.  When that save is rejected the rebuild throws, the cache
    emptied and nothing indexed. *)
Theorem rebuildCache_leaves_no_stale_entry (env : Env) (st : State) :
  let st' := exec (rebuildCache env) st in
  (forall p, p ∈ paths (cache st') ->
     exists file v, file ∈ getMarkdownFiles env /\ TFile.path file = p
                    /\ embedOutcome env st file = Ok v)
  /\ (NoDup (map TFile.path (getMarkdownFiles env)) ->
      saveData env (set_embeddings [] (settings st)) = Ok tt ->
      eval (rebuildCache env) st = Ok tt
      /\ cache st' = indexed env st (getMarkdownFiles env))
  /\ (forall e, saveData env (set_embeddings [] (settings st)) = Throw e ->
      eval (rebuildCache env) st = Throw e /\ cache st' = []).
Proof.
  cbn zeta.
  assert (Hin : forall files p, p ∈ paths (foldl (indexStep env st) [] files) ->
            exists file v, file ∈ files /\ TFile.path file = p
                           /\ embedOutcome env st file = Ok v).
  { intros files p.
    assert (Hgen : forall embeddings,
              p ∈ paths (foldl (indexStep env st) embeddings files) ->
              p ∈ paths embeddings
              \/ exists file v, file ∈ files /\ TFile.path file = p
                                /\ embedOutcome env st file = Ok v).
    { induction files as [|f rest IH]; intros embeddings Hp; [by left |].
      cbn [foldl] in Hp. apply IH in Hp as [Hp | (file & v & Hf & Hpath & Hv)].
      - unfold indexStep in Hp. destruct (embedOutcome env st f) as [v|e] eqn:E.
        + destruct (paths_upsertEmbedding embeddings (entryOf f v)) as [Heq | [Heq _]];
            rewrite Heq in Hp; [by left |].
          apply elem_of_app in Hp as [Hp | Hp%list_elem_of_singleton]; [by left |].
          right. exists f, v. split; [apply list_elem_of_here | done].
        + by left.
      - right. exists file, v. split; [by apply list_elem_of_further | done]. }
    intros Hp. apply Hgen in Hp as [Hp | Hp]; [| done].
    by apply elem_of_nil in Hp. }
  destruct (rebuildCache_outcome env st) as (_ & _ & Hcache).
  split; [| split].
  - intros p Hp. destruct Hcache as [Hc | Hc]; rewrite Hc in Hp.
    + by apply elem_of_nil in Hp.
    + by apply Hin.
  - intros Hnd Hsave.
    unfold rebuildCache, exec, eval.
    rewrite bind_unfold, Notice_unfold.
    set (st1 := set_notices _ st).
    rewrite bind_unfold.
    assert (Hclear : clearEmbeddings env st1
              = (Ok tt, set_savedData (Some (set_embeddings [] (settings st)))
                          (set_settings (set_embeddings []) st1))).
    { unfold clearEmbeddings. run_monad_core.
      change (settings (set_settings (set_embeddings []) st1))
        with (set_embeddings [] (settings st)).
      by rewrite Hsave. }
    rewrite Hclear. set (st2 := set_savedData _ _).
    destruct (updateAllEmbeddings_outcome env st2) as (Hev & _ & _ & Hcache3).
    unfold exec, eval in *. rewrite bind_unfold.
    destruct (updateAllEmbeddings env st2) as [[[]|e] st3]; cbn [fst snd] in *;
      [| done].
    rewrite Notice_unfold. cbn [fst snd]. split; [done |].
    change (cache (set_notices _ st3)) with (cache st3).
    rewrite Hcache3. change (cache st2) with (@nil NoteEmbedding.t).
    rewrite (foldl_indexStep_config env st2 st) by done.
    by rewrite foldl_indexStep_indexed.
  - intros e Hsave.
    unfold rebuildCache, exec, eval.
    rewrite bind_unfold, Notice_unfold.
    set (st1 := set_notices _ st).
    rewrite bind_unfold.
    assert (Hclear : clearEmbeddings env st1
              = (Throw e, set_settings (set_embeddings []) st1)).
    { unfold clearEmbeddings. run_monad_core.
      change (settings (set_settings (set_embeddings []) st1))
        with (set_embeddings [] (settings st)).
      by rewrite Hsave. }
    by rewrite Hclear.
Qed.

Lemma rebuildCache_leaves_no_stale_entry_witness :
  cache (exec (rebuildCache errorReplyEnv)
           (set_settings (set_embeddings scenarioCache) ollamaState))
  = [ NoteEmbedding.mk "A.md" (Some [of_Z 12; of_Z 1]) (of_Z 100);
      NoteEmbedding.mk "B.md" None (of_Z 200);
      NoteEmbedding.mk "C.md" (Some [of_Z 12; of_Z 1]) (of_Z 300) ].
Proof.
  pose proof (rebuildCache_leaves_no_stale_entry errorReplyEnv
                (set_settings (set_embeddings scenarioCache) ollamaState)) as H.
  cbn zeta in H. destruct H as (_ & H & _).
  destruct H as [_ ->].
  - apply (bool_decide_eq_true_1 _). vm_compute. reflexivity.
  - reflexivity.
  - vm_compute. reflexivity.
Defined.

(** ** Memory and disk *)

(** X9. When [updateNoteEmbedding] returns, the settings it has handed to
    [saveData] are the settings in memory.  When the embedding has come
    back but the save is rejected, the call throws and nothing is rolled back: the
    cache in memory holds the new entry, the persisted settings are the
    old ones. *)
Theorem updateNoteEmbedding_persists (env : Env) (st : State) (file : TFile.t) :
  let st' := exec (updateNoteEmbedding env file) st in
  (eval (updateNoteEmbedding env file) st = Ok tt ->
   savedData st' = Some (settings st'))
  /\ (forall v e,
        embedOutcome env st file = Ok v ->
        saveData env (set_embeddings (upsertEmbedding (cache st) (entryOf file v))
                        (settings st)) = Throw e ->
        eval (updateNoteEmbedding env file) st = Throw e
        /\ findEmbedding (cache st') (TFile.path file) = Some (entryOf file v)
        /\ savedData st' = savedData st).
Proof.
  cbn zeta. unfold embedOutcome, updateNoteEmbedding.
  pose proof (getEmbedding_exec env) as Hexec.
  run_monad_core.
  destruct (vault_read env file) as [content|e0]; [| split; [done | by intros]].
  specialize (Hexec content st).
  destruct (getEmbedding env content st) as [[v0|e0] st1]; simpl in Hexec; subst st1;
    [| split; [done | by intros]].
  cbn. split.
  - by destruct (saveData env _).
  - intros v e [= <-] Hsave. unfold cache, entryOf in Hsave. rewrite Hsave. cbn.
    split; [done |]. split; [| done].
    apply (findEmbedding_upsertEmbedding _ (entryOf file v0)).
Qed.

Lemma updateNoteEmbedding_persists_witness :
  eval (updateNoteEmbedding diskFullEnv noteA) ollamaState = Throw "ENOSPC"
  /\ findEmbedding (cache (exec (updateNoteEmbedding diskFullEnv noteA) ollamaState)) "A.md"
     = Some (NoteEmbedding.mk "A.md" (Some [of_Z 1; of_Z 0]) (of_Z 100))
  /\ savedData (exec (updateNoteEmbedding diskFullEnv noteA) ollamaState) = None.
Proof.
  exact (proj2 (updateNoteEmbedding_persists diskFullEnv ollamaState noteA)
           (Some [of_Z 1; of_Z 0]) "ENOSPC" eq_refl eq_refl).
Defined.

(** ** Completion requests *)

(** A completion request shows and logs, and changes nothing else; its
    result depends on the settings only. *)
Lemma callAI_frame env inputText prompt st :
  let st' := exec (callAI env inputText prompt) st in
  sameData st st'
  /\ chatMessages st' = chatMessages st
  /\ notices st `prefix_of` notices st'
  /\ consoleErrors st `prefix_of` consoleErrors st'.
Proof.
  cbn zeta. unfold sameData. run_calls.
  split_call env (settings st); repeat split; try done; by apply prefix_app_r.
Qed.

Lemma callAI_settings env inputText prompt st st' :
  settings st = settings st' ->
  eval (callAI env inputText prompt) st = eval (callAI env inputText prompt) st'.
Proof.
  destruct st as [s ? ? ? ? ? ?], st' as [s' ? ? ? ? ? ?].
  cbn [settings]. intros <-.
  run_calls. cbn [settings]. split_call env s; done.
Qed.

Lemma try_catch_unfold {A : Type} (body : M A) (handler : string -> M A) (st : State) :
  try_catch body handler st
  = match body st with
    | (Ok a, st') => (Ok a, st')
    | (Throw e, st') => handler e st'
    end.
Proof. reflexivity. Qed.

(** Symbolic run up to the next completion request of the goal, whose
    result and state are named. *)
Ltac step_callAI st :=
  match goal with
  | |- context [callAI ?env ?text ?prompt ?s] =>
      let Hframe := fresh "Hframe" in
      let Hcall := fresh "Hcall" in
      pose proof (callAI_frame env text prompt s) as Hframe;
      pose proof (callAI_settings env text prompt s st eq_refl) as Hcall;
      unfold exec, eval, sameData in Hframe, Hcall;
      destruct (callAI env text prompt s) as [[?reply|?error] ?st1];
      cbn [fst snd] in Hframe, Hcall |- *;
      destruct Hframe as ((?Hs & ?Hh & ?Hd & ?Hw) & ?Hm & ?Hn & ?Hc)
  end.

(** ** Quick actions of the chat view *)

(** X10. "Summarize" and "Analyze" never throw and stay outside the
    conversation: they leave the history that is sent with the next
    question, the settings with the cache, and the note as they were.  With
    no note open they show one line; otherwise the request and one answer,
    which is the provider's text or the apology. *)
Theorem quick_actions_stay_outside_history (host : Host) (action : QuickAction)
    (st : State) :
  let st' := exec (quickAction host action) st in
  eval (quickAction host action) st = Ok tt
  /\ sameData st st'
  /\ chatMessages st'
     = chatMessages st
       ++ match getActiveFile host with
          | None => [(assistant, "Please open a note first!")]
          | Some activeFile =>
              [ (user, quickLabel action);
                (assistant,
                 match askAbout host activeFile (quickPrompt action) st with
                 | Ok reply => reply
                 | Throw _ => apology
                 end) ]
          end.
Proof.
  cbn zeta. unfold askAbout, sameData.
  destruct action; cbn [quickAction quickLabel quickPrompt];
    unfold summarizeCurrentNote, analyzeCurrentNote, addChatMessage;
    (destruct (getActiveFile host) as [activeFile|]; [| by run_monad_core]);
    run_monad_core;
    (destruct (vault_read host activeFile) as [content|e];
      [| cbn; by rewrite <- app_assoc]);
    step_callAI st; rewrite <- Hcall; cbn;
    rewrite ?Hs, ?Hh, ?Hd, ?Hw, ?Hm; cbn; by rewrite <- app_assoc.
Qed.

(** ** The chat turn, whatever its outcome *)



(** ** Summaries written into the note *)

(** X12. [summarizeNote] never throws and never touches settings, cache
    or history.  It writes at most once, to the active note, and what it
    writes begins with the content it has read: the note's text is kept.
    When the note cannot be read, the completion throws or the host
    rejects the write, nothing is written; a rejected write is logged and
    the error notice shown. *)
Theorem summarizeNote_keeps_the_note (env : Env) (st : State) :
  let st' := exec (summarizeNote env) st in
  eval (summarizeNote env) st = Ok tt
  /\ settings st' = settings st
  /\ chatHistory st' = chatHistory st
  /\ match getActiveFile env with
     | None => vaultWrites st' = vaultWrites st
     | Some activeFile =>
         match vault_read env activeFile with
         | Throw _ => vaultWrites st' = vaultWrites st
         | Ok content =>
             match eval (callAI env content "Summarize this note in 3 bullet points") st with
             | Throw _ => vaultWrites st' = vaultWrites st
             | Ok summary =>
                 String.prefix content (withSummary content summary) = true
                 /\ match vault_modify env activeFile (withSummary content summary) with
                    | Ok _ =>
                        vaultWrites st'
                        = vaultWrites st
                          ++ [(TFile.path activeFile, withSummary content summary)]
                        /\ "✅ Summary added to the note!" ∈ notices st'
                    | Throw e =>
                        vaultWrites st' = vaultWrites st
                        /\ ("Error summarizing note: " ++ e)%string ∈ consoleErrors st'
                        /\ "❌ Error generating summary. Check console for details."
                             ∈ notices st'
                    end
             end
         end
     end.
Proof.
  cbn zeta. unfold summarizeNote.
  destruct (getActiveFile env) as [activeFile|]; [| by run_monad_core].
  run_monad_core.
  destruct (vault_read env activeFile) as [content|e]; [| by cbn].
  step_callAI st; rewrite <- Hcall; cbn; rewrite ?Hs, ?Hh, ?Hw; cbn;
    [| by repeat split].
  unfold withSummary.
  destruct (vault_modify env activeFile _) as [[]|e]; cbn; rewrite ?Hs, ?Hh, ?Hw;
    repeat split; try done; try apply prefix_append.
  - apply elem_of_app. right. apply list_elem_of_here.
  - apply elem_of_app. right. apply list_elem_of_here.
  - apply elem_of_app. right. apply list_elem_of_here.
Qed.

Lemma summarizeNote_keeps_the_note_witness :
  eval (summarizeNote diskFullEnv) ollamaState = Ok tt
  /\ vaultWrites (exec (summarizeNote diskFullEnv) ollamaState) = []
  /\ "Error summarizing note: ENOSPC"
       ∈ consoleErrors (exec (summarizeNote diskFullEnv) ollamaState).
Proof.
  pose proof (summarizeNote_keeps_the_note diskFullEnv ollamaState) as H.
  cbn zeta in H. destruct H as (Hev & _ & _ & H).
  split; [exact Hev |].
  change (getActiveFile diskFullEnv) with (Some noteA) in H.
  change (vault_read diskFullEnv noteA) with (@Ok string "Meeting notes") in H.
  change (eval (callAI diskFullEnv "Meeting notes"
                  "Summarize this note in 3 bullet points") ollamaState)
    with (@Ok string "A reply.") in H.
  cbn match in H. destruct H as (_ & H).
  change (vault_modify diskFullEnv noteA (withSummary "Meeting notes" "A reply."))
    with (@Throw unit "ENOSPC") in H.
  cbn match in H. destruct H as (Hw & Hc & _).
  split; [exact Hw | exact Hc].
Defined.

(** ** The editor menu *)

(** X13. "Append Summary" never throws and never loses the selection: the
    text it hands to the editor begins with the selected text, followed by
    the summary in a callout.  When the completion throws the editor is not
    called, and the error notice is shown.  "Replace with Summary" hands
    over the bare reply of the provider instead.  Neither item is offered
    for an empty selection. *)
Theorem editor_menu_items (host : Host) (st : State) (selection : string) :
  let asked := eval (callAI host selection summaryPrompt) st in
  (eval (appendSummary host selection) st
   = Ok match asked with
        | Ok summary => Some (summaryCallout selection summary)
        | Throw _ => None
        end)
  /\ (forall text, eval (appendSummary host selection) st = Ok (Some text) ->
        String.prefix selection text = true)
  /\ (eval (replaceWithSummary host selection) st
      = Ok match asked with
           | Ok summary => Some summary
           | Throw _ => None
           end)
  /\ (forall e item, asked = Throw e ->
        "❌ Error generating summary" ∈ notices (exec (onClick host item selection) st)
        /\ e ∈ consoleErrors (exec (onClick host item selection) st))
  /\ (selection = "" <-> editorMenu selection = []).
Proof.
  cbn zeta.
  assert (Happend : eval (appendSummary host selection) st
            = Ok match eval (callAI host selection summaryPrompt) st with
                 | Ok summary => Some (summaryCallout selection summary)
                 | Throw _ => None
                 end).
  { unfold appendSummary. run_monad_core.
    step_callAI st; by rewrite <- Hcall. }
  split; [exact Happend |]. split; [| split; [| split]].
  - intros text. rewrite Happend.
    destruct (eval (callAI host selection summaryPrompt) st); [| done].
    intros [= <-]. apply prefix_append.
  - unfold replaceWithSummary. run_monad_core.
    step_callAI st; by rewrite <- Hcall.
  - intros e item Hasked.
    destruct item; cbn [onClick]; unfold replaceWithSummary, appendSummary;
      run_monad_core; step_callAI st; rewrite <- Hcall in Hasked;
      try discriminate; injection Hasked as ->; cbn;
      (split; [| apply elem_of_app; right; apply list_elem_of_here]);
      apply elem_of_app; right; apply list_elem_of_here.
  - unfold editorMenu. destruct (String.eqb_spec selection ""); split; try done.
Qed.

(** X14. With the cloud provider selected and no key entered, "Replace
    with Summary" hands the editor the error text in place of the
    selection and announces a summary. *)
Theorem replaceWithSummary_without_key (host : Host) (st : State) (selection : string) :
  aiProvider (settings st) = "openai" ->
  openaiApiKey (settings st) = "" ->
  replaceWithSummary host selection st
  = (Ok (Some missingKeyReply),
     set_notices (fun l => l ++ ["🤔 Summarizing..."; missingKeyNotice;
                                 "✅ Summary added!"]) st).
Proof.
  intros Hp Hk. unfold replaceWithSummary. run_calls. cbn.
  rewrite Hp. cbn. rewrite Hk. cbn. destruct st as [s h m n c d w].
  unfold set_notices. cbn. by rewrite <- !app_assoc.
Qed.

Lemma replaceWithSummary_without_key_witness :
  eval (replaceWithSummary
          (mkHost offlineEnv (Ok None) (fun _ => None) (fun _ => true))
          "The selected text.") initialState
  = Ok (Some missingKeyReply).
Proof.
  unfold eval.
  rewrite (replaceWithSummary_without_key
             (mkHost offlineEnv (Ok None) (fun _ => None) (fun _ => true))
             initialState "The selected text."); reflexivity.
Defined.

(** ** The local provider *)

Section LocalProvider.
Variable chat : string -> string -> string -> Result string.
Variable embeddings : string -> string -> Result (option (list number)).
Variable env : Env.

Lemma local_callAI inputText prompt s :
  aiProvider (settings s) = "ollama" ->
  callAI (withCloud chat embeddings env) inputText prompt s = callAI env inputText prompt s.
Proof. intros Hp. run_calls. by rewrite Hp. Qed.

Lemma local_callAIWithHistory messages s :
  aiProvider (settings s) = "ollama" ->
  callAIWithHistory (withCloud chat embeddings env) messages s = callAIWithHistory env messages s.
Proof. intros Hp. run_calls. by rewrite Hp. Qed.

Lemma local_getEmbedding text s :
  aiProvider (settings s) = "ollama" ->
  getEmbedding (withCloud chat embeddings env) text s = getEmbedding env text s.
Proof. intros Hp. run_monad. by rewrite Hp. Qed.

Lemma local_updateNoteEmbedding file s :
  aiProvider (settings s) = "ollama" ->
  updateNoteEmbedding (withCloud chat embeddings env) file s = updateNoteEmbedding env file s.
Proof.
  intros Hp. unfold updateNoteEmbedding. run_monad_core.
  change (vault_read (withCloud chat embeddings env) file) with (vault_read env file).
  destruct (vault_read env file) as [content|e]; [| done].
  by rewrite local_getEmbedding.
Qed.

Lemma local_updateOrLog file s :
  aiProvider (settings s) = "ollama" ->
  updateOrLog (withCloud chat embeddings env) file s = updateOrLog env file s.
Proof.
  intros Hp. unfold updateOrLog. rewrite !try_catch_unfold.
  by rewrite local_updateNoteEmbedding.
Qed.

Lemma aiProvider_config s s' :
  config (settings s') = config (settings s) ->
  aiProvider (settings s') = aiProvider (settings s).
Proof. unfold config. by intros [= _ _ _ _ _ H]. Qed.

Lemma local_updateEach files s :
  aiProvider (settings s) = "ollama" ->
  updateEach (withCloud chat embeddings env) files s = updateEach env files s.
Proof.
  revert s. induction files as [|file rest IH]; intros s Hp; [done |].
  cbn [updateEach]. rewrite !bind_unfold, local_updateOrLog by done.
  destruct (updateOrLog_outcome env file s) as (_ & Hc & _).
  unfold exec in Hc.
  destruct (updateOrLog env file s) as [[[]|e] s1]; [| done].
  apply IH. by rewrite (aiProvider_config s).
Qed.

Lemma local_updateAllEmbeddings s :
  aiProvider (settings s) = "ollama" ->
  updateAllEmbeddings (withCloud chat embeddings env) s = updateAllEmbeddings env s.
Proof.
  intros Hp. unfold updateAllEmbeddings.
  rewrite !bind_unfold, !Notice_unfold. cbv beta iota.
  rewrite !try_catch_unfold.
  change (getMarkdownFiles (withCloud chat embeddings env)) with (getMarkdownFiles env).
  by rewrite local_updateEach.
Qed.

Lemma local_rebuildCache s :
  aiProvider (settings s) = "ollama" ->
  rebuildCache (withCloud chat embeddings env) s = rebuildCache env s.
Proof.
  intros Hp. unfold rebuildCache.
  rewrite !bind_unfold, !Notice_unfold. cbv beta iota.
  set (s1 := set_notices _ s).
  rewrite !bind_unfold.
  change (clearEmbeddings (withCloud chat embeddings env) s1) with (clearEmbeddings env s1).
  destruct (clearEmbeddings_outcome env s1) as (Hc & _).
  unfold exec in Hc.
  destruct (clearEmbeddings env s1) as [[[]|e] s2]; cbn [snd] in Hc; [| done].
  rewrite !bind_unfold.
  rewrite local_updateAllEmbeddings; [done |].
  by rewrite (aiProvider_config s1).
Qed.

Lemma local_handleUserInput input s :
  aiProvider (settings s) = "ollama" ->
  handleUserInput (withCloud chat embeddings env) input s = handleUserInput env input s.
Proof.
  intros Hp. unfold handleUserInput, addChatMessage, pushHistory.
  change (getActiveFile (withCloud chat embeddings env)) with (getActiveFile env).
  destruct (getActiveFile env) as [activeFile|]; [| done].
  run_monad_core.
  change (vault_read (withCloud chat embeddings env) activeFile) with (vault_read env activeFile).
  destruct (vault_read env activeFile) as [content|e]; [| done].
  cbn [chatHistory set_chatHistory set_chatMessages].
  by rewrite local_callAIWithHistory.
Qed.

Lemma local_summarizeNote s :
  aiProvider (settings s) = "ollama" ->
  summarizeNote (withCloud chat embeddings env) s = summarizeNote env s.
Proof.
  intros Hp. unfold summarizeNote.
  change (getActiveFile (withCloud chat embeddings env)) with (getActiveFile env).
  destruct (getActiveFile env) as [activeFile|]; [| done].
  run_monad_core.
  change (vault_read (withCloud chat embeddings env) activeFile) with (vault_read env activeFile).
  destruct (vault_read env activeFile) as [content|e]; [| done].
  by rewrite local_callAI.
Qed.

Lemma local_findRelatedNotes s :
  aiProvider (settings s) = "ollama" ->
  findRelatedNotes (withCloud chat embeddings env) s = findRelatedNotes env s.
Proof.
  intros Hp. unfold findRelatedNotes, addChatMessage.
  change (getActiveFile (withCloud chat embeddings env)) with (getActiveFile env).
  destruct (getActiveFile env) as [activeFile|]; [| done].
  rewrite !bind_unfold. cbv [modify]. rewrite !try_catch_unfold, !bind_unfold.
  by rewrite local_updateNoteEmbedding.
Qed.
End LocalProvider.

(** X15. With the local provider selected nothing depends on the cloud:
    replace the two cloud endpoints by anything, and completions,
    embeddings, updates, indexing passes, rebuilds, chat turns, summaries
    and related-notes searches run to the same results and states.  No
    note text and no key reach the cloud. *)
Theorem local_provider_never_calls_cloud
    (chat : string -> string -> string -> Result string)
    (embeddings : string -> string -> Result (option (list number)))
    (env : Env) (st : State) :
  aiProvider (settings st) = "ollama" ->
  let env' := withCloud chat embeddings env in
  (forall inputText prompt, callAI env' inputText prompt st = callAI env inputText prompt st)
  /\ (forall messages,
        callAIWithHistory env' messages st = callAIWithHistory env messages st)
  /\ (forall text, getEmbedding env' text st = getEmbedding env text st)
  /\ (forall file, updateNoteEmbedding env' file st = updateNoteEmbedding env file st)
  /\ updateAllEmbeddings env' st = updateAllEmbeddings env st
  /\ rebuildCache env' st = rebuildCache env st
  /\ (forall input, handleUserInput env' input st = handleUserInput env input st)
  /\ summarizeNote env' st = summarizeNote env st
  /\ findRelatedNotes env' st = findRelatedNotes env st.
Proof.
  intros Hp. cbn zeta.
  repeat split; intros;
    auto using local_callAI, local_callAIWithHistory, local_getEmbedding,
      local_updateNoteEmbedding, local_updateAllEmbeddings, local_rebuildCache,
      local_handleUserInput, local_summarizeNote, local_findRelatedNotes.
Qed.

Lemma local_provider_never_calls_cloud_witness :
  updateAllEmbeddings (withCloud (fun _ _ _ => Ok "stolen") (fun _ _ => Ok (Some [])) vaultEnv)
    ollamaState
  = updateAllEmbeddings vaultEnv ollamaState.
Proof.
  pose proof (local_provider_never_calls_cloud
                (fun _ _ _ => Ok "stolen") (fun _ _ => Ok (Some [])) vaultEnv ollamaState
                eq_refl) as H.
  cbn zeta in H. exact (proj1 (proj2 (proj2 (proj2 (proj2 H))))).
Defined.

(** ** Settings tab and start-up *)

Lemma Object_assign_stored (target s : AIPoweredSecondBrainSettings) :
  Object_assign target (Some (stored s)) = s.
Proof. by destruct s. Qed.

Lemma run_tab_settings host action st :
  let st' := exec (run_tab host action) st in
  useOllama (settings st') = useOllama (settings st)
  /\ (typesKey action = false ->
      openaiApiKey (settings st) = "" -> openaiApiKey (settings st') = "").
Proof.
  cbn zeta. destruct action as [value|value|value|value|]; cbn [run_tab typesKey].
  1-4: unfold onChange_aiProvider, onChange_ollamaEndpoint, onChange_ollamaModel,
         onChange_openaiApiKey; run_monad_core; cbn;
       destruct (saveData host _); cbn; split; try done.
  - intros Hv%negb_false_iff%String.eqb_eq. by subst.
  - intros Hv%negb_false_iff%String.eqb_eq. by subst.
  - destruct (rebuildCache_outcome host st) as (Hc & _).
    unfold config in Hc. injection Hc as Hk Hu _ _ _ _.
    split; [done |]. intros _ Hkey. by rewrite Hk.
Qed.

Lemma run_tabs_settings actions st :
  let st' := run_tabs actions st in
  useOllama (settings st') = useOllama (settings st)
  /\ (Forall (fun ha => typesKey ha.2 = false) actions ->
      openaiApiKey (settings st) = "" -> openaiApiKey (settings st') = "").
Proof.
  cbn zeta. unfold run_tabs. revert st.
  induction actions as [|[host action] actions IH]; intros st; [done |].
  cbn [foldl]. destruct (IH (exec (run_tab host action) st)) as [Hu Hk].
  destruct (run_tab_settings host action st) as [Hu1 Hk1].
  split; [congruence |].
  intros [Ha Hrest]%Forall_cons Hkey. apply Hk; [done |]. by apply Hk1.
Qed.

(** [onload], by what [loadData] resolves to. *)
Lemma onload_outcome host st data :
  loadData host = Ok data ->
  let loaded := set_settings (fun _ => Object_assign DEFAULT_SETTINGS data) st in
  onload host st
  = if negb (useOllama (settings loaded))
       && String.eqb (openaiApiKey (settings loaded)) ""
    then (Ok [SettingTab],
          set_notices (fun l => l ++ ["⚠️ Please configure AI provider in settings."])
                      loaded)
    else (Ok [ SettingTab;
               RibbonIcon "message-square" "AI Chat";
               RibbonIcon "brain" "AI Summarize";
               Command "ai-summarize-note" "Summarize Current Note";
               Command "open-ai-chat" "Open AI Chat";
               View "ai-chat-view";
               EditorMenuEvent;
               ModifyEvent ],
          exec (updateAllEmbeddings host) loaded).
Proof.
  intros Hload. cbn zeta. unfold onload, loadSettings.
  run_monad_core. rewrite Hload.
  set (loaded := set_settings _ st).
  destruct (negb (useOllama (settings loaded))
            && String.eqb (openaiApiKey (settings loaded)) ""); [done |].
  destruct (updateAllEmbeddings_outcome host loaded) as (Hev & _).
  unfold eval in Hev.
  destruct (updateAllEmbeddings host loaded) as [[[]|e] st1]; cbn in *; [done |].
  discriminate.
Qed.

(** X16. No action of the settings tab writes [useOllama], the flag that
    start-up tests beside the cloud key.  So from settings with the flag
    off and no key, whatever is chosen in the tab short of typing a key —
    the local provider, its endpoint and model, a rebuild — and saved, the
    next start-up stops after its notice: it registers the tab only, no
    ribbon icon, command, view or event, and indexes nothing. *)
Theorem choosing_ollama_does_not_configure
    (actions : list (Host * TabAction)) (st : State) :
  useOllama (settings st) = false ->
  openaiApiKey (settings st) = "" ->
  Forall (fun ha => typesKey ha.2 = false) actions ->
  let st' := run_tabs actions st in
  useOllama (settings st') = false
  /\ openaiApiKey (settings st') = ""
  /\ forall host st0,
       loadData host = Ok (Some (stored (settings st'))) ->
       onload host st0
       = (Ok [SettingTab],
          set_notices (fun l => l ++ ["⚠️ Please configure AI provider in settings."])
            (set_settings (fun _ => settings st') st0)).
Proof.
  intros Hu Hk Hactions. cbn zeta.
  destruct (run_tabs_settings actions st) as [Hu' Hk'].
  rewrite Hu in Hu'. specialize (Hk' Hactions Hk).
  split; [done |]. split; [done |].
  intros host st0 Hload. rewrite (onload_outcome host st0 _ Hload). cbn zeta.
  rewrite Object_assign_stored.
  change (settings (set_settings _ st0)) with (settings (run_tabs actions st)).
  by rewrite Hu', Hk'.
Qed.

Lemma choosing_ollama_does_not_configure_witness :
  let st' := run_tabs [(vaultHost, ChooseProvider "ollama");
                       (vaultHost, TypeModel "llama2")] initialState in
  aiProvider (settings st') = "ollama"
  /\ eval (onload (restartedHost (stored (settings st')))) initialState = Ok [SettingTab].
Proof.
  cbn zeta. split; [reflexivity |].
  pose proof (choosing_ollama_does_not_configure
                [(vaultHost, ChooseProvider "ollama"); (vaultHost, TypeModel "llama2")]
                initialState eq_refl eq_refl) as H.
  cbn zeta in H. destruct H as (_ & _ & H).
  - repeat constructor.
  - unfold eval. by rewrite (H (restartedHost _) initialState eq_refl).
Defined.

(** X17. Start-up, when the stored data loads.  The settings are the
    stored keys over the defaults.  With [useOllama] off and no key it
    stops after the notice; otherwise it registers its icons, commands,
    view and events and, before returning, indexes the vault: it does not
    throw, and each note whose read and embedding call returned is found
    in the cache afterwards with that embedding and its time.  Data of the first revision, a key
    alone, load with every other setting at its default. *)
Theorem onload_indexes_when_configured (host : Host) (st : State)
    (data : option StoredData.t) :
  loadData host = Ok data ->
  let loaded := set_settings (fun _ => Object_assign DEFAULT_SETTINGS data) st in
  let st' := exec (onload host) st in
  (useOllama (settings loaded) = true \/ openaiApiKey (settings loaded) <> "" ->
   (exists registered,
      eval (onload host) st = Ok registered /\ length registered = 8)
   /\ st' = exec (updateAllEmbeddings host) loaded
   /\ (NoDup (map TFile.path (getMarkdownFiles host)) ->
       forall file v,
         file ∈ getMarkdownFiles host ->
         embedOutcome host loaded file = Ok v ->
         findEmbedding (cache st') (TFile.path file) = Some (entryOf file v)))
  /\ (forall key,
        data = Some (StoredData.mk (Some key) None None None None None) ->
        settings loaded = set_openaiApiKey key DEFAULT_SETTINGS).
Proof.
  intros Hload. cbn zeta. split.
  - intros Hconfigured. unfold exec, eval.
    rewrite (onload_outcome host st data Hload). cbn zeta.
    set (loaded := set_settings _ st) in *.
    assert (negb (useOllama (settings loaded))
            && String.eqb (openaiApiKey (settings loaded)) "" = false) as ->.
    { destruct Hconfigured as [-> | Hk]; [done |].
      apply String.eqb_neq in Hk. rewrite Hk. apply andb_false_r. }
    cbn [fst snd]. split; [by eexists |]. split; [done |].
    intros Hnd file v Hin Hv.
    destruct (updateAllEmbeddings_outcome host loaded) as (_ & _ & _ & Hcache).
    rewrite Hcache. by apply findEmbedding_foldl_indexStep.
  - by intros key ->.
Qed.

Lemma onload_indexes_when_configured_witness :
  paths (cache (exec (onload (restartedHost
                       (StoredData.mk (Some "sk-test") (Some true) None None None
                                      (Some "ollama"))))
                   initialState))
  = ["A.md"; "C.md"].
Proof.
  pose proof (onload_indexes_when_configured
                (restartedHost (StoredData.mk (Some "sk-test") (Some true) None None
                                              None (Some "ollama")))
                initialState _ eq_refl) as H.
  cbn zeta in H. destruct H as [H _].
  destruct H as (_ & -> & _); [by left |].
  vm_compute. reflexivity.
Defined.

(** ** The modify event *)

(** X18. The [modify] handler writes the cache for markdown files only:
    after any sequence of events every path of the cache was there before
    or is the path of a modified file of extension [md], and no entry has
    been removed.  Unlike the indexing pass the handler lets exceptions
    through: when the read or the embedding call throws it throws, the
    state as it was.  When the call returns, what it returned is written
    under the file's path: a vector or, after an error reply of the local
    provider, nothing. *)
Theorem onModify_indexes_markdown_only
    (events : list (Host * TAbstractFile.t)) (st : State) :
  let st' := run_modifications events st in
  paths (cache st) `prefix_of` paths (cache st')
  /\ (forall p, p ∈ paths (cache st') ->
        p ∈ paths (cache st)
        \/ exists host file, (host, file) ∈ events /\ markdownPath file = Some p)
  /\ (forall (host : Host) file e,
        embedOutcome host st file = Throw e ->
        onModify host (TAbstractFile.File file "md") st = (Throw e, st))
  /\ (forall (host : Host) file v,
        embedOutcome host st file = Ok v ->
        findEmbedding (cache (exec (onModify host (TAbstractFile.File file "md")) st))
          (TFile.path file)
        = Some (entryOf file v)).
Proof.
  cbn zeta. split; [| split; [| split]].
  - unfold run_modifications. revert st.
    induction events as [|[host file] events IH]; intros st; [done |].
    cbn [foldl]. etrans; [| apply IH].
    destruct file as [f extension | folder]; cbn [onModify]; [| done].
    destruct (String.eqb extension "md"); [| done].
    destruct (updateNoteEmbedding_outcome host f st) as (_ & _ & H).
    destruct (embedOutcome host st f).
    + rewrite H. apply paths_upsertEmbedding_prefix.
    + by destruct H as [-> _].
  - unfold run_modifications. revert st.
    induction events as [|[host file] events IH]; intros st p Hp; [by left |].
    cbn [foldl] in Hp. apply IH in Hp as [Hp | (host' & file' & Hin & Hmd)].
    2: { right. exists host', file'. split; [by apply list_elem_of_further | done]. }
    destruct file as [f extension | folder]; cbn [onModify] in Hp; [| by left].
    destruct (String.eqb extension "md") eqn:Hext; [| by left].
    destruct (updateNoteEmbedding_outcome host f st) as (_ & _ & H).
    destruct (embedOutcome host st f) as [v|e].
    + rewrite H in Hp.
      destruct (paths_upsertEmbedding (cache st) (entryOf f v)) as [Heq | [Heq _]];
        rewrite Heq in Hp; [by left |].
      apply elem_of_app in Hp as [Hp | Hp%list_elem_of_singleton]; [by left |].
      right. exists host, (TAbstractFile.File f extension).
      split; [apply list_elem_of_here |]. cbn. by rewrite Hext, Hp.
    + destruct H as [Heq _]. rewrite Heq in Hp. by left.
  - intros host file e He. cbn [onModify].
    change (String.eqb "md" "md") with true. cbv iota.
    destruct (updateNoteEmbedding_outcome host file st) as (_ & _ & H).
    rewrite He in H. destruct H as [Hst Hev]. unfold exec, eval in *.
    destruct (updateNoteEmbedding host file st) as [r s]. cbn in *. by subst.
  - intros host file v Hv. cbn [onModify].
    change (String.eqb "md" "md") with true. cbv iota.
    destruct (updateNoteEmbedding_outcome host file st) as (_ & _ & H).
    rewrite Hv in H. rewrite H.
    apply (findEmbedding_upsertEmbedding (cache st) (entryOf file v)).
Qed.

Lemma onModify_indexes_markdown_only_witness :
  onModify vaultHost (TAbstractFile.File noteB "md") ollamaState
    = (Throw "ENOENT", ollamaState)
  /\ findEmbedding
       (cache (exec (onModify errorReplyHost (TAbstractFile.File noteB "md"))
                 ollamaState)) "B.md"
     = Some (NoteEmbedding.mk "B.md" None (of_Z 200)).
Proof.
  pose proof (onModify_indexes_markdown_only [] ollamaState) as H.
  cbn zeta in H. destruct H as (_ & _ & Hthrow & Hwrite).
  split.
  - apply (Hthrow vaultHost noteB "ENOENT"). vm_compute. reflexivity.
  - apply (Hwrite errorReplyHost noteB None). vm_compute. reflexivity.
Defined.

(** ** The reply of the related-notes search *)

Lemma callAI_config env inputText prompt st st' :
  config (settings st) = config (settings st') ->
  eval (callAI env inputText prompt) st = eval (callAI env inputText prompt) st'.
Proof.
  unfold config. intros [= H1 H2 H3 H4 H5 H6].
  run_calls. rewrite H6.
  destruct (String.eqb (aiProvider (settings st')) "ollama").
  - cbn. rewrite H3, H4. by destruct (ollama_generate env _ _ _).
  - destruct (String.eqb (aiProvider (settings st')) "openai"); [| done].
    cbn. rewrite H1. by destruct (String.eqb (openaiApiKey (settings st')) "").
Qed.

Lemma explanationOf_config host activeFile st st' s :
  config (settings st) = config (settings st') ->
  explanationOf host activeFile st s = explanationOf host activeFile st' s.
Proof.
  intros Hc. unfold explanationOf.
  destruct (getAbstractFileByPath host (Scored.path s)) as [[file ext|folder]|]; try done.
  destruct (vault_read host file) as [content|e]; [| done].
  destruct (vault_read host activeFile) as [current|e]; [| done].
  by rewrite (callAI_config host _ _ st st' Hc).
Qed.

Lemma replyFor_config numberText host activeFile st st' matches response :
  config (settings st) = config (settings st') ->
  replyFor numberText host activeFile st matches response
  = replyFor numberText host activeFile st' matches response.
Proof.
  intros Hc. revert response.
  induction matches as [|s rest IH]; intros response; [done |].
  cbn [replyFor]. rewrite (explanationOf_config host activeFile st st' s Hc).
  destruct (explanationOf host activeFile st' s) as [[explanation|]|e]; auto.
Qed.

(** The loop of explanations computes [replyFor] and only shows or logs. *)
Lemma explain_outcome numberText (host : Host) activeFile matches response st :
  let st' := exec (AIChatView.explain numberText host activeFile matches response) st in
  eval (AIChatView.explain numberText host activeFile matches response) st
    = replyFor numberText host activeFile st matches response
  /\ sameData st st'
  /\ chatMessages st' = chatMessages st
  /\ consoleErrors st `prefix_of` consoleErrors st'.
Proof.
  cbn zeta. revert response st.
  induction matches as [|[path similarity] rest IH]; intros response st.
  { by repeat split. }
  cbn [AIChatView.explain replyFor]. unfold explanationOf. cbn [Scored.path].
  destruct (getAbstractFileByPath host path) as [[file ext|folder]|];
    [| apply IH | apply IH].
  unfold exec, eval. rewrite !bind_unfold. cbv [await].
  destruct (vault_read host file) as [content|e]; [| by repeat split].
  rewrite !bind_unfold.
  destruct (vault_read host activeFile) as [current|e]; [| by repeat split].
  rewrite !bind_unfold.
  step_callAI st; clear Hcall.
  - match goal with
    | |- context [AIChatView.explain numberText host activeFile rest ?r st1] =>
        destruct (IH r st1) as (Hev & (Hs' & Hh' & Hd' & Hw') & Hm' & Hc')
    end.
    unfold exec, eval in *. rewrite Hev.
    rewrite (replyFor_config numberText host activeFile st1 st) by by rewrite Hs.
    unfold relatedSection. cbn [Scored.path Scored.similarity].
    repeat split; try congruence. by etrans.
  - by repeat split.
Qed.

Lemma updateNoteEmbedding_view env file st :
  let st' := exec (updateNoteEmbedding env file) st in
  chatMessages st' = chatMessages st
  /\ chatHistory st' = chatHistory st
  /\ consoleErrors st' = consoleErrors st.
Proof.
  cbn zeta. unfold updateNoteEmbedding.
  pose proof (getEmbedding_exec env) as Hexec.
  run_monad_core.
  destruct (vault_read env file) as [content|e]; [| done].
  specialize (Hexec content st).
  destruct (getEmbedding env content st) as [[v|e] st1]; simpl in Hexec; subst st1;
    [| done].
  cbn. by destruct (saveData env _).
Qed.

(** X19. The related-notes action never throws, leaves the history alone
    and shows exactly one answer.  When the ranking is empty the answer is
    the "No related notes found" line.  Otherwise the answer is built from
    the ranking in its order, one section per match: a match whose path is
    no file any more gets no section, while a note that cannot be read, or
    an explanation that throws, discards the whole answer for the error
    line.  When no match is a file any more, the answer is the bare
    header. *)
Theorem findRelatedNotes_reply (numberText : number -> string) (host : Host)
    (st : State) :
  let st' := exec (AIChatView.findRelatedNotes numberText host) st in
  eval (AIChatView.findRelatedNotes numberText host) st = Ok tt
  /\ chatHistory st' = chatHistory st
  /\ exists reply,
       chatMessages st'
       = chatMessages st
         ++ match getActiveFile host with
            | None => []
            | Some _ => [(user, "Finding related notes...")]
            end
         ++ [(assistant, reply)]
       /\ match getActiveFile host, eval (findRelatedNotes host) st with
          | None, _ => reply = "Please open a note first!"
          | Some _, Ok (Some []) =>
              reply = "No related notes found. Try updating the embeddings cache in settings."
          | Some activeFile, Ok (Some ranking) =>
              match replyFor numberText host activeFile st ranking relatedHeader with
              | Ok response => reply = response
              | Throw e =>
                  reply = "Error finding related notes. Check console for details."
                  /\ ("Error finding related notes: " ++ e)%string ∈ consoleErrors st'
              end
              /\ ((forall s, s ∈ ranking ->
                     getAbstractFileByPath host (Scored.path s) = None) ->
                  reply = relatedHeader)
          | Some _, _ =>
              reply = "Error finding related notes. Check console for details."
          end.
Proof.
  cbn zeta. unfold AIChatView.findRelatedNotes, findRelatedNotes, addChatMessage.
  destruct (getActiveFile host) as [activeFile|].
  2: { run_monad_core. repeat split; try done.
       by exists "Please open a note first!". }
  unfold exec, eval. rewrite !bind_unfold. cbv [modify].
  rewrite !try_catch_unfold, !bind_unfold.
  set (st0 := set_chatMessages _ st).
  destruct (updateNoteEmbedding_view host activeFile st0) as (Hm1 & Hh1 & _).
  destruct (updateNoteEmbedding_outcome host activeFile st0) as (Hc1 & _).
  unfold exec in Hm1, Hh1, Hc1.
  change (chatHistory st0) with (chatHistory st) in Hh1.
  change (chatMessages st0)
    with (chatMessages st ++ [(user, "Finding related notes...")]) in Hm1.
  change (settings st0) with (settings st) in Hc1.
  destruct (updateNoteEmbedding host activeFile st0) as [[[]|e1] st1]; cbn [fst snd] in *.
  2: { run_monad_core. cbn. repeat split; try done.
       exists "Error finding related notes. Check console for details.".
       rewrite Hm1. cbn. by rewrite <- app_assoc. }
  cbv [bind get].
  destruct (findEmbedding (cache st1) (TFile.path activeFile)
              ≫= NoteEmbedding.embedding) as [currentEmbedding|].
  2: { run_monad_core. cbn. repeat split; try done.
       exists "Error finding related notes. Check console for details.".
       rewrite Hm1. cbn. by rewrite <- app_assoc. }
  cbn zeta.
  remember (similarities (engine host) (cache st1) (TFile.path activeFile)
              currentEmbedding) as found eqn:Hfound.
  clear Hfound. destruct found as [found|e].
  2: { run_monad_core. cbn. repeat split; try done.
       exists "Error finding related notes. Check console for details.".
       rewrite Hm1. cbn. by rewrite <- app_assoc. }
  destruct found as [|s ranking].
  { run_monad_core. cbn. repeat split; try done.
    exists "No related notes found. Try updating the embeddings cache in settings.".
    rewrite Hm1. cbn. by rewrite <- app_assoc. }
  cbn [length Nat.eqb].
  destruct (explain_outcome numberText host activeFile (s :: ranking) relatedHeader st1)
    as (Hev & (Hs2 & Hh2 & _) & Hm2 & Hc2).
  unfold exec, eval in Hev, Hs2, Hh2, Hm2, Hc2. fold relatedHeader.
  rewrite (replyFor_config numberText host activeFile st1 st) in Hev by done.
  assert (Hstale : (forall x, x ∈ s :: ranking ->
                      getAbstractFileByPath host (Scored.path x) = None) ->
                   replyFor numberText host activeFile st (s :: ranking) relatedHeader
                   = Ok relatedHeader).
  { clear. generalize relatedHeader. induction (s :: ranking) as [|x l IH];
      intros response Hnone; [done |].
    cbn [replyFor]. unfold explanationOf.
    rewrite (Hnone x) by apply list_elem_of_here.
    apply IH. intros y Hy. apply Hnone. by apply list_elem_of_further. }
  destruct (AIChatView.explain numberText host activeFile (s :: ranking) relatedHeader st1)
    as [[response|e] st2]; cbn [fst snd] in *.
  - run_monad_core. cbn -[replyFor]. rewrite <- Hev.
    split; [done |]. split; [congruence |].
    exists response. rewrite Hm2, Hm1. cbn. rewrite <- app_assoc.
    split; [done |]. split; [done |].
    intros Hnone. specialize (Hstale Hnone). congruence.
  - run_monad_core. cbn -[replyFor]. rewrite <- Hev.
    split; [done |]. split; [congruence |].
    exists "Error finding related notes. Check console for details.".
    rewrite Hm2, Hm1. cbn. rewrite <- app_assoc.
    split; [done |]. split.
    + split; [done |]. apply elem_of_app. right. apply list_elem_of_here.
    + intros Hnone. specialize (Hstale Hnone). congruence.
Qed.

Lemma findRelatedNotes_reply_witness :
  eval (AIChatView.findRelatedNotes sampleNumberText vaultHost)
       (set_settings (set_embeddings staleCache) ollamaState) = Ok tt
  /\ chatMessages (exec (AIChatView.findRelatedNotes sampleNumberText vaultHost)
                     (set_settings (set_embeddings staleCache) ollamaState))
     = [ (user, "Finding related notes...");
         (assistant,
          relatedHeader ++ "### [[C.md]] (100% related)" ++ nl ++ "> A reply." ++ nl ++ nl)%string ].
Proof.
  split; [| vm_compute; reflexivity].
  exact (proj1 (findRelatedNotes_reply sampleNumberText vaultHost
                  (set_settings (set_embeddings staleCache) ollamaState))).
Defined.

(** ** The chat input *)

Lemma trimStart_from_skip (u s : string) :
  trimStart_from (String.length u) (u ++ s)%string = trimStart s.
Proof.
  induction u as [|a u IH]; [done |].
  change (String a u ++ s)%string with (String a (u ++ s)%string).
  cbn [String.length trimStart_from]. exact IH.
Qed.

(** A white space at the start of a text, split off. *)
Lemma whiteSpaceAt_split (s : string) (k : nat) :
  whiteSpaceAt s = S k ->
  exists w s', s = (w ++ s')%string
               /\ isWhiteSpace w = true /\ String.length w = S k.
Proof.
  unfold isWhiteSpace.
  destruct s as [|a [|b [|c r]]]; cbn [whiteSpaceAt]; [done | | |].
  - destruct ((9 <=? N_of_ascii a) && (N_of_ascii a <=? 13)
              || (N_of_ascii a =? 32))%N eqn:E1; [| done].
    intros [= <-]. exists (String a ""), "". cbn. by rewrite E1.
  - destruct ((9 <=? N_of_ascii a) && (N_of_ascii a <=? 13)
              || (N_of_ascii a =? 32))%N eqn:E1.
    { intros [= <-]. exists (String a ""), (String b ""). cbn. by rewrite E1. }
    destruct ((N_of_ascii a =? 194) && (N_of_ascii b =? 160))%N eqn:E2; [| done].
    intros [= <-]. exists (String a (String b "")), "". cbn. by rewrite E1, E2.
  - destruct ((9 <=? N_of_ascii a) && (N_of_ascii a <=? 13)
              || (N_of_ascii a =? 32))%N eqn:E1.
    { intros [= <-]. exists (String a ""), (String b (String c r)). cbn.
      by rewrite E1. }
    destruct ((N_of_ascii a =? 194) && (N_of_ascii b =? 160))%N eqn:E2.
    { intros [= <-]. exists (String a (String b "")), (String c r). cbn.
      by rewrite E1, E2. }
    intros H. exists (String a (String b (String c ""))), r.
    split; [done |]. cbn. rewrite E1, E2.
    repeat match type of H with
           | (if ?cond then _ else _) = _ =>
               destruct cond; [injection H as <-; done |]
           end.
    discriminate.
Qed.

Lemma whiteSpaceAt_app (w s : string) :
  isWhiteSpace w = true -> whiteSpaceAt (w ++ s)%string = String.length w.
Proof.
  unfold isWhiteSpace. intros [Hne Hlen%Nat.eqb_eq]%andb_true_iff.
  destruct w as [|a [|b [|c [|d r]]]]; cbn [whiteSpaceAt String.length] in *;
    [done | | | |].
  - change (String a "" ++ s)%string with (String a s). cbn [whiteSpaceAt].
    destruct ((9 <=? N_of_ascii a) && (N_of_ascii a <=? 13)
              || (N_of_ascii a =? 32))%N; [done | discriminate].
  - change (String a (String b "") ++ s)%string with (String a (String b s)).
    cbn [whiteSpaceAt].
    destruct ((9 <=? N_of_ascii a) && (N_of_ascii a <=? 13)
              || (N_of_ascii a =? 32))%N; [done |].
    destruct ((N_of_ascii a =? 194) && (N_of_ascii b =? 160))%N; [| done].
    by destruct s.
  - change (String a (String b (String c "")) ++ s)%string
      with (String a (String b (String c s))).
    cbn [whiteSpaceAt]. exact Hlen.
  - exfalso.
    destruct ((9 <=? N_of_ascii a) && (N_of_ascii a <=? 13)
              || (N_of_ascii a =? 32))%N; [done |].
    repeat match type of Hlen with
           | (if ?cond then _ else _) = _ => destruct cond; [done |]
           end.
    done.
Qed.

Lemma trimStart_whiteSpace (w s : string) :
  isWhiteSpace w = true -> trimStart (w ++ s)%string = trimStart s.
Proof.
  intros Hw. pose proof (whiteSpaceAt_app w s Hw) as Hat.
  destruct w as [|a w]; [done |].
  change (String a w ++ s)%string with (String a (w ++ s)%string) in *.
  unfold trimStart at 1. cbn [trimStart_from]. rewrite Hat.
  cbn [String.length]. apply trimStart_from_skip.
Qed.

Lemma trimStart_blank (s : string) : blank s -> trimStart s = "".
Proof.
  induction 1 as [|w s Hw _ IH]; [done |]. by rewrite trimStart_whiteSpace.
Qed.

Lemma whiteSpaceAt_trimStart_from (pending : nat) (s : string) :
  whiteSpaceAt (trimStart_from pending s) = 0.
Proof.
  revert pending. induction s as [|a rest IH]; intros pending; [done |].
  cbn [trimStart_from]. destruct pending as [|k]; [| apply IH].
  destruct (whiteSpaceAt (String a rest)) as [|k] eqn:E; [exact E | apply IH].
Qed.

Lemma trimStart_fixed (s : string) : whiteSpaceAt s = 0 -> trimStart s = s.
Proof.
  intros H. destruct s as [|a rest]; [done |].
  unfold trimStart. cbn [trimStart_from]. by rewrite H.
Qed.

Lemma length_append (u s : string) :
  String.length (u ++ s)%string = String.length u + String.length s.
Proof.
  induction u as [|a u IH]; [done |].
  change (String a u ++ s)%string with (String a (u ++ s)%string).
  cbn [String.length]. by rewrite IH.
Qed.

Lemma blank_trimStart (s : string) : trimStart s = "" -> blank s.
Proof.
  remember (String.length s) as n eqn:Hn. revert s Hn.
  induction n as [n IH] using lt_wf_ind. intros s -> Hs.
  destruct s as [|a rest]; [constructor |].
  destruct (whiteSpaceAt (String a rest)) as [|k] eqn:E.
  { by rewrite trimStart_fixed in Hs. }
  destruct (whiteSpaceAt_split _ _ E) as (w & s' & Heq & Hw & Hlen).
  rewrite Heq in *. rewrite trimStart_whiteSpace in Hs by done.
  constructor; [done |].
  apply (IH (String.length s')); [| done | done].
  rewrite length_append. lia.
Qed.

Lemma trimEnd_empty (t : string) : trimEnd t = "" -> trimStart t = "".
Proof.
  destruct t as [|a rest]; [done |]. cbn [trimEnd].
  by destruct (String.eqb_spec (trimStart (String a rest)) "").
Qed.

(** [trim] gives the empty text exactly on the texts of white space. *)
Lemma trim_empty_iff (s : string) : trim s = "" <-> blank s.
Proof.
  unfold trim. split.
  - intros H%trimEnd_empty. apply blank_trimStart.
    by rewrite trimStart_fixed in H by apply whiteSpaceAt_trimStart_from.
  - intros H%trimStart_blank. by rewrite H.
Qed.

Lemma handleUserInput_returns env input st :
  eval (handleUserInput env input) st = Ok tt.
Proof.
  unfold handleUserInput, addChatMessage, pushHistory.
  destruct (getActiveFile env) as [activeFile|]; [| by run_monad_core].
  run_monad_core.
  destruct (vault_read env activeFile) as [content|e]; [| done].
  cbn [chatHistory set_chatHistory set_chatMessages].
  match goal with
  | |- context [callAIWithHistory ?env ?msgs ?s] =>
      destruct (callAIWithHistory env msgs s) as [[response|e] st1]
  end; by cbn.
Qed.

(** X20. The chat input starts a turn on Enter alone, and never for a
    text of white space only: with another key, with Shift held, or with
    nothing but spaces, tabs and line breaks typed, nothing at all
    happens and the text stays.  Otherwise the turn runs on the trimmed
    text, which is not empty, and the input is cleared. *)
Theorem onKeydown_ignores_blank_input (host : Host) (st : State)
    (key : string) (shiftKey : bool) (value : string) :
  (key <> "Enter" \/ shiftKey = true \/ blank value ->
   onKeydown host key shiftKey value st = (Ok value, st))
  /\ (key = "Enter" -> shiftKey = false -> ~ blank value ->
      trim value <> ""
      /\ onKeydown host key shiftKey value st
         = (Ok "", exec (handleUserInput host (trim value)) st)).
Proof.
  unfold onKeydown. split.
  - intros [Hkey | [-> | Hblank]].
    + apply String.eqb_neq in Hkey. by rewrite Hkey.
    + by rewrite andb_false_r.
    + destruct (String.eqb key "Enter" && negb shiftKey); [| done].
      cbn zeta. apply trim_empty_iff in Hblank. by rewrite Hblank.
  - intros -> -> Hblank. rewrite String.eqb_refl. cbn [negb andb]. cbn zeta.
    assert (Hne : trim value <> "") by (by rewrite trim_empty_iff).
    split; [done |].
    apply String.eqb_neq in Hne. rewrite Hne. cbv beta iota.
    pose proof (handleUserInput_returns host (trim value) st) as Hev.
    unfold exec, eval in *. rewrite bind_unfold.
    destruct (handleUserInput host (trim value) st) as [[[]|e] st1]; cbn in *;
      [done | discriminate].
Qed.

Lemma onKeydown_ignores_blank_input_witness :
  onKeydown vaultHost "Enter" false ("  " ++ nl) ollamaState
  = (Ok ("  " ++ nl)%string, ollamaState).
Proof.
  apply (proj1 (onKeydown_ignores_blank_input vaultHost ollamaState "Enter" false
                  ("  " ++ nl)%string)).
  right. right. apply trim_empty_iff. vm_compute. reflexivity.
Defined.

(** ** Tag suggestions *)

Lemma split_length (sep : ascii) (s : string) :
  length (String_split sep s) = S (length (List.filter (Ascii.eqb sep) (list_ascii_of_string s))).
Proof.
  induction s as [|c rest IH]; [done |].
  cbn [String_split list_ascii_of_string List.filter].
  rewrite (Ascii.eqb_sym sep c).
  destruct (Ascii.eqb c sep); cbn [length]; [by rewrite IH |].
  destruct (String_split sep rest) as [|piece pieces]; [done |]. exact IH.
Qed.

Lemma split_without (sep : ascii) (s : string) :
  Forall (fun piece => sep ∉ list_ascii_of_string piece) (String_split sep s).
Proof.
  induction s as [|c rest IH]; cbn [String_split].
  - constructor; [| constructor]. apply not_elem_of_nil.
  - destruct (Ascii.eqb_spec c sep) as [-> | Hne].
    + constructor; [apply not_elem_of_nil | done].
    + destruct (String_split sep rest) as [|piece pieces].
      * constructor; [| constructor]. cbn.
        apply not_elem_of_cons. split; [done | apply not_elem_of_nil].
      * apply Forall_cons in IH as [Hpiece Hpieces].
        constructor; [| done]. cbn. apply not_elem_of_cons. by split.
Qed.

Lemma elem_of_trimStart_from (c : ascii) (pending : nat) (s : string) :
  c ∈ list_ascii_of_string (trimStart_from pending s) -> c ∈ list_ascii_of_string s.
Proof.
  revert pending. induction s as [|a rest IH]; intros pending; [done |].
  cbn [trimStart_from].
  destruct pending as [|k].
  - destruct (whiteSpaceAt (String a rest)); [done |].
    intros H%IH. cbn. by apply list_elem_of_further.
  - intros H%IH. cbn. by apply list_elem_of_further.
Qed.

Lemma elem_of_trimEnd (c : ascii) (s : string) :
  c ∈ list_ascii_of_string (trimEnd s) -> c ∈ list_ascii_of_string s.
Proof.
  induction s as [|a rest IH]; [done |]. cbn [trimEnd].
  destruct (String.eqb (trimStart (String a rest)) ""); [by intros ?%elem_of_nil |].
  cbn. intros [-> | H]%elem_of_cons; [apply list_elem_of_here |].
  apply list_elem_of_further. by apply IH.
Qed.

Lemma elem_of_trim (c : ascii) (s : string) :
  c ∈ list_ascii_of_string (trim s) -> c ∈ list_ascii_of_string s.
Proof. intros H%elem_of_trimEnd. by apply elem_of_trimStart_from in H. Qed.

Lemma isWhiteSpace_without_comma (w : string) :
  isWhiteSpace w = true -> ","%char ∉ list_ascii_of_string w.
Proof.
  unfold isWhiteSpace. intros [_ Hlen%Nat.eqb_eq]%andb_true_iff Hin.
  destruct w as [|a [|b [|c [|d r]]]]; cbn [whiteSpaceAt String.length] in Hlen;
    cbn [list_ascii_of_string] in Hin.
  - by apply elem_of_nil in Hin.
  - apply list_elem_of_singleton in Hin as <-. by vm_compute in Hlen.
  - apply elem_of_cons in Hin as [<- | Hin%list_elem_of_singleton].
    + by vm_compute in Hlen.
    + subst b.
      destruct ((9 <=? N_of_ascii a) && (N_of_ascii a <=? 13)
                || (N_of_ascii a =? 32))%N; [done |].
      change (N_of_ascii ",") with 44%N in Hlen.
      rewrite andb_false_r in Hlen. done.
  - destruct ((9 <=? N_of_ascii a) && (N_of_ascii a <=? 13)
              || (N_of_ascii a =? 32))%N eqn:E1; [done |].
    destruct ((N_of_ascii a =? 194) && (N_of_ascii b =? 160))%N eqn:E2; [done |].
    apply elem_of_cons in Hin as [<- | Hin].
    { by vm_compute in E1. }
    apply elem_of_cons in Hin as [<- | Hin%list_elem_of_singleton].
    + change (N_of_ascii ",") with 44%N in Hlen. cbn [N.eqb Pos.eqb] in Hlen.
      rewrite !andb_false_r in Hlen. cbn [andb] in Hlen. done.
    + subst c. change (N_of_ascii ",") with 44%N in Hlen.
      cbn [N.eqb N.leb N.compare Pos.eqb Pos.compare Pos.compare_cont orb andb] in Hlen.
      rewrite !andb_false_r in Hlen. done.
  - destruct ((9 <=? N_of_ascii a) && (N_of_ascii a <=? 13)
              || (N_of_ascii a =? 32))%N; [done |].
    repeat match type of Hlen with
           | (if ?cond then _ else _) = _ => destruct cond; [done |]
           end.
    done.
Qed.

Lemma list_ascii_of_string_app (u s : string) :
  list_ascii_of_string (u ++ s)%string
  = list_ascii_of_string u ++ list_ascii_of_string s.
Proof.
  induction u as [|a u IH]; [done |].
  change (String a u ++ s)%string with (String a (u ++ s)%string).
  cbn [list_ascii_of_string]. by rewrite IH.
Qed.

Lemma blank_without_comma (s : string) :
  blank s -> ","%char ∉ list_ascii_of_string s.
Proof.
  induction 1 as [|w s Hw _ IH]; [apply not_elem_of_nil |].
  rewrite list_ascii_of_string_app. intros [Hin | Hin]%elem_of_app; [| done].
  by apply (isWhiteSpace_without_comma w).
Qed.

Lemma split_without_sep (sep : ascii) (s : string) :
  sep ∉ list_ascii_of_string s -> String_split sep s = [s].
Proof.
  induction s as [|c rest IH]; [done |]. cbn [String_split list_ascii_of_string].
  intros [Hne Hrest]%not_elem_of_cons.
  destruct (Ascii.eqb_spec c sep) as [-> | _]; [done |]. by rewrite IH.
Qed.

Lemma split_blank (s : string) : blank s -> String_split "," s = [s].
Proof. intros H. by apply split_without_sep, blank_without_comma. Qed.

(** X21. The tags read from a reply are its comma-separated pieces,
    trimmed: one more than the reply has commas, so never none, and no tag
    holds a comma.  A reply of white space only yields the one empty
    tag. *)
Theorem suggestTags_pieces (callAI' : string -> string -> M string)
    (content response : string) (st : State) :
  eval (callAI' content tagPrompt) st = Ok response ->
  exists tags,
    eval (suggestTags callAI' content) st = Ok tags
    /\ length tags
       = S (length (List.filter (Ascii.eqb ",") (list_ascii_of_string response)))
    /\ Forall (fun tag => ","%char ∉ list_ascii_of_string tag) tags
    /\ (blank response -> tags = [""]).
Proof.
  intros Hcall. exists (map trim (String_split "," response)).
  split; [| split; [| split]].
  - unfold suggestTags, eval in *. rewrite bind_unfold.
    by destruct (callAI' content tagPrompt st) as [[r|e] st1]; cbn in *; simplify_eq.
  - by rewrite length_map, split_length.
  - apply Forall_fmap. eapply Forall_impl; [apply split_without |].
    intros piece Hpiece Hin. by apply Hpiece, elem_of_trim.
  - intros Hblank.
    rewrite (split_blank response Hblank). cbn [map].
    by rewrite (proj2 (trim_empty_iff response) Hblank).
Qed.

Lemma suggestTags_pieces_witness :
  exists tags,
    eval (suggestTags (fun _ _ => ret "philosophy, task,idea ") "Some text") initialState
      = Ok tags
    /\ tags = ["philosophy"; "task"; "idea"]
    /\ length tags = 3.
Proof.
  destruct (suggestTags_pieces (fun _ _ => ret "philosophy, task,idea ") "Some text"
              "philosophy, task,idea " initialState eq_refl)
    as (tags & Hev & Hlen & _).
  exists tags. split; [exact Hev |]. split; [| exact Hlen].
  vm_compute in Hev. by injection Hev as <-.
Defined.

(** ** The tag selection *)

Lemma StringSet_has_spec tag set : StringSet.has tag set = true <-> tag ∈ set.
Proof. unfold StringSet.has. apply bool_decide_eq_true. Qed.

Lemma StringSet_elem_of_add tag' tag set :
  tag' ∈ StringSet.add tag set <-> tag' = tag \/ tag' ∈ set.
Proof.
  unfold StringSet.add. destruct (StringSet.has tag set) eqn:E.
  - apply StringSet_has_spec in E. split; [by right | by intros [-> | ?]].
  - rewrite elem_of_app, list_elem_of_singleton. tauto.
Qed.

Lemma StringSet_elem_of_delete tag' tag set :
  tag' ∈ StringSet.delete tag set <-> tag' ∈ set /\ tag' <> tag.
Proof.
  unfold StringSet.delete.
  rewrite !list_elem_of_In, List.filter_In, negb_true_iff, String.eqb_neq. done.
Qed.

Lemma StringSet_NoDup_add tag set : NoDup set -> NoDup (StringSet.add tag set).
Proof.
  intros Hnd. unfold StringSet.add. destruct (StringSet.has tag set) eqn:E; [done |].
  apply NoDup_app. repeat split; [done | | apply NoDup_singleton].
  intros x Hx ->%list_elem_of_singleton.
  apply StringSet_has_spec in Hx. congruence.
Qed.

Lemma StringSet_NoDup_delete tag set : NoDup set -> NoDup (StringSet.delete tag set).
Proof.
  intros Hnd. unfold StringSet.delete.
  induction Hnd as [|x l Hx Hnd IH]; cbn; [constructor |].
  destruct (negb (String.eqb x tag)); [| done].
  constructor; [| done].
  rewrite list_elem_of_In, List.filter_In, <- list_elem_of_In. tauto.
Qed.

Lemma StringSet_new_spec tags :
  NoDup (StringSet.new tags) /\ forall tag, tag ∈ StringSet.new tags <-> tag ∈ tags.
Proof.
  unfold StringSet.new.
  assert (H : forall set, NoDup set ->
            NoDup (foldl (fun set tag => StringSet.add tag set) set tags)
            /\ forall tag, tag ∈ foldl (fun set tag => StringSet.add tag set) set tags
                           <-> tag ∈ set \/ tag ∈ tags).
  { induction tags as [|t tags IH]; intros set Hnd; cbn [foldl].
    - split; [done |]. intros tag. rewrite elem_of_nil. tauto.
    - destruct (IH (StringSet.add t set)) as [Hnd' Hin];
        [by apply StringSet_NoDup_add |].
      split; [done |]. intros tag.
      rewrite Hin, StringSet_elem_of_add, elem_of_cons. tauto. }
  destruct (H [] (NoDup_nil_2)) as [Hnd Hin]. split; [done |].
  intros tag. rewrite Hin, elem_of_nil. tauto.
Qed.

(** A click toggles its own tag and no other. *)
Lemma click_has tag c modal :
  StringSet.has tag (TagSelectionModal.selectedTags (TagSelectionModal.click c modal))
  = xorb (StringSet.has tag (TagSelectionModal.selectedTags modal)) (String.eqb tag c).
Proof.
  unfold TagSelectionModal.click.
  destruct (StringSet.has c (TagSelectionModal.selectedTags modal)) eqn:Ec;
    cbn [TagSelectionModal.selectedTags];
    destruct (String.eqb_spec tag c) as [-> | Hne].
  - rewrite Ec. cbn. apply not_true_is_false.
    rewrite StringSet_has_spec, StringSet_elem_of_delete. tauto.
  - rewrite xorb_false_r. apply eq_true_iff_eq.
    rewrite !StringSet_has_spec, StringSet_elem_of_delete. tauto.
  - rewrite Ec. cbn. apply StringSet_has_spec, StringSet_elem_of_add. by left.
  - rewrite xorb_false_r. apply eq_true_iff_eq.
    rewrite !StringSet_has_spec, StringSet_elem_of_add. tauto.
Qed.

Lemma clicks_has tag clicks modal :
  StringSet.has tag
    (TagSelectionModal.selectedTags
       (foldl (fun modal c => TagSelectionModal.click c modal) modal clicks))
  = xorb (StringSet.has tag (TagSelectionModal.selectedTags modal))
         (Nat.odd (length (List.filter (String.eqb tag) clicks))).
Proof.
  revert modal. induction clicks as [|c clicks IH]; intros modal; cbn [foldl].
  - cbn. by rewrite xorb_false_r.
  - rewrite IH, click_has. cbn [List.filter].
    destruct (String.eqb tag c); cbn [length].
    + rewrite Nat.odd_succ, <- Nat.negb_odd.
      by destruct (StringSet.has tag _), (Nat.odd _).
    + by rewrite xorb_false_r.
Qed.

Lemma clicks_NoDup clicks modal :
  NoDup (TagSelectionModal.selectedTags modal) ->
  NoDup (TagSelectionModal.selectedTags
           (foldl (fun modal c => TagSelectionModal.click c modal) modal clicks)).
Proof.
  revert modal. induction clicks as [|c clicks IH]; intros modal Hnd; [done |].
  cbn [foldl]. apply IH. unfold TagSelectionModal.click.
  destruct (StringSet.has c (TagSelectionModal.selectedTags modal));
    cbn [TagSelectionModal.selectedTags];
    first [by apply StringSet_NoDup_delete | by apply StringSet_NoDup_add].
Qed.

(** X22. The tag dialog opens with every suggested tag selected, and each
    click on a tag toggles it: whatever is clicked, the tags submitted are
    the suggested tags clicked an even number of times, each once.  The
    text then handed to the editor begins with the selected text; when
    every tag has been deselected the editor is not called. *)
Theorem tag_selection_by_parity (suggestedTags clicks : list string) :
  Forall (fun tag => tag ∈ suggestedTags) clicks ->
  let submitted :=
    TagSelectionModal.submit
      (foldl (fun modal tag => TagSelectionModal.click tag modal)
             (TagSelectionModal.new suggestedTags) clicks) in
  NoDup submitted
  /\ (forall tag,
        tag ∈ submitted
        <-> tag ∈ suggestedTags
            /\ Nat.even (length (List.filter (String.eqb tag) clicks)) = true)
  /\ (forall text st,
        match eval (onSubmitTags text submitted) st with
        | Ok (Some replacement) =>
            submitted <> [] /\ String.prefix text replacement = true
        | Ok None => submitted = []
        | Throw _ => False
        end).
Proof.
  intros Hclicks. cbn zeta. unfold TagSelectionModal.submit.
  destruct (StringSet_new_spec suggestedTags) as [Hnd Hnew].
  split; [| split].
  - by apply clicks_NoDup.
  - intros tag. rewrite <- StringSet_has_spec, clicks_has.
    cbn [TagSelectionModal.new TagSelectionModal.selectedTags].
    rewrite <- Nat.negb_odd.
    destruct (StringSet.has tag (StringSet.new suggestedTags)) eqn:E.
    + apply StringSet_has_spec, Hnew in E.
      destruct (Nat.odd _); cbn; intuition congruence.
    + assert (Hnot : tag ∉ suggestedTags).
      { intros Hin%Hnew%StringSet_has_spec. congruence. }
      assert (List.filter (String.eqb tag) clicks = []) as ->.
      { clear -Hclicks Hnot. induction Hclicks as [|c clicks Hc _ IH]; [done |].
        cbn. destruct (String.eqb_spec tag c) as [-> | _]; [done | exact IH]. }
      cbn. intuition congruence.
  - intros text st. unfold onSubmitTags.
    destruct (TagSelectionModal.selectedTags _) as [|tag tags]; [done |].
    cbn [length Nat.ltb Nat.leb]. run_monad_core. split; [done |].
    apply prefix_append.
Qed.

Lemma tag_selection_by_parity_witness :
  TagSelectionModal.submit
    (foldl (fun modal tag => TagSelectionModal.click tag modal)
           (TagSelectionModal.new ["idea"; "task"; "idea"; "book"])
           ["task"; "idea"; "idea"])
  = ["book"; "idea"]
  /\ NoDup (TagSelectionModal.submit
              (foldl (fun modal tag => TagSelectionModal.click tag modal)
                     (TagSelectionModal.new ["idea"; "task"; "idea"; "book"])
                     ["task"; "idea"; "idea"])).
Proof.
  split; [vm_compute; reflexivity |].
  refine (proj1 (tag_selection_by_parity ["idea"; "task"; "idea"; "book"]
                   ["task"; "idea"; "idea"] _)).
  apply (bool_decide_eq_true_1 _). vm_compute. reflexivity.
Defined.

(** ** The earlier revision *)

Ltac run_legacy :=
  cbv [Legacy.bind Legacy.ret Legacy.await Legacy.get Legacy.modify Legacy.try_catch
       Legacy.exec Legacy.eval Legacy.Notice Legacy.console_error Legacy.console_warn
       Legacy.vectorStore_add Legacy.written Legacy.generateEmbedding] in *;
  cbn [fst snd Legacy.vectorStore Legacy.notices Legacy.consoleErrors
       Legacy.consoleWarnings Legacy.vaultWrites] in *.

(** The cases in which nothing is added or written. *)
Ltac legacy_cases :=
  repeat split; intros; simplify_eq; try done; try (by left); try contradiction;
  try congruence.

Lemma blank_eqb (content : string) :
  String.eqb content "" || String.eqb (trim content) "" = true <-> blank content.
Proof.
  rewrite <- trim_empty_iff, orb_true_iff, !String.eqb_eq.
  split; [| by right]. by intros [-> | H].
Qed.

(** X23. The earlier revision filters before it embeds: [indexNote] never
    throws, and it adds one entry to the store exactly when the file is
    read, holds more than white space and is embedded.  A note of white
    space only is skipped with a warning, no vector asked for it. *)
Theorem legacy_indexNote_skips_blank (env : Legacy.Env) (st : Legacy.State)
    (file : TFile.t) :
  let st' := Legacy.exec (Legacy.indexNote env file) st in
  Legacy.eval (Legacy.indexNote env file) st = Ok tt
  /\ (forall content,
        Legacy.vault_read env file = Ok content -> blank content ->
        Legacy.vectorStore st' = Legacy.vectorStore st
        /\ (TFile.path file <> "" ->
            Legacy.consoleWarnings st'
            = Legacy.consoleWarnings st
              ++ [("⚠️ Skipping empty note: " ++ TFile.path file)%string]))
  /\ (forall content v,
        TFile.path file <> "" ->
        Legacy.vault_read env file = Ok content -> ~ blank content ->
        Legacy.embeddings_create env content = Ok v ->
        Legacy.vectorStore st'
        = VectorStore.add (Legacy.vectorStore st) (TFile.path file) v)
  /\ (Legacy.vectorStore st' = Legacy.vectorStore st
      \/ exists content v,
           Legacy.vault_read env file = Ok content /\ ~ blank content
           /\ Legacy.embeddings_create env content = Ok v
           /\ Legacy.vectorStore st'
              = VectorStore.add (Legacy.vectorStore st) (TFile.path file) v).
Proof.
  cbn zeta. unfold Legacy.indexNote.
  destruct (String.eqb_spec (TFile.path file) "") as [Hpath | Hpath];
    [by run_legacy; legacy_cases |].
  run_legacy.
  destruct (Legacy.vault_read env file) as [content|e]; [| by legacy_cases].
  destruct (String.eqb content "" || String.eqb (trim content) "") eqn:Hblank.
  - apply blank_eqb in Hblank. cbn. by legacy_cases.
  - assert (Hnot : ~ blank content).
    { intros H%blank_eqb. congruence. }
    destruct (Legacy.embeddings_create env content) as [v|e] eqn:Hv; cbn;
      [| by legacy_cases].
    repeat split; intros; simplify_eq; try done; try congruence.
    right. by exists content, v.
Qed.

Lemma legacy_indexNote_store env st file :
  Legacy.eval (Legacy.indexNote env file) st = Ok tt
  /\ (Legacy.vectorStore (Legacy.exec (Legacy.indexNote env file) st)
        = Legacy.vectorStore st
      \/ exists v,
           Legacy.vectorStore (Legacy.exec (Legacy.indexNote env file) st)
           = Legacy.vectorStore st ++ [VectorStore.mkEntry (TFile.path file) v]).
Proof.
  unfold Legacy.indexNote.
  destruct (String.eqb (TFile.path file) ""); [run_legacy; split; [done | by left] |].
  run_legacy.
  destruct (Legacy.vault_read env file) as [content|e]; [| split; [done | by left]].
  destruct (String.eqb content "" || String.eqb (trim content) "");
    [split; [done | by left] |].
  destruct (Legacy.embeddings_create env content) as [v|e]; cbn.
  - split; [done |]. right. by exists v.
  - split; [done | by left].
Qed.

Lemma legacy_indexEach_store env files st :
  Legacy.eval (Legacy.indexEach env files) st = Ok tt
  /\ exists added,
       Legacy.vectorStore (Legacy.exec (Legacy.indexEach env files) st)
       = Legacy.vectorStore st ++ added
       /\ map VectorStore.path added `sublist_of` map TFile.path files.
Proof.
  revert st. induction files as [|file rest IH]; intros st.
  { split; [done |]. exists []. by rewrite app_nil_r. }
  cbn [Legacy.indexEach].
  assert (Hstep : exists st1,
            (if String.eqb (TFile.path file) ""
             then Legacy.console_error "⚠️ Skipping invalid file:"
             else Legacy.indexNote env file) st = (Ok tt, st1)
            /\ (Legacy.vectorStore st1 = Legacy.vectorStore st
                \/ exists v, Legacy.vectorStore st1
                             = Legacy.vectorStore st
                               ++ [VectorStore.mkEntry (TFile.path file) v])).
  { destruct (String.eqb (TFile.path file) "").
    - eexists. split; [reflexivity |]. by left.
    - destruct (legacy_indexNote_store env st file) as [Hev Hstore].
      unfold Legacy.eval, Legacy.exec in *.
      destruct (Legacy.indexNote env file st) as [r st1]. cbn in *. subst r.
      by exists st1. }
  destruct Hstep as (st1 & Hrun & Hstore).
  unfold Legacy.eval, Legacy.exec, Legacy.bind in *. rewrite Hrun.
  destruct (IH st1) as (Hev & added & Hadded & Hsub).
  split; [done |].
  destruct Hstore as [Heq | [v Heq]]; rewrite Heq in Hadded.
  - exists added. split; [done |]. cbn. by apply sublist_cons.
  - exists (VectorStore.mkEntry (TFile.path file) v :: added).
    split; [by rewrite Hadded, <- app_assoc |]. cbn. by apply sublist_skip.
Qed.

(** X24. [indexAllNotes] of the earlier revision never throws and only
    appends to the store: the entries before stay in place, and those
    added carry paths of the vault's files, in the vault's order, at most
    one per file.  With no file in the vault it indexes nothing and says
    so. *)
Theorem legacy_indexAllNotes_appends (env : Legacy.Env) (st : Legacy.State) :
  let st' := Legacy.exec (Legacy.indexAllNotes env) st in
  Legacy.eval (Legacy.indexAllNotes env) st = Ok tt
  /\ (exists added,
        Legacy.vectorStore st' = Legacy.vectorStore st ++ added
        /\ map VectorStore.path added `sublist_of` map TFile.path (Legacy.getFiles env))
  /\ VectorStore.size (Legacy.vectorStore st')
     <= VectorStore.size (Legacy.vectorStore st) + length (Legacy.getFiles env)
  /\ (Legacy.getFiles env = [] ->
      Legacy.vectorStore st' = Legacy.vectorStore st
      /\ Legacy.notices st' = Legacy.notices st ++ ["❌ No notes found to index."]).
Proof.
  cbn zeta.
  assert (H : Legacy.eval (Legacy.indexAllNotes env) st = Ok tt
              /\ exists added,
                   Legacy.vectorStore (Legacy.exec (Legacy.indexAllNotes env) st)
                   = Legacy.vectorStore st ++ added
                   /\ map VectorStore.path added
                        `sublist_of` map TFile.path (Legacy.getFiles env)).
  { unfold Legacy.indexAllNotes.
    destruct (Legacy.getFiles env) as [|file files] eqn:Hfiles.
    { run_legacy. split; [done |]. exists []. by rewrite app_nil_r. }
    cbn [length Nat.eqb].
    destruct (legacy_indexEach_store env (file :: files) st)
      as (Hev & added & Hadded & Hsub).
    unfold Legacy.eval, Legacy.exec, Legacy.bind in *.
    destruct (Legacy.indexEach env (file :: files) st) as [[[]|e] st1];
      cbn in *; [| discriminate].
    split; [done |]. by exists added. }
  destruct H as (Hev & added & Hadded & Hsub).
  split; [done |]. split; [by exists added |]. split.
  - rewrite Hadded. unfold VectorStore.size. rewrite length_app.
    apply sublist_length in Hsub. rewrite !length_map in Hsub. lia.
  - intros Hfiles. unfold Legacy.indexAllNotes. rewrite Hfiles. by run_legacy.
Qed.

(** X25. "Find Related Notes" of the earlier revision never throws and
    leaves the store alone.  It writes the note at most once, and what it
    writes is the content it has read followed by the heading and one line
    per result of [search] with [k = 3], so at most three.  For a note of
    white space only, or with nothing indexed, it writes nothing. *)
Theorem legacy_findRelatedNotes_appends (numberText : number -> string)
    (env : Legacy.Env) (st : Legacy.State) :
  let st' := Legacy.exec (Legacy.findRelatedNotes env numberText) st in
  Legacy.eval (Legacy.findRelatedNotes env numberText) st = Ok tt
  /\ Legacy.vectorStore st' = Legacy.vectorStore st
  /\ (Legacy.vaultWrites st' = Legacy.vaultWrites st
      \/ exists activeFile content queryEmbedding,
           Legacy.getActiveFile env = Some activeFile
           /\ Legacy.vault_read env activeFile = Ok content
           /\ ~ blank content
           /\ Legacy.embeddings_create env content = Ok queryEmbedding
           /\ Legacy.vectorStore st <> []
           /\ let searchResults :=
                VectorStore.search (Legacy.engine env) (Legacy.vectorStore st)
                  queryEmbedding 3 in
              Legacy.vaultWrites st'
              = Legacy.vaultWrites st
                ++ [(TFile.path activeFile,
                     (content ++ Legacy.relatedLines numberText searchResults
                                   legacyHeader)%string)]
              /\ length searchResults <= 3).
Proof.
  cbn zeta. unfold Legacy.findRelatedNotes.
  destruct (Legacy.getActiveFile env) as [activeFile|];
    [| run_legacy; repeat split; try done; by left].
  destruct (String.eqb (TFile.path activeFile) "");
    [run_legacy; repeat split; try done; by left |].
  run_legacy.
  destruct (Legacy.vault_read env activeFile) as [content|e] eqn:Hread;
    [| repeat split; try done; by left].
  destruct (String.eqb content "" || String.eqb (trim content) "") eqn:Hblank;
    [repeat split; try done; by left |].
  assert (Hnot : ~ blank content).
  { intros H%blank_eqb. congruence. }
  destruct (Legacy.embeddings_create env content) as [q|e] eqn:Hq; cbn;
    [| repeat split; try done; by left].
  destruct (Legacy.vectorStore st) as [|entry store] eqn:Hstore;
    [cbn; repeat split; try done; by left |].
  cbn [VectorStore.size length Nat.eqb].
  fold legacyHeader.
  destruct (Legacy.vault_modify env activeFile _) as [[]|e]; cbn;
    [| repeat split; try done; by left].
  repeat split; try done.
  right. exists activeFile, content, q. repeat split; try done.
  unfold VectorStore.search. rewrite length_take. lia.
Qed.
